(** * wizard-workspace: the virtual filesystem and the shell interpreter

    A shallow embedding of [src/stores/filesystemStore.ts],
    [src/stores/terminalStore.ts] and [src/stores/systemStore.ts], the
    properties of the specification checked against it, and further laws
    of the three stores.

    Conventions of the embedding.
    - A JavaScript string is a [string]: a sequence of 8-bit code units.
    - A JavaScript object used as a dictionary ([Record<string, T>]) is an
      association list in property order: an assignment to a present key
      keeps its position, an assignment to a new key appends, [delete]
      removes.  ([Object.values] walks that order; keys are node ids
      produced by [uuidv4], never array-index strings.)
    - The zustand stores are threaded explicitly: every action takes the
      state read by [get()] and returns the state written by [set].
    - [uuidv4()] and [new Date()] are inputs of the actions that call them.
    - Recursion through the node table ([collectDescendants],
      [updatePaths]) is bounded by fuel; running out of fuel is the
      source's call-stack overflow.
    - A look-up in an object literal ([commands[cmd]], [aliases[word]])
      is a look-up among its own keys: inputs whose first word names a
      property of [Object.prototype] are left out.
    - [JSON.parse], [JSON.stringify] and [RegExp] are parameters of the
      definitions that call them; a reference printer and reader of JSON
      and a small matcher stand in for them where examples are run.  *)

From Stdlib Require Import String Ascii List ZArith Lia Bool Arith.
From Stdlib Require Import DecimalString DecimalZ.
From Stdlib Require DecimalPos DecimalFacts.
Import ListNotations.
Open Scope string_scope.
Open Scope list_scope.

Set Implicit Arguments.
Set Warnings "-register-all".

(** ** JavaScript built-ins used by the two stores *)

Module JS.

(** Truthiness of a string: only the empty string is falsy. *)
Definition truthy (s : string) : bool :=
  match s with EmptyString => false | String _ _ => true end.

(** [a || b] on strings. *)
Definition or_else (a b : string) : string := if truthy a then a else b.

(** [s.startsWith(p)]. *)
Definition startsWith (s p : string) : bool := String.prefix p s.

(** [s.slice(n)] for [0 <= n]. *)
Fixpoint slice_from (n : nat) (s : string) : string :=
  match n, s with
  | O, _ => s
  | S _, EmptyString => EmptyString
  | S m, String _ t => slice_from m t
  end.

(** [s.slice(0, n)] for [0 <= n]. *)
Fixpoint slice_to (n : nat) (s : string) : string :=
  match n, s with
  | O, _ => EmptyString
  | S _, EmptyString => EmptyString
  | S m, String a t => String a (slice_to m t)
  end.

(** [s.split(c)] for a one-character separator. *)
Fixpoint split (c : ascii) (s : string) : list string :=
  match s with
  | EmptyString => [EmptyString]
  | String a t =>
      if Ascii.eqb a c then EmptyString :: split c t
      else match split c t with
           | [] => [String a EmptyString]
           | w :: ws => String a w :: ws
           end
  end.

(** [l.join(sep)]. *)
Definition join (sep : string) (l : list string) : string :=
  String.concat sep l.

(** [l.filter(Boolean)] on a list of strings. *)
Definition filter_Boolean (l : list string) : list string :=
  filter truthy l.

(** [s.indexOf(pat)]. *)
Fixpoint indexOf (pat s : string) {struct s} : option nat :=
  if String.prefix pat s then Some 0
  else match s with
       | EmptyString => None
       | String _ t => option_map S (indexOf pat t)
       end.

(** [GetSubstitution] of ECMA-262 for a string pattern (no captures):
    in the replacement text [$$] is a dollar, [$&] the matched text,
    [$`] the text before the match and [$'] the text after it. *)
Fixpoint getSubstitution (matched before after tpl : string) : string :=
  match tpl with
  | EmptyString => EmptyString
  | String a t =>
      if Ascii.eqb a "$" then
        match t with
        | EmptyString => String a EmptyString
        | String c rest =>
            if Ascii.eqb c "$" then
              String "$" (getSubstitution matched before after rest)
            else if Ascii.eqb c "&" then
              matched ++ getSubstitution matched before after rest
            else if Ascii.eqb c "`" then
              before ++ getSubstitution matched before after rest
            else if Ascii.eqb c "'" then
              after ++ getSubstitution matched before after rest
            else String a (getSubstitution matched before after t)
        end
      else String a (getSubstitution matched before after t)
  end.

(** [s.replace(pat, rep)] with a string pattern: the first occurrence only. *)
Definition replace (s pat rep : string) : string :=
  match indexOf pat s with
  | None => s
  | Some i =>
      let before := slice_to i s in
      let after := slice_from (i + String.length pat) s in
      before ++ getSubstitution pat before after rep ++ after
  end.

(** [l.pop()] as far as the array is concerned. *)
Definition pop (l : list string) : list string := removelast l.

(** [l.pop()] as far as the returned element is concerned. *)
Definition last_elt (l : list string) : option string :=
  match rev l with [] => None | x :: _ => Some x end.

(** The double quote. *)
Definition dquote : ascii := ascii_of_nat 34.

(** The line feed. *)
Definition LF : ascii := ascii_of_nat 10.

(** The class [\s] of regular expressions, which is also what [trim]
    removes, among 8-bit code units. *)
Definition is_space (c : ascii) : bool :=
  let n := nat_of_ascii c in
  (((9 <=? n) && (n <=? 13)) || (n =? 32) || (n =? 160))%nat.

Fixpoint trimStart (s : string) : string :=
  match s with
  | EmptyString => EmptyString
  | String c t => if is_space c then trimStart t else s
  end.

(** [s.trimEnd()]: [None] stands for a string of white space only. *)
Fixpoint trimEnd_aux (s : string) : option string :=
  match s with
  | EmptyString => None
  | String c t =>
      match trimEnd_aux t with
      | Some t' => Some (String c t')
      | None => if is_space c then None else Some (String c EmptyString)
      end
  end.

Definition trimEnd (s : string) : string :=
  match trimEnd_aux s with Some r => r | None => EmptyString end.

(** [s.trim()]. *)
Definition trim (s : string) : string := trimEnd (trimStart s).

(** [s.split(/\s+/)[0]]: the characters before the first white space. *)
Fixpoint firstField (s : string) : string :=
  match s with
  | EmptyString => EmptyString
  | String c t => if is_space c then EmptyString else String c (firstField t)
  end.

(** [s.split(/\s+/).filter(Boolean).length]: the number of maximal runs of
    characters that are not white space. *)
Fixpoint countWords (inWord : bool) (s : string) : nat :=
  match s with
  | EmptyString => 0
  | String c t =>
      if is_space c then countWords false t
      else if inWord then countWords true t
      else S (countWords true t)
  end.

(** [s.toLowerCase()] on 8-bit code units. *)
Definition lowerChar (c : ascii) : ascii :=
  let n := nat_of_ascii c in
  if (((65 <=? n) && (n <=? 90))
      || ((192 <=? n) && (n <=? 222) && negb (n =? 215)))%nat
  then ascii_of_nat (n + 32) else c.

Fixpoint toLowerCase (s : string) : string :=
  match s with
  | EmptyString => EmptyString
  | String c t => String (lowerChar c) (toLowerCase t)
  end.

(** [s.toUpperCase()] on ASCII text (the store applies it to keys of its
    command table only). *)
Definition upperChar (c : ascii) : ascii :=
  let n := nat_of_ascii c in
  if ((97 <=? n) && (n <=? 122))%nat then ascii_of_nat (n - 32) else c.

Fixpoint toUpperCase (s : string) : string :=
  match s with
  | EmptyString => EmptyString
  | String c t => String (upperChar c) (toUpperCase t)
  end.

(** [String(n)] for an integer. *)
Definition ofZ (z : Z) : string := NilZero.string_of_int (Z.to_int z).

Definition ofNat (n : nat) : string := ofZ (Z.of_nat n).

(** [s.padStart(n, fill)] for a one-character [fill]. *)
Fixpoint repeatChar (c : ascii) (n : nat) : string :=
  match n with O => EmptyString | S m => String c (repeatChar c m) end.

Definition padStart (n : nat) (c : ascii) (s : string) : string :=
  repeatChar c (n - String.length s) ++ s.

(** Does the string hold this character? *)
Fixpoint hasChar (c : ascii) (s : string) : bool :=
  match s with
  | EmptyString => false
  | String a t => Ascii.eqb a c || hasChar c t
  end.

(** [s.match(/(?:[^\s"]+|"[^"]*")+/g) || []].  A match is a maximal run of
    unquoted characters other than white space and of quoted stretches; a
    quote that no later quote closes matches nothing and is skipped.
    [cur] is the match under way, [inq] tells that the scan is inside a
    quoted stretch (entered only when a closing quote lies ahead). *)
Definition flushToken (cur : string) : list string :=
  if truthy cur then [cur] else [].

Fixpoint matchTokens (cur : string) (inq : bool) (s : string)
  : list string :=
  match s with
  | EmptyString => flushToken cur
  | String c t =>
      if inq then
        matchTokens (cur ++ String c EmptyString) (negb (Ascii.eqb c dquote)) t
      else if Ascii.eqb c dquote then
        if hasChar dquote t
        then matchTokens (cur ++ String c EmptyString) true t
        else flushToken cur ++ matchTokens EmptyString false t
      else if is_space c then flushToken cur ++ matchTokens EmptyString false t
      else matchTokens (cur ++ String c EmptyString) false t
  end.

(** [a.replace(/^"|"$/g, '')]: one leading and one trailing quote go. *)
Definition dropLeading (q : ascii -> bool) (s : string) : string :=
  match s with
  | String c t => if q c then t else s
  | EmptyString => s
  end.

Fixpoint dropTrailing (q : ascii -> bool) (s : string) : string :=
  match s with
  | EmptyString => EmptyString
  | String c EmptyString => if q c then EmptyString else s
  | String c t => String c (dropTrailing q t)
  end.

Definition stripQuotes (q : ascii -> bool) (s : string) : string :=
  dropTrailing q (dropLeading q s).

(** [parseInt(s)]: white space, a sign, then hexadecimal digits after
    [0x] and decimal digits otherwise; [None] is [NaN]. *)
Definition digitVal (radix : nat) (c : ascii) : option nat :=
  let n := nat_of_ascii c in
  let v := if ((48 <=? n) && (n <=? 57))%nat then Some (n - 48)
           else if ((97 <=? n) && (n <=? 122))%nat then Some (n - 87)
           else if ((65 <=? n) && (n <=? 90))%nat then Some (n - 55)
           else None in
  match v with
  | Some d => if (d <? radix)%nat then Some d else None
  | None => None
  end.

Fixpoint parseDigits (radix : nat) (acc : option Z) (s : string)
  : option Z :=
  match s with
  | EmptyString => acc
  | String c t =>
      match digitVal radix c with
      | Some d =>
          parseDigits radix
            (Some (match acc with Some a => a | None => 0 end
                   * Z.of_nat radix + Z.of_nat d)%Z) t
      | None => acc
      end
  end.

Definition parseInt (s : string) : option Z :=
  let s1 := trimStart s in
  let '(neg, s2) :=
    match s1 with
    | String c t =>
        if Ascii.eqb c "-" then (true, t)
        else if Ascii.eqb c "+" then (false, t)
        else (false, s1)
    | EmptyString => (false, s1)
    end in
  let r :=
    if String.prefix "0x" s2 || String.prefix "0X" s2
    then parseDigits 16 None (slice_from 2 s2)
    else parseDigits 10 None s2 in
  option_map (fun z => if neg then (- z)%Z else z) r.

(** [l.slice(0, n)] and [l.slice(n)] on arrays, [n] any integer. *)
Definition sliceStart {A : Type} (l : list A) (n : Z) : nat :=
  if (n <? 0)%Z then Z.to_nat (Z.max (Z.of_nat (List.length l) + n) 0)
  else Nat.min (Z.to_nat n) (List.length l).

Definition arraySliceTo {A : Type} (n : Z) (l : list A) : list A :=
  firstn (sliceStart l n) l.

Definition arraySliceFrom {A : Type} (n : Z) (l : list A) : list A :=
  skipn (sliceStart l n) l.

(** Property-ordered objects with string keys. *)
Section Obj.
Variable V : Type.

Definition obj := list (string * V).

Fixpoint get (k : string) (o : obj) : option V :=
  match o with
  | [] => None
  | (k', v) :: r => if String.eqb k' k then Some v else get k r
  end.

Fixpoint set (k : string) (v : V) (o : obj) : obj :=
  match o with
  | [] => [(k, v)]
  | (k', v') :: r =>
      if String.eqb k' k then (k', v) :: r else (k', v') :: set k v r
  end.

Definition delete (k : string) (o : obj) : obj :=
  filter (fun kv => negb (String.eqb (fst kv) k)) o.

Definition values (o : obj) : list V := map snd o.

Definition keys (o : obj) : list string := map fst o.
End Obj.

End JS.

(** ** The virtual filesystem ([filesystemStore.ts]) *)

Module Filesystem.

Inductive NodeType := file | directory.

Definition NodeType_eqb (a b : NodeType) : bool :=
  match a, b with
  | file, file | directory, directory => true
  | _, _ => false
  end.

(** A [Date] field holds a [Date] object (epoch milliseconds) in a tree
    built by the store, and the ISO string [JSON.parse] leaves in its place
    in an imported tree. *)
Inductive Date := DateObj (ms : Z) | DateStr (iso : string).

Record FileNode := mkNode {
  id : string;
  name : string;
  type : NodeType;
  path : string;
  parent : option string;
  permissions : string;
  owner : string;
  group : string;
  size : nat;
  created : Date;
  modified : Date;
  content : option string;
  children : option (list string);
  isReadOnly : option bool
}.

Record FileSystem := mkFs {
  nodes : JS.obj FileNode;
  root : string;
  currentDirectory : string
}.

(** Functional updates, the spreads [{...n, f: v}] of the source. *)
Definition with_path (p : string) (n : FileNode) : FileNode :=
  mkNode (id n) (name n) (type n) p (parent n) (permissions n) (owner n)
    (group n) (size n) (created n) (modified n) (content n) (children n)
    (isReadOnly n).

Definition with_name (s : string) (n : FileNode) : FileNode :=
  mkNode (id n) s (type n) (path n) (parent n) (permissions n) (owner n)
    (group n) (size n) (created n) (modified n) (content n) (children n)
    (isReadOnly n).

Definition with_parent (p : option string) (n : FileNode) : FileNode :=
  mkNode (id n) (name n) (type n) (path n) p (permissions n) (owner n)
    (group n) (size n) (created n) (modified n) (content n) (children n)
    (isReadOnly n).

Definition with_modified (d : Date) (n : FileNode) : FileNode :=
  mkNode (id n) (name n) (type n) (path n) (parent n) (permissions n)
    (owner n) (group n) (size n) (created n) d (content n) (children n)
    (isReadOnly n).

Definition with_children (c : option (list string)) (n : FileNode)
  : FileNode :=
  mkNode (id n) (name n) (type n) (path n) (parent n) (permissions n)
    (owner n) (group n) (size n) (created n) (modified n) (content n) c
    (isReadOnly n).

Definition with_content (c : string) (n : FileNode) : FileNode :=
  mkNode (id n) (name n) (type n) (path n) (parent n) (permissions n)
    (owner n) (group n) (String.length c) (created n) (modified n) (Some c)
    (children n) (isReadOnly n).

Definition with_nodes (o : JS.obj FileNode) (fs : FileSystem) : FileSystem :=
  mkFs o (root fs) (currentDirectory fs).

Definition with_currentDirectory (d : string) (fs : FileSystem)
  : FileSystem :=
  mkFs (nodes fs) (root fs) d.

(** [node.isReadOnly] in a condition. *)
Definition readOnly (n : FileNode) : bool :=
  match isReadOnly n with Some true => true | _ => false end.

(** [parentPath === '/' ? `/${name}` : `${parentPath}/${name}`]. *)
Definition childPath (parentPath nm : string) : string :=
  if String.eqb parentPath "/" then "/" ++ nm else parentPath ++ "/" ++ nm.

Definition getNodeById (fs : FileSystem) (i : string) : option FileNode :=
  JS.get i (nodes fs).

Definition getCurrentDirectory (fs : FileSystem) : option FileNode :=
  JS.get (currentDirectory fs) (nodes fs).

(** [currentDir?.path || '/']. *)
Definition cwdPath (fs : FileSystem) : string :=
  match getCurrentDirectory fs with
  | Some d => JS.or_else (path d) "/"
  | None => "/"
  end.

(** The loop of [resolvePath] over the path segments. *)
Definition resolveStep (resolved : list string) (part : string)
  : list string :=
  if String.eqb part ".." then JS.pop resolved
  else if negb (String.eqb part ".") then resolved ++ [part]
  else resolved.

Definition resolveParts (parts : list string) : list string :=
  fold_left resolveStep parts [].

Definition normalizePath (p : string) : string :=
  "/" ++ JS.join "/" (resolveParts (JS.filter_Boolean (JS.split "/" p))).

Definition resolvePath (fs : FileSystem) (p : string) : string :=
  if negb (JS.truthy p) || String.eqb p "." then cwdPath fs
  else if String.eqb p "~" then "/home/user"
  else if JS.startsWith p "~/" then "/home/user" ++ JS.slice_from 1 p
  else if JS.startsWith p "/" then normalizePath p
  else normalizePath (cwdPath fs ++ "/" ++ p).

Definition getParentPath (p : string) : string :=
  "/" ++ JS.join "/" (JS.pop (JS.filter_Boolean (JS.split "/" p))).

Definition getNodeByPath (fs : FileSystem) (p : string) : option FileNode :=
  let resolvedPath := resolvePath fs p in
  find (fun n => String.eqb (path n) resolvedPath) (JS.values (nodes fs)).

Definition getChildren (fs : FileSystem) (nodeId : string) : list FileNode :=
  match JS.get nodeId (nodes fs) with
  | Some n =>
      match type n, children n with
      | directory, Some cs =>
          flat_map (fun i => match JS.get i (nodes fs) with
                             | Some c => [c]
                             | None => []
                             end) cs
      | _, _ => []
      end
  | None => []
  end.

Definition setCurrentDirectory (p : string) (fs : FileSystem)
  : bool * FileSystem :=
  let resolvedPath := resolvePath fs p in
  match getNodeByPath fs resolvedPath with
  | Some n =>
      match type n with
      | directory => (true, with_currentDirectory (id n) fs)
      | file => (false, fs)
      end
  | None => (false, fs)
  end.

(** [[...(parent.children || []), x]]. *)
Definition pushChild (x : string) (n : FileNode) : FileNode :=
  with_children
    (Some (match children n with Some cs => cs | None => [] end ++ [x])) n.

Definition createFile (nm parentPath cont : string) (uuid : string)
    (now : Z) (fs : FileSystem) : option FileNode * FileSystem :=
  match getNodeByPath fs parentPath with
  | Some par =>
      match type par with
      | directory =>
          let newPath := childPath (path par) nm in
          match getNodeByPath fs newPath with
          | Some _ => (None, fs)
          | None =>
              let newFile :=
                mkNode uuid nm file newPath (Some (id par)) "rw-r--r--"
                  "user" "user" (String.length cont) (DateObj now)
                  (DateObj now) (Some cont) None None in
              (Some newFile,
               with_nodes
                 (JS.set (id par) (pushChild (id newFile) par)
                    (JS.set (id newFile) newFile (nodes fs))) fs)
          end
      | file => (None, fs)
      end
  | None => (None, fs)
  end.

Definition createDirectory (nm parentPath : string) (uuid : string)
    (now : Z) (fs : FileSystem) : option FileNode * FileSystem :=
  match getNodeByPath fs parentPath with
  | Some par =>
      match type par with
      | directory =>
          let newPath := childPath (path par) nm in
          match getNodeByPath fs newPath with
          | Some _ => (None, fs)
          | None =>
              let newDir :=
                mkNode uuid nm directory newPath (Some (id par)) "rwxr-xr-x"
                  "user" "user" 0 (DateObj now) (DateObj now) None
                  (Some []) None in
              (Some newDir,
               with_nodes
                 (JS.set (id par) (pushChild (id newDir) par)
                    (JS.set (id newDir) newDir (nodes fs))) fs)
          end
      | file => (None, fs)
      end
  | None => (None, fs)
  end.

(** [!node.parent]: the parent is [null] or the empty string. *)
Definition noParent (n : FileNode) : bool :=
  match parent n with Some p => negb (JS.truthy p) | None => true end.

(** [collectDescendants] of [deleteNode]; [None] when the recursion does
    not come back. *)
Fixpoint collectDescendants (fuel : nat) (fs : FileSystem) (nodeId : string)
  : option (list string) :=
  match fuel with
  | O => None
  | S f =>
      match getNodeById fs nodeId with
      | None => Some [nodeId]
      | Some n =>
          match type n, children n with
          | directory, Some cs =>
              option_map (cons nodeId)
                (fold_right
                   (fun c acc =>
                      match collectDescendants f fs c, acc with
                      | Some l, Some r => Some (l ++ r)
                      | _, _ => None
                      end) (Some []) cs)
          | _, _ => Some [nodeId]
          end
      end
  end.

(** Depth that the recursion over a table of this size cannot exceed
    unless it runs through a cycle. *)
Definition depthBound (fs : FileSystem) : nat := S (List.length (nodes fs)).

(** [deleteNode]; [None] is the call-stack overflow of
    [collectDescendants], raised before the store is written. *)
Definition deleteNode (p : string) (fs : FileSystem)
  : option (bool * FileSystem) :=
  match getNodeByPath fs p with
  | None => Some (false, fs)
  | Some node =>
      if readOnly node || noParent node then Some (false, fs)
      else
        match getNodeById fs (match parent node with
                              | Some i => i
                              | None => EmptyString
                              end) with
        | None => Some (false, fs)
        | Some par =>
            match collectDescendants (depthBound fs) fs (id node) with
            | None => None
            | Some toDelete =>
                let newNodes :=
                  fold_left (fun o i => JS.delete i o) toDelete (nodes fs) in
                let newNodes' :=
                  match children par with
                  | Some cs =>
                      JS.set (id par)
                        (with_children
                           (Some (filter
                                    (fun i => negb (String.eqb i (id node)))
                                    cs)) par) newNodes
                  | None => newNodes
                  end in
                Some (true, with_nodes newNodes' fs)
            end
        end
  end.

(** [updatePaths] of [renameNode]: rewrites the node, then its children,
    reading the store afresh at every node. *)
Fixpoint updatePaths (fuel : nat) (renamedId newName : string) (now : Z)
    (oldBasePath newBasePath : string) (nodeId : string) (fs : FileSystem)
  : option FileSystem :=
  match fuel with
  | O => None
  | S f =>
      match getNodeById fs nodeId with
      | None => Some fs
      | Some n =>
          let updatedPath := JS.replace (path n) oldBasePath newBasePath in
          let n' :=
            with_modified (DateObj now)
              (with_name
                 (if String.eqb nodeId renamedId then newName else name n)
                 (with_path updatedPath n)) in
          let fs1 := with_nodes (JS.set nodeId n' (nodes fs)) fs in
          match type n, children n with
          | directory, Some cs =>
              fold_left
                (fun acc childId =>
                   match acc with
                   | Some s =>
                       updatePaths f renamedId newName now oldBasePath
                         newBasePath childId s
                   | None => None
                   end) cs (Some fs1)
          | _, _ => Some fs1
          end
      end
  end.

(** [renameNode]; [None] is the call-stack overflow of [updatePaths]. *)
Definition renameNode (p newName : string) (now : Z) (fs : FileSystem)
  : option (bool * FileSystem) :=
  match getNodeByPath fs p with
  | None => Some (false, fs)
  | Some node =>
      if readOnly node then Some (false, fs)
      else
        let parentPath := getParentPath p in
        let newPath := childPath parentPath newName in
        match getNodeByPath fs newPath with
        | Some _ => Some (false, fs)
        | None =>
            option_map (pair true)
              (updatePaths (depthBound fs) (id node) newName now (path node)
                 newPath (id node) fs)
        end
  end.

Definition moveNode (sourcePath destPath : string) (now : Z)
    (fs : FileSystem) : bool * FileSystem :=
  match getNodeByPath fs sourcePath, getNodeByPath fs destPath with
  | Some node, Some destParent =>
      if negb (NodeType_eqb (type destParent) directory) || readOnly node
      then (false, fs)
      else
        match (if noParent node then None
               else getNodeById fs (match parent node with
                                    | Some i => i
                                    | None => EmptyString
                                    end)) with
        | None => (false, fs)
        | Some oldParent =>
            let newPath := childPath destPath (name node) in
            match getNodeByPath fs newPath with
            | Some _ => (false, fs)
            | None =>
                let node' :=
                  with_modified (DateObj now)
                    (with_parent (Some (id destParent))
                       (with_path newPath node)) in
                let oldParent' :=
                  with_children
                    (option_map
                       (filter (fun i => negb (String.eqb i (id node))))
                       (children oldParent)) oldParent in
                (true,
                 with_nodes
                   (JS.set (id destParent) (pushChild (id node) destParent)
                      (JS.set (id oldParent) oldParent'
                         (JS.set (id node) node' (nodes fs)))) fs)
            end
        end
  | _, _ => (false, fs)
  end.

Definition updateFileContent (p cont : string) (now : Z) (fs : FileSystem)
  : bool * FileSystem :=
  match getNodeByPath fs p with
  | Some node =>
      if negb (NodeType_eqb (type node) file) || readOnly node
      then (false, fs)
      else
        (true,
         with_nodes
           (JS.set (id node)
              (with_modified (DateObj now) (with_content cont node))
              (nodes fs)) fs)
  | None => (false, fs)
  end.

(** [readFile]: [node.content || ''] for a file, [null] otherwise. *)
Definition readFile (fs : FileSystem) (p : string) : option string :=
  match getNodeByPath fs p with
  | Some node =>
      match type node with
      | file => Some (match content node with Some c => c | None => "" end)
      | directory => None
      end
  | None => None
  end.

(** *** The seed tree ([createInitialFilesystem]) *)

(** [createNode] of [createInitialFilesystem]. *)
Definition createNode (uuid : string) (now : Z) (nm : string) (ty : NodeType)
    (parentPath : string) (parentId : option string)
    (cont : option string) (ro : option bool) : FileNode :=
  mkNode uuid nm ty (childPath parentPath nm) parentId
    (match ty with directory => "rwxr-xr-x" | file => "rw-r--r--" end)
    "user" "user"
    (match cont with
     | Some c => if JS.truthy c then String.length c else 0
     | None => 0
     end)
    (DateObj now) (DateObj now) cont
    (match ty with directory => Some [] | file => None end) ro.

(** [nodes[n.id] = n; parent.children!.push(n.id)]: the parent object is
    the one already stored in the table. *)
Definition attach (n : FileNode) (o : JS.obj FileNode) : JS.obj FileNode :=
  let o1 := JS.set (id n) n o in
  match parent n with
  | Some pid =>
      match JS.get pid o1 with
      | Some par => JS.set pid (pushChild (id n) par) o1
      | None => o1
      end
  | None => o1
  end.

Definition readmeText : string :=
"# WIZARD OS
  
Welcome to your controlled environment.

## Quick Start
- Use the terminal to navigate and execute commands
- Complete missions to unlock new skills
- Your work is saved automatically

## Directory Structure
- ~/workspace - Your working directory
- ~/projects - Saved projects
- ~/artifacts - Mission artifacts
- ~/notes - Your notes and evidence
- ~/downloads - Export staging

Type 'help' in terminal for available commands.
".

Definition bashrcText : string :=
"# ~/.bashrc
export PS1='\u@wizard:\w\$ '
export PATH=$PATH:/usr/local/bin
alias ll='ls -la'
alias cls='clear'
".

Section Seed.
(** [Date.prototype.toISOString], and the successive results of
    [uuidv4()]. *)
Variable toISOString : Z -> string.
Variable uuidv4 : nat -> string.
Variable now : Z.

Definition syslogText : string :=
  let t := toISOString now in
  "[" ++ t ++ "] WIZARD OS initialized
[" ++ t ++ "] Filesystem mounted
[" ++ t ++ "] User session started
[" ++ t ++ "] All systems nominal
".

Definition createInitialFilesystem : FileSystem :=
  let mk k := createNode (uuidv4 k) now in
  let rootN := with_path "/" (mk 0 "" directory "" None None None) in
  let system :=
    mk 1 "system" directory "/" (Some (id rootN)) None (Some true) in
  let home := mk 2 "home" directory "/" (Some (id rootN)) None None in
  let user := mk 3 "user" directory "/home" (Some (id home)) None None in
  let indir k nm (par : FileNode) :=
    mk k nm directory (path par) (Some (id par)) None None in
  let workspace := indir 4 "workspace" user in
  let projects := indir 5 "projects" user in
  let artifacts := indir 6 "artifacts" user in
  let notes := indir 7 "notes" user in
  let downloads := indir 8 "downloads" user in
  let missions := mk 9 "missions" directory "/" (Some (id rootN)) None None in
  let active := indir 10 "active" missions in
  let data := mk 11 "data" directory "/" (Some (id rootN)) None None in
  let logs := indir 12 "logs" data in
  let network := indir 13 "network" data in
  let processes := indir 14 "processes" data in
  let snapshots :=
    mk 15 "snapshots" directory "/" (Some (id rootN)) None None in
  let readme :=
    mk 16 "README.md" file "/home/user" (Some (id user)) (Some readmeText)
      None in
  let bashrc :=
    mk 17 ".bashrc" file "/home/user" (Some (id user)) (Some bashrcText)
      None in
  let syslog :=
    mk 18 "system.log" file "/data/logs" (Some (id logs)) (Some syslogText)
      None in
  let table :=
    fold_left (fun o n => attach n o)
      [rootN; system; home; user; workspace; projects; artifacts; notes;
       downloads; missions; active; data; logs; network; processes;
       snapshots; readme; bashrc; syslog] [] in
  mkFs table (id rootN) (id user).
End Seed.

(** *** Invariant 4 of the data model, as a check on a tree *)

(** The cached path of [n] is its parent's path joined with its name, the
    way the store itself joins them ([childPath]); a node without parent
    has path ["/"]. *)
Definition pathConsistent (fs : FileSystem) (n : FileNode) : bool :=
  match parent n with
  | None => String.eqb (path n) "/"
  | Some pid =>
      match getNodeById fs pid with
      | Some par => String.eqb (path n) (childPath (path par) (name n))
      | None => false
      end
  end.

Definition pathInvariant (fs : FileSystem) : bool :=
  forallb (pathConsistent fs) (JS.values (nodes fs)).

(** *** Normal paths *)

(** A path segment: not empty, not [.] nor [..], without slash. *)
Definition isSegment (s : string) : bool :=
  JS.truthy s && negb (String.eqb s ".") && negb (String.eqb s "..")
  && negb (JS.hasChar "/" s).

(** A normalized absolute path: [/], or a slash followed by segments that
    single slashes separate (so no trailing slash). *)
Definition isNormalPath (p : string) : bool :=
  match p with
  | String c rest =>
      Ascii.eqb c "/"
      && (negb (JS.truthy rest) || forallb isSegment (JS.split "/" rest))
  | EmptyString => false
  end.

(** *** The walk of [renameNode] *)

(** The path [p] with [newBase] in place of its prefix [oldBase]. *)
Definition rebase (oldBase newBase p : string) : string :=
  newBase ++ JS.slice_from (String.length oldBase) p.

(** What [updatePaths] writes in place of the node [n] stored under [k]. *)
Definition renamed (renamedId newName : string) (now : Z)
    (oldBase newBase : string) (k : string) (n : FileNode) : FileNode :=
  with_modified (DateObj now)
    (with_name (if String.eqb k renamedId then newName else name n)
       (with_path (JS.replace (path n) oldBase newBase) n)).

(** The two loops over the children, of [collectDescendants] and of
    [updatePaths], by name. *)
Definition collectChildren (fs0 : FileSystem) (f : nat) (cs : list string)
  : option (list string) :=
  fold_right
    (fun c acc =>
       match collectDescendants f fs0 c, acc with
       | Some l, Some r => Some (l ++ r)
       | _, _ => None
       end) (Some []) cs.

Definition walkChildren (renamedId newName : string) (now : Z)
    (oldBase newBase : string) (f : nat) (cs : list string)
    (s : option FileSystem) : option FileSystem :=
  fold_left
    (fun acc childId =>
       match acc with
       | Some s =>
           updatePaths f renamedId newName now oldBase newBase childId s
       | None => None
       end) cs s.

(** [fs'] is [fs] after a walk over the ids [ds] of the tree [fs0]: the
    nodes under these ids are rewritten, every other entry is as in [fs]. *)
Definition walked (renamedId newName : string) (now : Z)
    (oldBase newBase : string) (fs0 : FileSystem) (ds : list string)
    (fs fs' : FileSystem) : Prop :=
  (forall k, In k ds ->
     getNodeById fs' k
     = option_map (renamed renamedId newName now oldBase newBase k)
         (getNodeById fs0 k)) /\
  (forall k, ~ In k ds -> getNodeById fs' k = getNodeById fs k) /\
  root fs' = root fs /\ currentDirectory fs' = currentDirectory fs.

(** The walk has not yet reached the ids [ds]. *)
Definition untouched (fs0 : FileSystem) (ds : list string)
    (fs : FileSystem) : Prop :=
  forall k, In k ds -> getNodeById fs k = getNodeById fs0 k.

(** No id twice in a list. *)
Fixpoint nodup (l : list string) : bool :=
  match l with
  | [] => true
  | x :: r => negb (existsb (String.eqb x) r) && nodup r
  end.

(** *** Snapshots ([exportFilesystem], [importFilesystem]) *)

(** The values [JSON.parse] builds.  Numbers are the integers: the tree
    holds no other number ([size] is a string length). *)
Inductive Json :=
| JNull
| JBool (b : bool)
| JNum (z : Z)
| JStr (s : string)
| JArr (l : list Json)
| JObj (l : list (string * Json)).

Section Snapshot.
(** The platform: [JSON.stringify] on JSON data, [JSON.parse] ([None]
    when it throws [SyntaxError]) and [Date.prototype.toISOString]. *)
Variable JSON_stringify : Json -> string.
Variable JSON_parse : string -> option Json.
Variable toISOString : Z -> string.

(** What [JSON.stringify] sees of a [Date] field. *)
Definition dateJSON (d : Date) : Json :=
  match d with
  | DateObj ms => JStr (toISOString ms)
  | DateStr iso => JStr iso
  end.

Definition optField (k : string) (v : option Json)
  : list (string * Json) :=
  match v with Some j => [(k, j)] | None => [] end.

(** What [JSON.stringify] sees of a node: properties in the order the
    store writes them, the [undefined] ones left out. *)
Definition nodeJSON (n : FileNode) : Json :=
  JObj
    ([("id", JStr (id n));
      ("name", JStr (name n));
      ("type", JStr (match type n with
                       | file => "file"
                       | directory => "directory"
                       end));
      ("path", JStr (path n));
      ("parent", match parent n with Some p => JStr p | None => JNull end);
      ("permissions", JStr (permissions n));
      ("owner", JStr (owner n));
      ("group", JStr (group n));
      ("size", JNum (Z.of_nat (size n)));
      ("created", dateJSON (created n));
      ("modified", dateJSON (modified n))]
       ++ optField "content" (option_map JStr (content n))
       ++ optField "children"
            (option_map (fun cs => JArr (map JStr cs)) (children n))
       ++ optField "isReadOnly" (option_map JBool (isReadOnly n))).

Definition treeJSON (fs : FileSystem) : Json :=
  JObj
    [("nodes", JObj (map (fun kv => (fst kv, nodeJSON (snd kv))) (nodes fs)));
     ("root", JStr (root fs));
     ("currentDirectory", JStr (currentDirectory fs))].

(** Reading a parsed value back as a tree: the properties the store
    reads, with the types [FileNode] and [FileSystem] give them. *)
Definition asStr (j : option Json) : option string :=
  match j with Some (JStr s) => Some s | _ => None end.

Definition asStrList (l : list Json) : option (list string) :=
  fold_right
    (fun j acc =>
       match j, acc with
       | JStr s, Some r => Some (s :: r)
       | _, _ => None
       end) (Some []) l.

Definition nodeOfJSON (j : Json) : option FileNode :=
  match j with
  | JObj o =>
      match asStr (JS.get "id" o), asStr (JS.get "name" o),
            asStr (JS.get "type" o), asStr (JS.get "path" o),
            JS.get "parent" o,
            asStr (JS.get "permissions" o), asStr (JS.get "owner" o),
            asStr (JS.get "group" o), JS.get "size" o,
            asStr (JS.get "created" o), asStr (JS.get "modified" o)
      with
      | Some i, Some nm, Some ty, Some p, Some par, Some pm, Some ow,
        Some gr, Some (JNum sz), Some cr, Some mo =>
          match (if String.eqb ty "file" then Some file
                 else if String.eqb ty "directory" then Some directory
                 else None),
                (match par with
                 | JNull => Some None
                 | JStr q => Some (Some q)
                 | _ => None
                 end),
                (match JS.get "content" o with
                 | None => Some None
                 | Some (JStr c) => Some (Some c)
                 | Some _ => None
                 end),
                (match JS.get "children" o with
                 | None => Some None
                 | Some (JArr l) => option_map Some (asStrList l)
                 | Some _ => None
                 end),
                (match JS.get "isReadOnly" o with
                 | None => Some None
                 | Some (JBool b) => Some (Some b)
                 | Some _ => None
                 end)
          with
          | Some ty', Some par', Some c', Some ch', Some ro' =>
              if (0 <=? sz)%Z then
                Some (mkNode i nm ty' p par' pm ow gr (Z.to_nat sz)
                        (DateStr cr) (DateStr mo) c' ch' ro')
              else None
          | _, _, _, _, _ => None
          end
      | _, _, _, _, _, _, _, _, _, _, _ => None
      end
  | _ => None
  end.

Definition nodesOfJSON (o : list (string * Json))
  : option (JS.obj FileNode) :=
  fold_right
    (fun kv acc =>
       match nodeOfJSON (snd kv), acc with
       | Some n, Some r => Some ((fst kv, n) :: r)
       | _, _ => None
       end) (Some []) o.

Definition treeOfJSON (j : Json) : option FileSystem :=
  match j with
  | JObj o =>
      match JS.get "nodes" o, asStr (JS.get "root" o),
            asStr (JS.get "currentDirectory" o) with
      | Some (JObj ns), Some r, Some cd =>
          option_map (fun t => mkFs t r cd) (nodesOfJSON ns)
      | _, _, _ => None
      end
  | _ => None
  end.

(** The tree after a trip through JSON text: every [Date] object has
    become its ISO string. *)
Definition isoDate (d : Date) : Date :=
  match d with
  | DateObj ms => DateStr (toISOString ms)
  | DateStr iso => DateStr iso
  end.

Definition isoNode (n : FileNode) : FileNode :=
  mkNode (id n) (name n) (type n) (path n) (parent n) (permissions n)
    (owner n) (group n) (size n) (isoDate (created n))
    (isoDate (modified n)) (content n) (children n) (isReadOnly n).

Definition isoTree (fs : FileSystem) : FileSystem :=
  mkFs (map (fun kv => (fst kv, isoNode (snd kv))) (nodes fs)) (root fs)
    (currentDirectory fs).

(** The [filesystem] field of the store: a tree, or a parsed value that
    is not one.  A parsed value that reads back as a tree is identified
    with that tree: the actions read no other property of it. *)
Inductive FsValue :=
| FsTree (fs : FileSystem)
| FsOther (j : Json).

Definition ofJSON (j : Json) : FsValue :=
  match treeOfJSON j with Some fs => FsTree fs | None => FsOther j end.

Definition valueJSON (v : FsValue) : Json :=
  match v with FsTree fs => treeJSON fs | FsOther j => j end.

Definition exportFilesystem (v : FsValue) : string :=
  JSON_stringify (valueJSON v).

(** [try { set({ filesystem: JSON.parse(data) }); return true }
     catch { return false }]. *)
Definition importFilesystem (data : string) (v : FsValue)
  : bool * FsValue :=
  match JSON_parse data with
  | Some j => (true, ofJSON j)
  | None => (false, v)
  end.

(** *** The actions of the store, uniformly *)

Inductive Action :=
| SetCurrentDirectory (p : string)
| CreateFile (nm parentPath cont uuid : string) (now : Z)
| CreateDirectory (nm parentPath uuid : string) (now : Z)
| DeleteNode (p : string)
| RenameNode (p newName : string) (now : Z)
| MoveNode (sourcePath destPath : string) (now : Z)
| UpdateFileContent (p cont : string) (now : Z)
| ReadFile (p : string)
| ImportFilesystem (data : string).

(** What an action returns: [true]/[false], a node or [null], a text or
    [null]. *)
Inductive Returned :=
| RBool (b : bool)
| RNode (n : option FileNode)
| RText (t : option string).

Definition reportsFailure (r : Returned) : bool :=
  match r with
  | RBool b => negb b
  | RNode None | RText None => true
  | RNode (Some _) | RText (Some _) => false
  end.

Definition onTree {A : Type} (f : A -> Returned)
    (r : A * FileSystem) : option (Returned * FsValue) :=
  Some (f (fst r), FsTree (snd r)).

(** [None]: the action does not return (call-stack overflow), or the
    stored value is not a tree, where the embedding does not follow the
    tree actions. *)
Definition run (a : Action) (v : FsValue) : option (Returned * FsValue) :=
  match a, v with
  | ImportFilesystem data, _ =>
      let r := importFilesystem data v in Some (RBool (fst r), snd r)
  | _, FsOther _ => None
  | SetCurrentDirectory p, FsTree fs =>
      onTree RBool (setCurrentDirectory p fs)
  | CreateFile nm pp c u now, FsTree fs =>
      onTree RNode (createFile nm pp c u now fs)
  | CreateDirectory nm pp u now, FsTree fs =>
      onTree RNode (createDirectory nm pp u now fs)
  | DeleteNode p, FsTree fs =>
      match deleteNode p fs with Some r => onTree RBool r | None => None end
  | RenameNode p nn now, FsTree fs =>
      match renameNode p nn now fs with
      | Some r => onTree RBool r
      | None => None
      end
  | MoveNode sp dp now, FsTree fs => onTree RBool (moveNode sp dp now fs)
  | UpdateFileContent p c now, FsTree fs =>
      onTree RBool (updateFileContent p c now fs)
  | ReadFile p, FsTree fs => Some (RText (readFile fs p), FsTree fs)
  end.
End Snapshot.

End Filesystem.

(** ** The system store, as far as the shell reaches into it
       ([systemStore.ts]: [updateIntegrity], [updateStats], [user],
       [systemState.boot_time]) *)

Module System.

Inductive MachineState := running | paused | bricked | recovering.

Record UserProfile := mkUser {
  username : string;
  total_commands : nat
}.

(** [integrityReports] is the record of the calls of [updateIntegrity],
    oldest first: the deltas the shell reported.  The notification the
    store posts when it bricks the machine is left out. *)
Record SystemStore := mkSys {
  machine_state : MachineState;
  integrity : Z;
  boot_time : Z;
  user : option UserProfile;
  integrityReports : list Z
}.

Definition updateIntegrity (delta : Z) (s : SystemStore) : SystemStore :=
  let i := Z.max 0 (Z.min 100 (integrity s + delta)) in
  let reports := integrityReports s ++ [delta] in
  if (i <=? 0)%Z
  then mkSys bricked 0 (boot_time s) (user s) reports
  else mkSys (machine_state s) i (boot_time s) (user s) reports.

(** [updateStats({ total_commands: (user?.stats.total_commands || 0) + 1 })]. *)
Definition countCommand (s : SystemStore) : SystemStore :=
  match user s with
  | Some u =>
      mkSys (machine_state s) (integrity s) (boot_time s)
        (Some (mkUser (username u) (S (total_commands u))))
        (integrityReports s)
  | None => s
  end.

End System.

(** ** The shell interpreter ([terminalStore.ts]) *)

Module Terminal.

Import Filesystem.
Local Open Scope string_scope.

Record TerminalCommand := mkCommand {
  cmd_id : string;
  input : string;
  output : string;
  exitCode : Z;
  timestamp : Z;
  cmd_workingDirectory : string
}.

Record TerminalState := mkTerm {
  history : list TerminalCommand;
  commandHistory : list string;
  historyIndex : Z;
  currentInput : string;
  workingDirectory : string;
  environment : JS.obj string;
  aliases : JS.obj string
}.

(** The three stores a command runs against, and the number of results
    [uuidv4()] has handed out. *)
Record World := mkWorld {
  wfs : FileSystem;
  wsys : System.SystemStore;
  wterm : TerminalState;
  uuidCount : nat
}.

Definition with_fs (fs : FileSystem) (w : World) : World :=
  mkWorld fs (wsys w) (wterm w) (uuidCount w).

Definition with_sys (s : System.SystemStore) (w : World) : World :=
  mkWorld (wfs w) s (wterm w) (uuidCount w).

Definition with_term (t : TerminalState) (w : World) : World :=
  mkWorld (wfs w) (wsys w) t (uuidCount w).

Definition tick (w : World) : World :=
  mkWorld (wfs w) (wsys w) (wterm w) (S (uuidCount w)).

(** What a handler returns. *)
Record Result := mkResult {
  r_output : string;
  r_exitCode : Z
}.

(** The keys of the [commands] table. *)
Inductive Builtin :=
| Help | Pwd | Cd | Ls | Cat | Touch | Mkdir | Rm | Echo | Whoami
| Hostname | Uname | DateCmd | Uptime | Clear | History | Exit | Head
| Tail | Wc | Grep | Man | RmRfRoot.

Definition commands : JS.obj Builtin :=
  [("help", Help); ("pwd", Pwd); ("cd", Cd); ("ls", Ls); ("cat", Cat);
   ("touch", Touch); ("mkdir", Mkdir); ("rm", Rm); ("echo", Echo);
   ("whoami", Whoami); ("hostname", Hostname); ("uname", Uname);
   ("date", DateCmd); ("uptime", Uptime); ("clear", Clear);
   ("history", History); ("exit", Exit); ("head", Head); ("tail", Tail);
   ("wc", Wc); ("grep", Grep); ("man", Man); ("rm -rf /", RmRfRoot)].

Definition helpText : string :=
"WIZARD OS - Available Commands

Navigation:
  cd <dir>       Change directory
  pwd            Print working directory
  ls [dir]       List directory contents

File Operations:
  cat <file>     Display file contents
  touch <file>   Create empty file
  mkdir <dir>    Create directory
  rm <path>      Remove file/directory
  cp <src> <dst> Copy file
  mv <src> <dst> Move file
  echo <text>    Print text

System:
  whoami         Display current user
  hostname       Display hostname
  uname          System information
  date           Current date/time
  uptime         System uptime
  clear          Clear screen
  history        Command history
  exit           Exit terminal

Utilities:
  grep <pat> <f> Search in file
  head <file>    First 10 lines
  tail <file>    Last 10 lines
  wc <file>      Count lines/words

Type 'man <cmd>' for detailed help.".

(** [args.includes(x)]. *)
Definition includes (x : string) (args : list string) : bool :=
  existsb (String.eqb x) args.

(** [args.filter(a => !a.startsWith('-'))]. *)
Definition operands (args : list string) : list string :=
  filter (fun a => negb (JS.startsWith a "-")) args.

(** [args[0]], [undefined] and the empty string alike absent: every use in
    the source is a truthiness test or an [|| default]. *)
Definition arg0 (args : list string) : option string :=
  match args with
  | a :: _ => if JS.truthy a then Some a else None
  | [] => None
  end.

Definition isQuote (c : ascii) : bool :=
  Ascii.eqb c JS.dquote || Ascii.eqb c "'".

(** The filter of [grep]: [regex.test(line)] on a regular expression
    with the [g] flag reads and writes the [lastIndex] of the regular
    expression.  [re line i] is the search of [line] from index [i]: the
    index where the match found ends, or [None]. *)
Fixpoint grepFilter (re : string -> nat -> option nat) (lastIndex : nat)
    (lines : list string) : list string :=
  match lines with
  | [] => []
  | l :: rest =>
      match re l lastIndex with
      | Some e => l :: grepFilter re e rest
      | None => grepFilter re 0 rest
      end
  end.

Section Handlers.
(** The platform: the results of [uuidv4()], the clock, the rendering
    of dates, and [new RegExp(pattern, 'gi')] ([None] when it throws). *)
Variable uuidv4 : nat -> string.
Variable now : Z.
Variable dateToString : Z -> string.
Variable toLocaleDateString : Date -> string.
Variable RegExp_gi : string -> option (string -> nat -> option nat).

Definition ok (out : string) : Result := mkResult out 0.
Definition fail (out : string) : Result := mkResult out 1.

Definition pwd (w : World) : Result := ok (cwdPath (wfs w)).

Definition cd (args : list string) (w : World) : Result * World :=
  let target := match arg0 args with Some a => a | None => "~" end in
  let r := setCurrentDirectory target (wfs w) in
  (if fst r then ok "" else fail ("cd: " ++ target ++ ": No such directory"),
   with_fs (snd r) w).

Definition lsLine (item : FileNode) : string :=
  let typeChar := match type item with directory => "d" | file => "-" end in
  let sz := JS.padStart 8 " " (JS.ofNat (size item)) in
  typeChar ++ permissions item ++ " " ++ owner item ++ " " ++ group item
    ++ " " ++ sz ++ " " ++ toLocaleDateString (modified item) ++ " "
    ++ name item.

Definition ls (args : list string) (w : World) : Result :=
  let showAll :=
    includes "-a" args || includes "-la" args || includes "-al" args in
  let longFormat :=
    includes "-l" args || includes "-la" args || includes "-al" args in
  let targetPath := arg0 (operands args) in
  let shown :=
    match operands args with
    | a :: _ => a
    | [] => "undefined"
    end in
  let targetNode :=
    match targetPath with
    | Some p => getNodeByPath (wfs w) p
    | None => getCurrentDirectory (wfs w)
    end in
  match targetNode with
  | None =>
      fail ("ls: cannot access '" ++ shown
              ++ "': No such file or directory")
  | Some n =>
      match type n with
      | file => ok (name n)
      | directory =>
          let kids := getChildren (wfs w) (id n) in
          let items :=
            if showAll then kids
            else filter (fun c => negb (JS.startsWith (name c) ".")) kids in
          if longFormat
          then ok (JS.join (String JS.LF "") (map lsLine items))
          else ok (JS.join "  "
                     (map (fun item =>
                             match type item with
                             | directory => name item ++ "/"
                             | file => name item
                             end) items))
      end
  end.

Definition cat (args : list string) (w : World) : Result :=
  match arg0 args with
  | None => fail "cat: missing operand"
  | Some a =>
      match readFile (wfs w) a with
      | None => fail ("cat: " ++ a ++ ": No such file")
      | Some c => ok c
      end
  end.

(** [path.split('/').pop() || '']. *)
Definition baseName (p : string) : string :=
  match JS.last_elt (JS.split "/" p) with Some x => x | None => "" end.

Definition touch (args : list string) (w : World) : Result * World :=
  match arg0 args with
  | None => (fail "touch: missing operand", w)
  | Some a =>
      let p := resolvePath (wfs w) a in
      match getNodeByPath (wfs w) p with
      | Some _ => (ok "", w)
      | None =>
          let r :=
            createFile (baseName p) (getParentPath p) ""
              (uuidv4 (uuidCount w)) now (wfs w) in
          match fst r with
          | Some _ => (ok "", tick (with_fs (snd r) w))
          | None => (fail ("touch: cannot create '" ++ a ++ "'"), w)
          end
      end
  end.

Fixpoint mkdirLoop (createParents : bool) (targets : list string)
    (w : World) : Result * World :=
  match targets with
  | [] => (ok "", w)
  | target :: rest =>
      let p := resolvePath (wfs w) target in
      let r :=
        createDirectory (baseName p) (getParentPath p)
          (uuidv4 (uuidCount w)) now (wfs w) in
      match fst r with
      | Some _ => mkdirLoop createParents rest (tick (with_fs (snd r) w))
      | None =>
          if createParents then mkdirLoop createParents rest w
          else (fail ("mkdir: cannot create directory '" ++ target ++ "'"),
                w)
      end
  end.

Definition mkdir (args : list string) (w : World) : Result * World :=
  match arg0 args with
  | None => (fail "mkdir: missing operand", w)
  | Some _ => mkdirLoop (includes "-p" args) (operands args) w
  end.

(** The loop of [rm]; [None] when [deleteNode] does not return. *)
Fixpoint rmLoop (recursive : bool) (targets : list string) (w : World)
  : option (Result * World) :=
  match targets with
  | [] => Some (ok "", w)
  | target :: rest =>
      match getNodeByPath (wfs w) target with
      | None =>
          Some (fail ("rm: cannot remove '" ++ target
                        ++ "': No such file or directory"), w)
      | Some node =>
          if NodeType_eqb (type node) directory && negb recursive
          then Some (fail ("rm: cannot remove '" ++ target
                             ++ "': Is a directory"), w)
          else
            let w1 :=
              if JS.startsWith (path node) "/system"
                 || String.eqb (path node) "/home/user"
              then with_sys (System.updateIntegrity (-25) (wsys w)) w
              else w in
            match deleteNode target (wfs w1) with
            | None => None
            | Some r => rmLoop recursive rest (with_fs (snd r) w1)
            end
      end
  end.

Definition rm (args : list string) (w : World) : option (Result * World) :=
  match arg0 args with
  | None => Some (fail "rm: missing operand", w)
  | Some _ =>
      rmLoop (includes "-r" args || includes "-rf" args) (operands args) w
  end.

Definition echo (args : list string) : Result :=
  ok (JS.stripQuotes isQuote (JS.join " " args)).

Definition whoami (w : World) : Result :=
  ok (match System.user (wsys w) with
      | Some u => JS.or_else (System.username u) "user"
      | None => "user"
      end).

Definition uname (args : list string) : Result :=
  if includes "-a" args
  then ok "WizardOS 1.0.0 wizard-vm x86_64 GNU/Linux"
  else ok "WizardOS".

Definition uptime (w : World) : Result :=
  let up := ((now - System.boot_time (wsys w)) / 1000)%Z in
  let hours := (up / 3600)%Z in
  let mins := (Z.rem up 3600 / 60)%Z in
  let secs := Z.rem up 60 in
  ok ("up " ++ JS.ofZ hours ++ ":" ++ JS.padStart 2 "0" (JS.ofZ mins)
        ++ ":" ++ JS.padStart 2 "0" (JS.ofZ secs)).

Fixpoint historyLines (i : nat) (l : list string) : list string :=
  match l with
  | [] => []
  | c :: r => ("  " ++ JS.ofNat (S i) ++ "  " ++ c) :: historyLines (S i) r
  end.

Definition historyCmd (w : World) : Result :=
  ok (JS.join (String JS.LF "")
        (historyLines 0 (commandHistory (wterm w)))).

(** [args.find(a => !a.startsWith('-'))], [undefined] and the empty
    string alike absent (the source tests [!file]). *)
Definition firstOperand (args : list string) : option string :=
  match find (fun a => negb (JS.startsWith a "-")) args with
  | Some f => if JS.truthy f then Some f else None
  | None => None
  end.

(** [parseInt(args.find(a => a.startsWith('-'))?.slice(1) || '10')]. *)
Definition lineCount (args : list string) : option Z :=
  JS.parseInt
    (match find (fun a => JS.startsWith a "-") args with
     | Some a => JS.or_else (JS.slice_from 1 a) "10"
     | None => "10"
     end).

Definition head (args : list string) (w : World) : Result :=
  match firstOperand args with
  | None => fail "head: missing operand"
  | Some f =>
      match readFile (wfs w) f with
      | None => fail ("head: " ++ f ++ ": No such file")
      | Some c =>
          let n := match lineCount args with Some z => z | None => 0%Z end in
          ok (JS.join (String JS.LF "")
                (JS.arraySliceTo n (JS.split JS.LF c)))
      end
  end.

Definition tail (args : list string) (w : World) : Result :=
  match firstOperand args with
  | None => fail "tail: missing operand"
  | Some f =>
      match readFile (wfs w) f with
      | None => fail ("tail: " ++ f ++ ": No such file")
      | Some c =>
          let n :=
            match lineCount args with Some z => (- z)%Z | None => 0%Z end in
          ok (JS.join (String JS.LF "")
                (JS.arraySliceFrom n (JS.split JS.LF c)))
      end
  end.

Definition wc (args : list string) (w : World) : Result :=
  match arg0 args with
  | None => fail "wc: missing operand"
  | Some f =>
      match readFile (wfs w) f with
      | None => fail ("wc: " ++ f ++ ": No such file")
      | Some c =>
          ok ("  " ++ JS.ofNat (List.length (JS.split JS.LF c)) ++ "   "
                ++ JS.ofNat (JS.countWords false c) ++ "  "
                ++ JS.ofNat (String.length c) ++ " " ++ f)
      end
  end.

Definition grep (args : list string) (w : World) : Result :=
  match args with
  | pattern :: f :: _ =>
      match readFile (wfs w) f with
      | None => fail ("grep: " ++ f ++ ": No such file")
      | Some c =>
          match RegExp_gi pattern with
          | Some regex =>
              let matches := grepFilter regex 0 (JS.split JS.LF c) in
              mkResult (JS.join (String JS.LF "") matches)
                (match matches with [] => 1 | _ :: _ => 0 end)
          | None =>
              mkResult ("grep: invalid pattern '" ++ pattern ++ "'") 2
          end
      end
  | _ => fail "grep: missing pattern or file"
  end.

Definition man (args : list string) : Result :=
  match arg0 args with
  | None => fail "What manual page do you want?"
  | Some c =>
      match JS.get c commands with
      | None => fail ("No manual entry for " ++ c)
      | Some _ =>
          ok (JS.toUpperCase c ++ "(1) - Type 'help' for command list")
      end
  end.

(** The entry ['rm -rf /'] of the table. *)
Definition rmRfRoot (w : World) : Result * World :=
  (ok "rm: destroying filesystem...",
   with_sys (System.updateIntegrity (-100) (wsys w)) w).

(** [commands[cmd](args, fs)]. *)
Definition runBuiltin (b : Builtin) (args : list string) (w : World)
  : option (Result * World) :=
  match b with
  | Help => Some (ok helpText, w)
  | Pwd => Some (pwd w, w)
  | Cd => Some (cd args w)
  | Ls => Some (ls args w, w)
  | Cat => Some (cat args w, w)
  | Touch => Some (touch args w)
  | Mkdir => Some (mkdir args w)
  | Rm => rm args w
  | Echo => Some (echo args, w)
  | Whoami => Some (whoami w, w)
  | Hostname => Some (ok "wizard-vm", w)
  | Uname => Some (uname args, w)
  | DateCmd => Some (ok (dateToString now), w)
  | Uptime => Some (uptime w, w)
  | Clear => Some (ok "__CLEAR__", w)
  | History => Some (historyCmd w, w)
  | Exit => Some (ok "__EXIT__", w)
  | Head => Some (head args w, w)
  | Tail => Some (tail args w, w)
  | Wc => Some (wc args w, w)
  | Grep => Some (grep args w, w)
  | Man => Some (man args, w)
  | RmRfRoot => Some (rmRfRoot w)
  end.

(** The alias expansion and the tokenizer of [executeCommand]. *)
Definition expandAlias (t : TerminalState) (input : string) : string :=
  let firstWord := JS.firstField input in
  match JS.get firstWord (aliases t) with
  | Some alias =>
      if JS.truthy alias then JS.replace input firstWord alias else input
  | None => input
  end.

Definition parseCommand (t : TerminalState) (rawInput : string)
  : string * list string :=
  let parts :=
    JS.matchTokens "" false (expandAlias t (JS.trim rawInput)) in
  match parts with
  | [] => ("", [])
  | p :: rest =>
      (JS.toLowerCase p,
       map (JS.stripQuotes (Ascii.eqb JS.dquote)) rest)
  end.

(** [executeCommand]; [None] when a handler does not return. *)
Definition executeCommand (rawInput : string) (w : World)
  : option (TerminalCommand * World) :=
  let '(cmd, args) := parseCommand (wterm w) rawInput in
  let dispatched :=
    if negb (JS.truthy cmd) then Some (ok "", w)
    else
      match JS.get cmd commands with
      | Some b => runBuiltin b args w
      | None => Some (mkResult (cmd ++ ": command not found") 127, w)
      end in
  match dispatched with
  | None => None
  | Some (res, w1) =>
      let cwd := cwdPath (wfs w1) in
      let command :=
        mkCommand (uuidv4 (uuidCount w1)) rawInput (r_output res)
          (r_exitCode res) now cwd in
      let w2 := tick w1 in
      let w3 :=
        if JS.truthy cmd then with_sys (System.countCommand (wsys w2)) w2
        else w2 in
      let t := wterm w3 in
      let t' :=
        mkTerm
          (if String.eqb (r_output res) "__CLEAR__" then []
           else (history t ++ [command])%list)
          (if JS.truthy cmd
           then (filter (fun c => negb (String.eqb c rawInput))
                   (commandHistory t) ++ [rawInput])%list
           else commandHistory t)
          (-1) "" cwd (environment t) (aliases t) in
      Some (command, with_term t' w3)
  end.
End Handlers.

(** A token holds white space only between quotes: if it holds a space,
    it holds a quote. *)
Definition quotedSpaces (tok : string) : Prop :=
  JS.hasChar " " tok = true -> JS.hasChar JS.dquote tok = true.

(** [navigateHistory]. *)
Inductive Direction := up | down.

Definition setCursor (i : Z) (inp : string) (t : TerminalState)
  : TerminalState :=
  mkTerm (history t) (commandHistory t) i inp (workingDirectory t)
    (environment t) (aliases t).

(** [commandHistory[i] || '']. *)
Definition historyAt (t : TerminalState) (i : Z) : string :=
  if (i <? 0)%Z then ""
  else nth (Z.to_nat i) (commandHistory t) "".

Definition navigateHistory (direction : Direction) (t : TerminalState)
  : string * TerminalState :=
  let len := Z.of_nat (List.length (commandHistory t)) in
  if (len =? 0)%Z then (currentInput t, t)
  else
    match direction with
    | up =>
        let newIndex :=
          if (historyIndex t =? -1)%Z then (len - 1)%Z
          else Z.max 0 (historyIndex t - 1) in
        let newInput := historyAt t newIndex in
        (newInput, setCursor newIndex newInput t)
    | down =>
        let newIndex :=
          if (historyIndex t =? -1)%Z then (-1)%Z
          else Z.min (len - 1) (historyIndex t + 1) in
        if (historyIndex t =? len - 1)%Z then ("", setCursor (-1) "" t)
        else
          let newInput := historyAt t newIndex in
          (newInput, setCursor newIndex newInput t)
    end.

Definition setCurrentInput (inp : string) (t : TerminalState)
  : TerminalState := setCursor (-1) inp t.

Definition initialTerminal : TerminalState :=
  mkTerm [] [] (-1) "" "/home/user"
    [("HOME", "/home/user"); ("USER", "user"); ("SHELL", "/bin/bash");
     ("PATH", "/usr/local/bin:/usr/bin:/bin"); ("PS1", "\u@wizard:\w\$ ")]
    [("ll", "ls -la"); ("la", "ls -a"); ("cls", "clear"); ("c", "clear")].

End Terminal.

(** ** A reference [JSON.stringify] and [JSON.parse]

    The two platform functions on the value type [Json], to run snapshots
    on: compact output the way [JSON.stringify] writes it, and a
    recursive-descent reader of the JSON grammar restricted to integer
    numbers and to [\u00XX] escapes. *)

Module JsonText.

Import Filesystem.
Local Open Scope string_scope.

Definition hexDigit (n : nat) : ascii :=
  if (n <? 10)%nat then ascii_of_nat (48 + n) else ascii_of_nat (87 + n).

(** The characters with a two-character escape, and its letter. *)
Definition shortEscape (c : ascii) : option ascii :=
  let n := nat_of_ascii c in
  if Ascii.eqb c JS.dquote then Some JS.dquote
  else if Ascii.eqb c "\" then Some "\"%char
  else if (n =? 8)%nat then Some "b"%char
  else if (n =? 9)%nat then Some "t"%char
  else if (n =? 10)%nat then Some "n"%char
  else if (n =? 12)%nat then Some "f"%char
  else if (n =? 13)%nat then Some "r"%char
  else None.

(** The text of one character inside a string literal. *)
Definition escapeChar (c : ascii) : string :=
  let n := nat_of_ascii c in
  match shortEscape c with
  | Some e => String "\" (String e "")
  | None =>
      if (n <? 32)%nat
      then "\u00"
           ++ String (hexDigit (n / 16)) (String (hexDigit (n mod 16)) "")
      else String c ""
  end.

Fixpoint escape (s : string) : string :=
  match s with
  | EmptyString => EmptyString
  | String c t => escapeChar c ++ escape t
  end.

Definition quote (s : string) : string :=
  String JS.dquote (escape s ++ String JS.dquote "").

Fixpoint stringify (j : Json) : string :=
  match j with
  | JNull => "null"
  | JBool true => "true"
  | JBool false => "false"
  | JNum z => JS.ofZ z
  | JStr s => quote s
  | JArr l => "[" ++ JS.join "," (map stringify l) ++ "]"
  | JObj l =>
      "{" ++ JS.join ","
               (map (fun kv => quote (fst kv) ++ ":" ++ stringify (snd kv)) l)
          ++ "}"
  end.

Definition isWs (c : ascii) : bool :=
  let n := nat_of_ascii c in
  ((n =? 32) || (n =? 9) || (n =? 10) || (n =? 13))%nat.

Fixpoint skipWs (s : string) : string :=
  match s with
  | String c t => if isWs c then skipWs t else s
  | EmptyString => s
  end.

(** [expect lit s]: the rest of [s] after the literal [lit]. *)
Fixpoint expect (lit s : string) : option string :=
  match lit, s with
  | EmptyString, _ => Some s
  | String a l, String b t => if Ascii.eqb a b then expect l t else None
  | String _ _, EmptyString => None
  end.

Definition hexVal (c : ascii) : option nat := JS.digitVal 16 c.

(** The character a two-character escape stands for. *)
Definition unescape (e : ascii) : option ascii :=
  if Ascii.eqb e JS.dquote then Some JS.dquote
  else if Ascii.eqb e "\" then Some "\"%char
  else if Ascii.eqb e "/" then Some "/"%char
  else if Ascii.eqb e "b" then Some (ascii_of_nat 8)
  else if Ascii.eqb e "f" then Some (ascii_of_nat 12)
  else if Ascii.eqb e "n" then Some (ascii_of_nat 10)
  else if Ascii.eqb e "r" then Some (ascii_of_nat 13)
  else if Ascii.eqb e "t" then Some (ascii_of_nat 9)
  else None.

(** The character of a [\uXXXX] escape, among 8-bit code units. *)
Definition hex4 (h1 h2 h3 h4 : ascii) : option ascii :=
  match hexVal h1, hexVal h2, hexVal h3, hexVal h4 with
  | Some 0, Some 0, Some a, Some b => Some (ascii_of_nat (16 * a + b))
  | _, _, _, _ => None
  end.

Definition consChar (c : ascii) (r : option (string * string))
  : option (string * string) :=
  match r with
  | Some (s, rest) => Some (String c s, rest)
  | None => None
  end.

(** The characters of a string literal after its opening quote, and the
    text after its closing quote. *)
Fixpoint readString (s : string) : option (string * string) :=
  match s with
  | EmptyString => None
  | String c t =>
      if Ascii.eqb c JS.dquote then Some (EmptyString, t)
      else if Ascii.eqb c "\" then
        match t with
        | EmptyString => None
        | String e u =>
            if Ascii.eqb e "u" then
              match u with
              | String h1 (String h2 (String h3 (String h4 v))) =>
                  match hex4 h1 h2 h3 h4 with
                  | Some x => consChar x (readString v)
                  | None => None
                  end
              | _ => None
              end
            else
              match unescape e with
              | Some x => consChar x (readString u)
              | None => None
              end
        end
      else if (nat_of_ascii c <? 32)%nat then None
      else consChar c (readString t)
  end.

Definition isDigit (c : ascii) : bool :=
  let n := nat_of_ascii c in ((48 <=? n) && (n <=? 57))%nat.

Fixpoint spanDigits (s : string) : string * string :=
  match s with
  | String c t =>
      if isDigit c then let '(d, r) := spanDigits t in (String c d, r)
      else (EmptyString, s)
  | EmptyString => (EmptyString, s)
  end.

(** May a number literal end before this text?  Not before a digit, nor
    before a fraction or an exponent, which the value type leaves out. *)
Definition endsNumber (rest : string) : bool :=
  match rest with
  | String c _ =>
      negb (isDigit c || Ascii.eqb c "." || Ascii.eqb c "e"
            || Ascii.eqb c "E")
  | EmptyString => true
  end.

(** An integer literal: an optional minus sign, then digits without
    leading zero. *)
Definition readNumber (s : string) : option (Z * string) :=
  let '(neg, body) :=
    match s with
    | String c t => if Ascii.eqb c "-" then (true, t) else (false, s)
    | EmptyString => (false, s)
    end in
  let '(digits, rest) := spanDigits body in
  match digits with
  | EmptyString => None
  | String d more =>
      if (Ascii.eqb d "0" && JS.truthy more) || negb (endsNumber rest)
      then None
      else
        option_map
          (fun u => (if neg then (- Z.of_uint u)%Z else Z.of_uint u, rest))
          (NilEmpty.uint_of_string digits)
  end.

Fixpoint readValue (fuel : nat) (s : string) : option (Json * string) :=
  match fuel with
  | O => None
  | S f =>
      match skipWs s with
      | EmptyString => None
      | String c t as s' =>
          if Ascii.eqb c "n"
          then option_map (pair JNull) (expect "null" s')
          else if Ascii.eqb c "t"
          then option_map (pair (JBool true)) (expect "true" s')
          else if Ascii.eqb c "f"
          then option_map (pair (JBool false)) (expect "false" s')
          else if Ascii.eqb c JS.dquote
          then option_map (fun r => (JStr (fst r), snd r)) (readString t)
          else if Ascii.eqb c "["
          then
            match skipWs t with
            | String d u =>
                if Ascii.eqb d "]" then Some (JArr [], u)
                else option_map (fun r => (JArr (fst r), snd r))
                       (readElements f t)
            | EmptyString => None
            end
          else if Ascii.eqb c "{"
          then
            match skipWs t with
            | String d u =>
                if Ascii.eqb d "}" then Some (JObj [], u)
                else option_map (fun r => (JObj (fst r), snd r))
                       (readMembers f t)
            | EmptyString => None
            end
          else option_map (fun r => (JNum (fst r), snd r)) (readNumber s')
      end
  end

with readElements (fuel : nat) (s : string)
  : option (list Json * string) :=
  match fuel with
  | O => None
  | S f =>
      match readValue f s with
      | Some (v, rest) =>
          match skipWs rest with
          | String c u =>
              if Ascii.eqb c ","
              then option_map (fun r => (v :: fst r, snd r))
                     (readElements f u)
              else if Ascii.eqb c "]" then Some ([v], u)
              else None
          | EmptyString => None
          end
      | None => None
      end
  end

with readMembers (fuel : nat) (s : string)
  : option (list (string * Json) * string) :=
  match fuel with
  | O => None
  | S f =>
      match skipWs s with
      | String q t =>
          if Ascii.eqb q JS.dquote then
            match readString t with
            | Some (k, rest) =>
                match skipWs rest with
                | String c u =>
                    if Ascii.eqb c ":" then
                      match readValue f u with
                      | Some (v, rest') =>
                          match skipWs rest' with
                          | String d w =>
                              if Ascii.eqb d ","
                              then option_map
                                     (fun r => ((k, v) :: fst r, snd r))
                                     (readMembers f w)
                              else if Ascii.eqb d "}"
                              then Some ([(k, v)], w)
                              else None
                          | EmptyString => None
                          end
                      | None => None
                      end
                    else None
                | EmptyString => None
                end
            | None => None
            end
          else None
      | EmptyString => None
      end
  end.

Definition parse (s : string) : option Json :=
  match readValue (2 * String.length s + 2) s with
  | Some (v, rest) =>
      match skipWs rest with
      | EmptyString => Some v
      | String _ _ => None
      end
  | None => None
  end.

(** The number of constructors of a value; the reader needs no more
    fuel than that. *)
Fixpoint size (j : Json) : nat :=
  match j with
  | JArr l => S (list_sum (map (fun v => S (size v)) l))
  | JObj l => S (list_sum (map (fun kv => S (size (snd kv))) l))
  | _ => 1
  end.

Definition sizes (l : list Json) : nat :=
  list_sum (map (fun v => S (size v)) l).

Definition memberSizes (l : list (string * Json)) : nat :=
  list_sum (map (fun kv => S (size (snd kv))) l).

(** The text of the elements of an array and of the members of an
    object. *)
Definition elementsText (l : list Json) : string :=
  JS.join "," (map stringify l).

Definition membersText (l : list (string * Json)) : string :=
  JS.join "," (map (fun kv => quote (fst kv) ++ ":" ++ stringify (snd kv)) l).

(** The text of one member of an object. *)
Definition memberText (kv : string * Json) : string :=
  quote (fst kv) ++ ":" ++ stringify (snd kv).

(** What the reader needs of the text of one character: the escape is
    read back as the character, and a raw character is neither quote nor
    backslash. *)
Definition escapeRead (c : ascii) : bool :=
  match shortEscape c with
  | Some e =>
      negb (Ascii.eqb e "u")
      && match unescape e with Some x => Ascii.eqb x c | None => false end
  | None =>
      if (nat_of_ascii c <? 32)%nat
      then match hex4 "0" "0" (hexDigit (nat_of_ascii c / 16))
                   (hexDigit (nat_of_ascii c mod 16)) with
           | Some x => Ascii.eqb x c
           | None => false
           end
      else negb (Ascii.eqb c JS.dquote) && negb (Ascii.eqb c "\")
  end.

Fixpoint allDigits (s : string) : bool :=
  match s with
  | EmptyString => true
  | String c t => isDigit c && allDigits t
  end.

(** The first character of a number, and of any value. *)
Definition numberHead (c : ascii) : bool := isDigit c || Ascii.eqb c "-".

Definition valueHead (c : ascii) : bool :=
  negb (isWs c) && negb (Ascii.eqb c "]") && negb (Ascii.eqb c "}").

(** What may follow a value in a JSON text. *)
Definition delimited (rest : string) : bool :=
  match rest with
  | String c _ => Ascii.eqb c "," || Ascii.eqb c "]" || Ascii.eqb c "}"
  | EmptyString => true
  end.

(** The reader, given fuel for the value, reads the text of [v] back
    from the front of a text. *)
Definition ReadsBack (v : Json) : Prop :=
  forall fuel rest, size v <= fuel -> delimited rest = true ->
    readValue fuel (stringify v ++ rest) = Some (v, rest).

End JsonText.

(** ** A concrete tree to run the stores on *)

Module Fixture.

Import Filesystem.

(** Stand-ins for the platform: distinct identifiers, a fixed rendering of
    dates. *)
Definition uuid (k : nat) : string := "uuid-" ++ JS.ofNat k.

Definition iso (_ : Z) : string := "2026-01-22T10:24:34.000Z".

(** The seed tree: ["uuid-0"] is the root, ["uuid-3"] is [/home/user],
    ["uuid-11"] is [/data], ["uuid-12"] is [/data/logs] and ["uuid-18"] is
    [/data/logs/system.log]. *)
Definition seed : FileSystem := createInitialFilesystem iso uuid 0.

(** The fields of a node that the properties below look at. *)
Definition view (fs : FileSystem) (i : string)
  : option (string * string * option string) :=
  option_map (fun n => (name n, path n, parent n)) (getNodeById fs i).

(** The fields the round-trip law of snapshots speaks of. *)
Definition core (n : FileNode)
  : string * string * option string * option string :=
  (id n, path n, parent n, content n).

(** A regular-expression engine for patterns made of letters and digits,
    which match as text, letter case apart; it rejects every other
    pattern.  [re line i] searches [line] from index [i]. *)
Definition isAlnum (c : ascii) : bool :=
  let n := nat_of_ascii c in
  (((48 <=? n) && (n <=? 57)) || ((65 <=? n) && (n <=? 90))
   || ((97 <=? n) && (n <=? 122)))%nat.

Fixpoint allChars (p : ascii -> bool) (s : string) : bool :=
  match s with
  | EmptyString => true
  | String c t => p c && allChars p t
  end.

Definition literalSearch (pattern line : string) (i : nat) : option nat :=
  if (String.length line <? i)%nat then None
  else
    match JS.indexOf (JS.toLowerCase pattern)
            (JS.toLowerCase (JS.slice_from i line)) with
    | Some k => Some (i + k + String.length pattern)
    | None => None
    end.

Definition literalRegExp (pattern : string)
  : option (string -> nat -> option nat) :=
  if JS.truthy pattern && allChars isAlnum pattern
  then Some (literalSearch pattern)
  else None.

(** The stores at start-up, with a user logged in. *)
Definition system0 : System.SystemStore :=
  System.mkSys System.running 100 0 (Some (System.mkUser "user" 0)) [].

Definition world0 : Terminal.World :=
  Terminal.mkWorld seed system0 Terminal.initialTerminal 19.

Definition dateText (_ : Z) : string := "Thu Jan 22 2026 10:24:34 GMT+0000".

Definition localeDate (_ : Date) : string := "Jan 22, 10:24 AM".

(** [executeCommand] and [grep] on these stand-ins. *)
Definition exec (rawInput : string) (w : Terminal.World)
  : option (Terminal.TerminalCommand * Terminal.World) :=
  Terminal.executeCommand uuid 1 dateText localeDate literalRegExp rawInput w.

(** The seed tree with a two-line file [/home/user/ab.txt]. *)
Definition twoLines : string := "ab" ++ String JS.LF "ab".

Definition seedWithFile : FileSystem :=
  snd (createFile "ab.txt" "/home/user" twoLines "uuid-19" 1 seed).

(** A session with two commands in its history, no cursor, and a draft. *)
Definition draftState : Terminal.TerminalState :=
  Terminal.mkTerm [] ["ls"; "pwd"] (-1) "cd /da" "/home/user" [] [].

End Fixture.

(** ** The node table as the store keeps it *)

Module Tree.

Import Filesystem.
Local Open Scope string_scope.

(** Every entry of the table sits under the id of its node (the store
    writes [[n.id]: n] only), and no key occurs twice (the table is a
    JavaScript object). *)
Definition keyedTable (o : JS.obj FileNode) : bool :=
  forallb (fun kv => String.eqb (fst kv) (id (snd kv))) o
  && nodup (JS.keys o).

Definition keyed (fs : FileSystem) : bool := keyedTable (nodes fs).

(** No node of the table has this id: what [uuidv4()] returns. *)
Definition freshId (fs : FileSystem) (u : string) : bool :=
  forallb (fun n => negb (String.eqb (id n) u)) (JS.values (nodes fs)).

(** The ids the walks of the store go down to from a node: the children
    of a directory that has a child list. *)
Definition childrenOf (n : FileNode) : list string :=
  match type n, children n with
  | directory, Some cs => cs
  | _, _ => []
  end.

(** Children point back: every id a node lists is the id of a node whose
    parent is the lister. *)
Definition linked (fs : FileSystem) : bool :=
  forallb
    (fun kv =>
       forallb
         (fun c =>
            match getNodeById fs c with
            | Some m =>
                match parent m with
                | Some p => String.eqb p (fst kv)
                | None => false
                end
            | None => false
            end) (childrenOf (snd kv))) (nodes fs).

(** Parents list their children: every node with a parent is listed by
    the node under that id. *)
Definition listed (fs : FileSystem) : bool :=
  forallb
    (fun kv =>
       match parent (snd kv) with
       | None => true
       | Some p =>
           match getNodeById fs p with
           | Some q => existsb (String.eqb (fst kv)) (childrenOf q)
           | None => false
           end
       end) (nodes fs).

(** The number of steps from a node up to a node without parent. *)
Inductive Depth (fs : FileSystem) : string -> nat -> Prop :=
| Depth_top (k : string) (n : FileNode) :
    getNodeById fs k = Some n -> parent n = None -> Depth fs k 0
| Depth_step (k : string) (n : FileNode) (p : string) (d : nat) :
    getNodeById fs k = Some n -> parent n = Some p -> Depth fs p d ->
    Depth fs k (S d).

Fixpoint depthOf (fuel : nat) (fs : FileSystem) (k : string) : option nat :=
  match getNodeById fs k with
  | None => None
  | Some n =>
      match parent n with
      | None => Some 0
      | Some p =>
          match fuel with
          | O => None
          | S f => option_map S (depthOf f fs p)
          end
      end
  end.

(** Every node hangs below a node without parent: no cycle of parents. *)
Definition rooted (fs : FileSystem) : bool :=
  forallb
    (fun kv =>
       match depthOf (List.length (nodes fs)) fs (fst kv) with
       | Some _ => true
       | None => false
       end) (nodes fs).

(** No directory lists an id twice. *)
Definition distinct (fs : FileSystem) : bool :=
  forallb (fun kv => nodup (childrenOf (snd kv))) (nodes fs).

(** [x] is [k] or hangs below it: parent ids lead from [x] to [k]. *)
Inductive Below (fs : FileSystem) (k : string) : string -> Prop :=
| Below_self : Below fs k k
| Below_up (x : string) (n : FileNode) (p : string) :
    getNodeById fs x = Some n -> parent n = Some p -> Below fs k p ->
    Below fs k x.

(** The checks as statements about lookups. *)
Definition Linked (fs : FileSystem) : Prop :=
  forall k n c,
    getNodeById fs k = Some n -> In c (childrenOf n) ->
    exists m, getNodeById fs c = Some m /\ parent m = Some k.

Definition Listed (fs : FileSystem) : Prop :=
  forall k n p,
    getNodeById fs k = Some n -> parent n = Some p ->
    exists q, getNodeById fs p = Some q /\ In k (childrenOf q).

Definition Rooted (fs : FileSystem) : Prop :=
  forall k n, getNodeById fs k = Some n -> exists d, Depth fs k d.

Definition Distinct (fs : FileSystem) : Prop :=
  forall k n, getNodeById fs k = Some n -> NoDup (childrenOf n).

(** The links of a node: its parent and the children the walks visit. *)
Definition links (n : FileNode) : option string * list string :=
  (parent n, childrenOf n).

(** Two tables with the same links under every id. *)
Definition sameLinks (fs fs' : FileSystem) : Prop :=
  forall k,
    option_map links (getNodeById fs' k)
    = option_map links (getNodeById fs k).

(** The shape of a tree: keyed by id, linked both ways, rooted, every
    child listed once. *)
Definition wellShaped (fs : FileSystem) : bool :=
  keyed fs && linked fs && listed fs && rooted fs && distinct fs.

(** [resetFilesystem]: the seed tree again, on the next results of
    [uuidv4()]. *)
Definition resetFilesystem (toISOString : Z -> string)
    (uuidv4 : nat -> string) (count : nat) (now : Z) : FileSystem :=
  createInitialFilesystem toISOString (fun k => uuidv4 (count + k)) now.

(** The number of calls of [uuidv4()] in [createInitialFilesystem]. *)
Definition seedSize : nat := 19.

End Tree.

(** ** The rest of the terminal store ([clearHistory], [clearScreen],
       [getPrompt]) *)

Module Session.

Import Filesystem Terminal.
Local Open Scope string_scope.

Definition clearHistory (t : TerminalState) : TerminalState :=
  mkTerm [] [] (historyIndex t) (currentInput t) (workingDirectory t)
    (environment t) (aliases t).

Definition clearScreen (t : TerminalState) : TerminalState :=
  mkTerm [] (commandHistory t) (historyIndex t) (currentInput t)
    (workingDirectory t) (environment t) (aliases t).

(** [getPrompt]: the user name, and the working directory with the first
    occurrence of [/home/user] written [~]. *)
Definition getPrompt (w : World) : string :=
  let user :=
    match System.user (wsys w) with
    | Some u => JS.or_else (System.username u) "user"
    | None => "user"
    end in
  let displayPath := JS.replace (cwdPath (wfs w)) "/home/user" "~" in
  user ++ "@wizard:" ++ displayPath ++ "$ ".

(** The arrow key pressed [k] times, as far as the store sees it: each
    press is one call of [navigateHistory]. *)
Fixpoint pressTimes (k : nat) (d : Direction) (t : TerminalState)
  : TerminalState :=
  match k with
  | O => t
  | S j => snd (navigateHistory d (pressTimes j d t))
  end.

(** The names [Object.prototype] answers to.  A look-up of one of them
    in an object literal finds the inherited property, which the
    embedding of [commands[cmd]] and [aliases[word]] does not follow:
    [ownLookups] tells that a run of [executeCommand] looks up other
    names only. *)
Definition prototypeKeys : list string :=
  ["constructor"; "__proto__"; "hasOwnProperty"; "isPrototypeOf";
   "propertyIsEnumerable"; "toLocaleString"; "toString"; "valueOf";
   "__defineGetter__"; "__defineSetter__"; "__lookupGetter__";
   "__lookupSetter__"].

Definition ownKey (k : string) : bool :=
  negb (existsb (String.eqb k) prototypeKeys).

Definition ownLookups (t : TerminalState) (raw : string) : bool :=
  ownKey (JS.firstField (JS.trim raw)) && ownKey (fst (parseCommand t raw)).








(** An exit code of the convention for handlers: 0 or 1. *)
Definition plainCode (r : Result) : Prop :=
  r_exitCode r = 0%Z \/ r_exitCode r = 1%Z.

(** The lines of a session, run one after the other the way the terminal
    window hands them to [executeCommand]; [None] when a command does not
    return. *)
Section Sessions.
Variable uuidv4 : nat -> string.
Variable now : Z.
Variable dateToString : Z -> string.
Variable toLocaleDateString : Date -> string.
Variable RegExp_gi : string -> option (string -> nat -> option nat).

Fixpoint runSession (inputs : list string) (w : World)
  : option (list TerminalCommand * World) :=
  match inputs with
  | [] => Some ([], w)
  | raw :: rest =>
      match executeCommand uuidv4 now dateToString toLocaleDateString
              RegExp_gi raw w with
      | Some (c, w1) =>
          match runSession rest w1 with
          | Some (cs, w2) => Some (c :: cs, w2)
          | None => None
          end
      | None => None
      end
  end.

(** A world whose tree is in shape, with consistent cached paths, and
    for which the ids [uuidv4()] has yet to return are new. *)
Definition sound (w : World) : Prop :=
  Tree.wellShaped (wfs w) = true /\ pathInvariant (wfs w) = true /\
  forall k, uuidCount w <= k -> Tree.freshId (wfs w) (uuidv4 k) = true.
End Sessions.

End Session.

(** ** The system store in full ([systemStore.ts]) *)

Module Machine.

Import Filesystem.
Local Open Scope string_scope.

(** ['login'] the phase is [login_screen]; [login] is the action. *)
Inductive BootPhase :=
| power_on | bios | kernel | services | login_screen | desktop.

Definition BootPhase_eqb (a b : BootPhase) : bool :=
  match a, b with
  | power_on, power_on | bios, bios | kernel, kernel
  | services, services | login_screen, login_screen
  | desktop, desktop => true
  | _, _ => false
  end.

Record BootState := mkBoot {
  phase : BootPhase;
  progress : Z;
  messages : list string;
  complete : bool
}.

Inductive UserRank :=
| initiate | apprentice | operator | specialist | expert | master
| architect.

Definition UserRank_eqb (a b : UserRank) : bool :=
  match a, b with
  | initiate, initiate | apprentice, apprentice | operator, operator
  | specialist, specialist | expert, expert | master, master
  | architect, architect => true
  | _, _ => false
  end.

Inductive NotificationType :=
| info | success | warning | error | mission.

Record Notification := mkNotification {
  n_id : string;
  n_type : NotificationType;
  title : string;
  message : string;
  n_timestamp : Z;
  read : bool
}.

Record Snapshot := mkSnapshot {
  s_id : string;
  s_name : string;
  s_created_at : Z;
  filesystem_state : string;
  description : option string
}.

Record SystemState := mkSystemState {
  machine_state : System.MachineState;
  integrity : Z;
  network_connected : bool;
  storage_used : Z;
  storage_total : Z;
  snapshots : list Snapshot;
  boot_time : Z
}.

Inductive MentorMode := strict | balanced | helpful.

Record Preferences := mkPreferences {
  wallpaper : string;
  mentor_mode : MentorMode;
  terminal_font_size : Z;
  show_hints : bool
}.

Record Stats := mkStats {
  missions_completed : Z;
  total_commands : Z;
  files_created : Z;
  artifacts_generated : Z;
  time_spent_seconds : Z
}.

(** [Partial<...>]: the properties an update holds, and the spread
    [{...old, ...updates}]. *)
Record PartialPreferences := mkPartialPreferences {
  p_wallpaper : option string;
  p_mentor_mode : option MentorMode;
  p_terminal_font_size : option Z;
  p_show_hints : option bool
}.

Record PartialStats := mkPartialStats {
  p_missions_completed : option Z;
  p_total_commands : option Z;
  p_files_created : option Z;
  p_artifacts_generated : option Z;
  p_time_spent_seconds : option Z
}.

Definition orOld {A : Type} (new : option A) (old : A) : A :=
  match new with Some v => v | None => old end.

Definition spreadPreferences (old : Preferences)
    (updates : PartialPreferences) : Preferences :=
  mkPreferences (orOld (p_wallpaper updates) (wallpaper old))
    (orOld (p_mentor_mode updates) (mentor_mode old))
    (orOld (p_terminal_font_size updates) (terminal_font_size old))
    (orOld (p_show_hints updates) (show_hints old)).

Definition spreadStats (old : Stats) (updates : PartialStats) : Stats :=
  mkStats (orOld (p_missions_completed updates) (missions_completed old))
    (orOld (p_total_commands updates) (total_commands old))
    (orOld (p_files_created updates) (files_created old))
    (orOld (p_artifacts_generated updates) (artifacts_generated old))
    (orOld (p_time_spent_seconds updates) (time_spent_seconds old)).

(** [level] is [None] when it is [NaN]. *)
Record UserProfile := mkUser {
  u_id : string;
  username : string;
  rank : UserRank;
  xp : Z;
  level : option Z;
  created_at : Z;
  last_active : Z;
  preferences : Preferences;
  stats : Stats;
  badges : list string;
  unlocked_wallpapers : list string
}.

(** The state of the store, and the number of results [uuidv4()] has
    handed out. *)
Record Store := mkStore {
  bootState : BootState;
  isBooted : bool;
  systemState : SystemState;
  user : option UserProfile;
  isAuthenticated : bool;
  notifications : list Notification;
  uuidCount : nat
}.

(** Functional updates. *)
Definition with_bootState (b : BootState) (s : Store) : Store :=
  mkStore b (isBooted s) (systemState s) (user s) (isAuthenticated s)
    (notifications s) (uuidCount s).

Definition with_isBooted (b : bool) (s : Store) : Store :=
  mkStore (bootState s) b (systemState s) (user s) (isAuthenticated s)
    (notifications s) (uuidCount s).

Definition with_systemState (y : SystemState) (s : Store) : Store :=
  mkStore (bootState s) (isBooted s) y (user s) (isAuthenticated s)
    (notifications s) (uuidCount s).

Definition with_user (u : option UserProfile) (s : Store) : Store :=
  mkStore (bootState s) (isBooted s) (systemState s) u (isAuthenticated s)
    (notifications s) (uuidCount s).

Definition with_isAuthenticated (b : bool) (s : Store) : Store :=
  mkStore (bootState s) (isBooted s) (systemState s) (user s) b
    (notifications s) (uuidCount s).

Definition with_notifications (l : list Notification) (s : Store) : Store :=
  mkStore (bootState s) (isBooted s) (systemState s) (user s)
    (isAuthenticated s) l (uuidCount s).

Definition tick (s : Store) : Store :=
  mkStore (bootState s) (isBooted s) (systemState s) (user s)
    (isAuthenticated s) (notifications s) (S (uuidCount s)).

Definition with_machine_state (m : System.MachineState) (y : SystemState)
  : SystemState :=
  mkSystemState m (integrity y) (network_connected y) (storage_used y)
    (storage_total y) (snapshots y) (boot_time y).

Definition with_integrity (i : Z) (y : SystemState) : SystemState :=
  mkSystemState (machine_state y) i (network_connected y) (storage_used y)
    (storage_total y) (snapshots y) (boot_time y).

Definition with_snapshots (l : list Snapshot) (y : SystemState)
  : SystemState :=
  mkSystemState (machine_state y) (integrity y) (network_connected y)
    (storage_used y) (storage_total y) l (boot_time y).

Definition with_boot_time (t : Z) (y : SystemState) : SystemState :=
  mkSystemState (machine_state y) (integrity y) (network_connected y)
    (storage_used y) (storage_total y) (snapshots y) t.

Definition BOOT_MESSAGES (p : BootPhase) : list string :=
  match p with
  | power_on => ["Power on self test..."; "Hardware initialization..."]
  | bios => ["BIOS check complete"; "Loading bootloader..."]
  | kernel =>
      ["Loading kernel modules..."; "Mounting filesystems...";
       "Initializing network stack..."]
  | services =>
      ["Starting system services..."; "Initializing security framework...";
       "Loading user environment..."]
  | login_screen => []
  | desktop => []
  end.

Definition calculateRank (xp : Z) : UserRank :=
  if (50000 <=? xp)%Z then architect
  else if (25000 <=? xp)%Z then master
  else if (10000 <=? xp)%Z then expert
  else if (5000 <=? xp)%Z then specialist
  else if (2000 <=? xp)%Z then operator
  else if (500 <=? xp)%Z then apprentice
  else initiate.

(** [Math.floor(Math.sqrt(xp / 100)) + 1] on an integer [xp]: [NaN] below
    zero, and the integer square root of the quotient otherwise (the
    floating-point result is that integer for every amount below
    [10^14]). *)
Definition calculateLevel (xp : Z) : option Z :=
  if (xp <? 0)%Z then None else Some (Z.sqrt (xp / 100) + 1)%Z.

(** [a !== b] on numbers: [NaN] differs from every number, itself
    included. *)
Definition numberDiffers (a b : option Z) : bool :=
  match a, b with
  | Some x, Some y => negb (x =? y)%Z
  | _, _ => true
  end.

Definition initialPreferences : Preferences :=
  mkPreferences "grid" balanced 14 true.

Definition initialStats : Stats := mkStats 0 0 0 0 0.

Definition createInitialUser (uuid : string) (now : Z) (nm : string)
  : UserProfile :=
  mkUser uuid nm initiate 0 (Some 1%Z) now now initialPreferences
    initialStats [] ["grid"; "noise"; "matrix"].

Definition initialBootState : BootState := mkBoot power_on 0 [] false.

Definition initialSystemState (now : Z) : SystemState :=
  mkSystemState System.running 100 true 0 1073741824 [] now.

(** The store as [create] builds it. *)
Definition initialStore (now : Z) : Store :=
  mkStore initialBootState false (initialSystemState now) None false [] 0.

Definition startBoot (s : Store) : Store :=
  with_isBooted false (with_bootState initialBootState s).

Definition phases : list BootPhase :=
  [power_on; bios; kernel; services; login_screen; desktop].

(** [phases.indexOf(p)]. *)
Definition phaseIndex (p : BootPhase) : nat :=
  match p with
  | power_on => 0 | bios => 1 | kernel => 2 | services => 3
  | login_screen => 4 | desktop => 5
  end.

(** [progress] is [((currentIndex + 1) / 5) * 100], which floating-point
    arithmetic computes without error for the five indices: 20, 40, 60,
    80 and 100. *)
Definition advanceBootPhase (s : Store) : Store :=
  let b := bootState s in
  let currentIndex := phaseIndex (phase b) in
  if (currentIndex <? List.length phases - 1)%nat then
    let nextPhase := nth (currentIndex + 1) phases desktop in
    with_bootState
      (mkBoot nextPhase
         (Z.of_nat (currentIndex + 1) * 100
          / Z.of_nat (List.length phases - 1))%Z
         (messages b ++ BOOT_MESSAGES (phase b))%list
         (BootPhase_eqb nextPhase desktop)) s
  else s.

Section Actions.
(** The platform: the successive results of [uuidv4()], the clock, and
    for the snapshots [JSON.stringify], [JSON.parse] and
    [Date.prototype.toISOString]. *)
Variable uuidv4 : nat -> string.
Variable now : Z.
Variable JSON_stringify : Json -> string.
Variable JSON_parse : string -> option Json.
Variable toISOString : Z -> string.

Definition completeBoot (s : Store) : Store :=
  with_systemState (with_boot_time now (systemState s))
    (with_isBooted true
       (with_bootState (mkBoot desktop 100 (messages (bootState s)) true)
          s)).

(** [existingUser?.username === username]. *)
Definition login (nm : string) (s : Store) : Store :=
  match user s with
  | Some existingUser =>
      if String.eqb (username existingUser) nm then
        with_isAuthenticated true
          (with_user
             (Some (mkUser (u_id existingUser) (username existingUser)
                      (rank existingUser) (xp existingUser)
                      (level existingUser) (created_at existingUser) now
                      (preferences existingUser) (stats existingUser)
                      (badges existingUser)
                      (unlocked_wallpapers existingUser))) s)
      else
        with_isAuthenticated true
          (with_user
             (Some (createInitialUser (uuidv4 (uuidCount s)) now nm))
             (tick s))
  | None =>
      with_isAuthenticated true
        (with_user (Some (createInitialUser (uuidv4 (uuidCount s)) now nm))
           (tick s))
  end.

Definition logout (s : Store) : Store :=
  with_bootState initialBootState
    (with_isBooted false (with_isAuthenticated false s)).

Definition setMachineState (m : System.MachineState) (s : Store) : Store :=
  with_systemState (with_machine_state m (systemState s)) s.

Definition addNotification (ty : NotificationType) (ttl msg : string)
    (s : Store) : Store :=
  let notification :=
    mkNotification (uuidv4 (uuidCount s)) ty ttl msg now false in
  with_notifications (firstn 50 (notification :: notifications s))
    (tick s).

Definition brickSystem (s : Store) : Store :=
  addNotification error "System Bricked"
    "Critical system failure. Use snapshot recovery or hard reset."
    (with_systemState
       (with_integrity 0
          (with_machine_state System.bricked (systemState s))) s).

Definition updateIntegrity (delta : Z) (s : Store) : Store :=
  let s1 :=
    with_systemState
      (with_integrity
         (Z.max 0 (Z.min 100 (integrity (systemState s) + delta)))
         (systemState s)) s in
  if (integrity (systemState s1) <=? 0)%Z then brickSystem s1 else s1.

Definition recoverSystem (s : Store) : Store :=
  with_systemState
    (with_integrity 75
       (with_machine_state System.running (systemState s))) s.

(** [createSnapshot]: the stored filesystem is read, not written. *)
Definition createSnapshot (nm : string) (desc : option string)
    (v : FsValue) (s : Store) : Snapshot * Store :=
  let snapshot :=
    mkSnapshot (uuidv4 (uuidCount s)) nm now
      (exportFilesystem JSON_stringify toISOString v) desc in
  let s1 :=
    with_systemState
      (with_snapshots (snapshots (systemState s) ++ [snapshot])%list
         (systemState s)) (tick s) in
  (snapshot, addNotification success "Snapshot Created" ("Saved: " ++ nm) s1).

(** [restoreSnapshot]: the result, the filesystem store and the system
    store after the call. *)
Definition restoreSnapshot (snapshotId : string) (v : FsValue) (s : Store)
  : bool * FsValue * Store :=
  match find (fun x => String.eqb (s_id x) snapshotId)
          (snapshots (systemState s)) with
  | None => (false, v, s)
  | Some snapshot =>
      let r := importFilesystem JSON_parse (filesystem_state snapshot) v in
      if fst r then
        (true, snd r,
         addNotification success "Snapshot Restored"
           ("Restored: " ++ s_name snapshot)
           (with_systemState
              (with_integrity 100
                 (with_machine_state System.running (systemState s))) s))
      else (false, snd r, s)
  end.

Definition deleteSnapshot (snapshotId : string) (s : Store) : Store :=
  with_systemState
    (with_snapshots
       (filter (fun snap => negb (String.eqb (s_id snap) snapshotId))
          (snapshots (systemState s))) (systemState s)) s.

Definition rankName (r : UserRank) : string :=
  match r with
  | initiate => "initiate" | apprentice => "apprentice"
  | operator => "operator" | specialist => "specialist"
  | expert => "expert" | master => "master" | architect => "architect"
  end.

(** [String(n)] for a number: [NaN] prints as such. *)
Definition numberText (n : option Z) : string :=
  match n with Some z => JS.ofZ z | None => "NaN" end.

Definition addXP (amount : Z) (s : Store) : Store :=
  match user s with
  | None => s
  | Some u =>
      let newXP := (xp u + amount)%Z in
      let newRank := calculateRank newXP in
      let newLevel := calculateLevel newXP in
      let rankChanged := negb (UserRank_eqb newRank (rank u)) in
      let levelChanged := numberDiffers newLevel (level u) in
      let s1 :=
        with_user
          (Some (mkUser (u_id u) (username u) newRank newXP newLevel
                   (created_at u) (last_active u) (preferences u) (stats u)
                   (badges u) (unlocked_wallpapers u))) s in
      if rankChanged then
        addNotification success "Rank Up!"
          ("You are now: " ++ JS.toUpperCase (rankName newRank)) s1
      else if levelChanged then
        addNotification info "Level Up!"
          ("You reached level " ++ numberText newLevel) s1
      else s1
  end.

Definition updateStats (updates : PartialStats) (s : Store) : Store :=
  match user s with
  | None => s
  | Some u =>
      with_user
        (Some (mkUser (u_id u) (username u) (rank u) (xp u) (level u)
                 (created_at u) (last_active u) (preferences u)
                 (spreadStats (stats u) updates) (badges u)
                 (unlocked_wallpapers u))) s
  end.

Definition updatePreferences (updates : PartialPreferences) (s : Store)
  : Store :=
  match user s with
  | None => s
  | Some u =>
      with_user
        (Some (mkUser (u_id u) (username u) (rank u) (xp u) (level u)
                 (created_at u) (last_active u)
                 (spreadPreferences (preferences u) updates) (stats u)
                 (badges u) (unlocked_wallpapers u))) s
  end.

Definition markNotificationRead (i : string) (s : Store) : Store :=
  with_notifications
    (map (fun n =>
            if String.eqb (n_id n) i
            then mkNotification (n_id n) (n_type n) (title n) (message n)
                   (n_timestamp n) true
            else n) (notifications s)) s.

Definition clearNotifications (s : Store) : Store :=
  with_notifications [] s.

(** [hardReset]: the filesystem store and the system store after the
    call.  The [user] is not among the fields it writes. *)
Definition hardReset (s : Store) : FsValue * Store :=
  (FsTree (Tree.resetFilesystem toISOString uuidv4 (uuidCount s) now),
   mkStore initialBootState false (initialSystemState now) (user s) false
     [] (uuidCount s + Tree.seedSize)).

(** The actions of the store, uniformly: the filesystem store and the
    system store after the action. *)
Inductive Action :=
| StartBoot
| AdvanceBootPhase
| CompleteBoot
| Login (nm : string)
| Logout
| SetMachineState (m : System.MachineState)
| UpdateIntegrity (delta : Z)
| BrickSystem
| RecoverSystem
| CreateSnapshot (nm : string) (desc : option string)
| RestoreSnapshot (snapshotId : string)
| DeleteSnapshot (snapshotId : string)
| AddXP (amount : Z)
| UpdateStats (updates : PartialStats)
| UpdatePreferences (updates : PartialPreferences)
| AddNotification (ty : NotificationType) (ttl msg : string)
| MarkNotificationRead (i : string)
| ClearNotifications
| HardReset.

Definition run (a : Action) (v : FsValue) (s : Store) : FsValue * Store :=
  match a with
  | StartBoot => (v, startBoot s)
  | AdvanceBootPhase => (v, advanceBootPhase s)
  | CompleteBoot => (v, completeBoot s)
  | Login nm => (v, login nm s)
  | Logout => (v, logout s)
  | SetMachineState m => (v, setMachineState m s)
  | UpdateIntegrity delta => (v, updateIntegrity delta s)
  | BrickSystem => (v, brickSystem s)
  | RecoverSystem => (v, recoverSystem s)
  | CreateSnapshot nm desc => (v, snd (createSnapshot nm desc v s))
  | RestoreSnapshot i =>
      (snd (fst (restoreSnapshot i v s)), snd (restoreSnapshot i v s))
  | DeleteSnapshot i => (v, deleteSnapshot i s)
  | AddXP amount => (v, addXP amount s)
  | UpdateStats u => (v, updateStats u s)
  | UpdatePreferences u => (v, updatePreferences u s)
  | AddNotification ty ttl msg => (v, addNotification ty ttl msg s)
  | MarkNotificationRead i => (v, markNotificationRead i s)
  | ClearNotifications => (v, clearNotifications s)
  | HardReset => hardReset s
  end.

(** [partialize]: what the store persists. *)
Definition partialize (s : Store) : option UserProfile * SystemState :=
  (user s, with_machine_state System.running (systemState s)).
End Actions.


(** The ten messages of a boot, in the order of the phases. *)
Definition bootLog : list string :=
  flat_map BOOT_MESSAGES phases.

(** The range of the integrity and the bound on the notifications. *)
Definition inRange (s : Store) : Prop :=
  (0 <= integrity (systemState s) <= 100)%Z /\
  (List.length (notifications s) <= 50)%nat.

(** What the shell sees of the store. *)
Definition shellUser (u : UserProfile) : System.UserProfile :=
  System.mkUser (username u) (Z.to_nat (total_commands (stats u))).

Definition shellView (reports : list Z) (s : Store) : System.SystemStore :=
  System.mkSys (machine_state (systemState s)) (integrity (systemState s))
    (boot_time (systemState s)) (option_map shellUser (user s)) reports.

End Machine.

Unset Implicit Arguments.

(** ** The reference reader reads back what the reference printer wrote *)

Module JsonTextProps.

Import Filesystem JsonText.
Local Open Scope string_scope.

Lemma append_assoc (a b c : string) : (a ++ b) ++ c = a ++ b ++ c.
Proof. induction a as [|x a IH]; simpl; [reflexivity|now rewrite IH]. Qed.

Lemma length_append (a b : string) :
  String.length (a ++ b) = String.length a + String.length b.
Proof. induction a as [|x a IH]; simpl; [reflexivity|now rewrite IH]. Qed.

(** *** String literals *)

Lemma escapeRead_all (c : ascii) : escapeRead c = true.
Proof. destruct c as [[] [] [] [] [] [] [] []]; vm_compute; reflexivity. Qed.

Lemma readString_cons (c : ascii) (t : string) :
  readString (String c t)
  = if Ascii.eqb c JS.dquote then Some (EmptyString, t)
    else if Ascii.eqb c "\" then
      match t with
      | EmptyString => None
      | String e u =>
          if Ascii.eqb e "u" then
            match u with
            | String h1 (String h2 (String h3 (String h4 v))) =>
                match hex4 h1 h2 h3 h4 with
                | Some x => consChar x (readString v)
                | None => None
                end
            | _ => None
            end
          else
            match unescape e with
            | Some x => consChar x (readString u)
            | None => None
            end
      end
    else if (nat_of_ascii c <? 32)%nat then None
    else consChar c (readString t).
Proof. reflexivity. Qed.

Lemma readString_escapeChar (c : ascii) (t r rest : string) :
  readString t = Some (r, rest) ->
  readString (escapeChar c ++ t) = Some (String c r, rest).
Proof.
  intro H. pose proof (escapeRead_all c) as K.
  unfold escapeRead in K. unfold escapeChar.
  destruct (shortEscape c) as [e|].
  - apply andb_true_iff in K. destruct K as [Ku Kx].
    apply negb_true_iff in Ku.
    destruct (unescape e) as [x|] eqn:Ex; [|discriminate].
    apply Ascii.eqb_eq in Kx. subst x.
    change (String "\" (String e "") ++ t) with (String "\" (String e t)).
    rewrite readString_cons.
    change (Ascii.eqb "\" JS.dquote) with false.
    change (Ascii.eqb "\" "\") with true. cbv iota.
    rewrite Ku, Ex, H. reflexivity.
  - destruct (nat_of_ascii c <? 32)%nat eqn:Hn.
    + destruct (hex4 _ _ _ _) as [x|] eqn:Ex; [|discriminate].
      apply Ascii.eqb_eq in K. subst x.
      match goal with
      | |- readString (("\u00" ++ String ?a (String ?b "")) ++ t) = _ =>
          change (("\u00" ++ String a (String b "")) ++ t)
            with (String "\" (String "u" (String "0" (String "0"
                   (String a (String b t))))))
      end.
      rewrite readString_cons.
      change (Ascii.eqb "\" JS.dquote) with false.
      change (Ascii.eqb "\" "\") with true.
      change (Ascii.eqb "u" "u") with true. cbv iota.
      rewrite Ex, H. reflexivity.
    + apply andb_true_iff in K. destruct K as [K1 K2].
      apply negb_true_iff in K1, K2.
      change (String c "" ++ t) with (String c t).
      rewrite readString_cons, K1, K2, Hn, H. reflexivity.
Qed.

Lemma readString_escape (s rest : string) :
  readString (escape s ++ String JS.dquote rest) = Some (s, rest).
Proof.
  induction s as [|c s IH]; [reflexivity|].
  cbn [escape]. rewrite append_assoc. now apply readString_escapeChar.
Qed.

(** *** Numbers *)

Lemma isDigit_not_minus c : isDigit c = true -> Ascii.eqb c "-" = false.
Proof. destruct c as [[] [] [] [] [] [] [] []]; vm_compute; congruence. Qed.

Lemma endsNumber_spanDigits rest :
  endsNumber rest = true -> spanDigits rest = (EmptyString, rest).
Proof.
  destruct rest as [|c t]; [reflexivity|]. cbn [endsNumber spanDigits].
  intro H. apply negb_true_iff in H.
  destruct (isDigit c); [discriminate|reflexivity].
Qed.

Lemma spanDigits_all ds rest :
  allDigits ds = true -> endsNumber rest = true ->
  spanDigits (ds ++ rest) = (ds, rest).
Proof.
  intros Hd Hr. induction ds as [|c t IH].
  - now apply endsNumber_spanDigits.
  - cbn [allDigits] in Hd. apply andb_true_iff in Hd. destruct Hd as [Hc Ht].
    cbn [append spanDigits]. rewrite Hc, (IH Ht). reflexivity.
Qed.

Lemma readNumber_digits
    (neg : bool) (c : ascii) (more rest : string) (u : Decimal.uint) :
  allDigits (String c more) = true ->
  Ascii.eqb c "0" && JS.truthy more = false ->
  endsNumber rest = true ->
  NilEmpty.uint_of_string (String c more) = Some u ->
  readNumber ((if neg then "-" else "") ++ String c more ++ rest)
  = Some (if neg then (- Z.of_uint u)%Z else Z.of_uint u, rest).
Proof.
  intros Hd Hz Hr Hu.
  assert (Hc : Ascii.eqb c "-" = false).
  { apply isDigit_not_minus. cbn [allDigits] in Hd.
    now apply andb_true_iff in Hd. }
  unfold readNumber.
  destruct neg; cbn [append]; [change (Ascii.eqb "-" "-") with true; cbv iota
                              | rewrite Hc];
    change (String c (more ++ rest)) with (String c more ++ rest);
    rewrite (spanDigits_all _ _ Hd Hr), Hz, Hr, Hu; reflexivity.
Qed.

Lemma allDigits_uint d : allDigits (NilEmpty.string_of_uint d) = true.
Proof. induction d; cbn [NilEmpty.string_of_uint allDigits]; auto. Qed.

Lemma to_uint_head p d' : Pos.to_uint p <> Decimal.D0 d'.
Proof.
  pose proof (DecimalPos.Unsigned.to_of (Pos.to_uint p)) as H.
  rewrite DecimalPos.Unsigned.of_to in H. simpl in H.
  unfold Decimal.unorm in H.
  pose proof (DecimalFacts.nzhead_nonzero (Pos.to_uint p) d') as Hnz.
  destruct (Decimal.nzhead (Pos.to_uint p)) eqn:E.
  - exfalso. apply (DecimalPos.Unsigned.to_uint_nonzero p). now symmetry.
  - congruence.
  - rewrite H. congruence.
  - rewrite H. congruence.
  - rewrite H. congruence.
  - rewrite H. congruence.
  - rewrite H. congruence.
  - rewrite H. congruence.
  - rewrite H. congruence.
  - rewrite H. congruence.
  - rewrite H. congruence.
Qed.

Lemma string_of_to_uint p :
  exists c more,
    NilEmpty.string_of_uint (Pos.to_uint p) = String c more /\
    Ascii.eqb c "0" = false.
Proof.
  pose proof (to_uint_head p) as H0.
  pose proof (DecimalPos.Unsigned.to_uint_nonnil p) as Hn.
  destruct (Pos.to_uint p); try congruence;
    try (eexists; eexists; split; [reflexivity|reflexivity]).
Qed.

Lemma readNumber_ofZ (z : Z) (rest : string) :
  endsNumber rest = true ->
  readNumber (JS.ofZ z ++ rest) = Some (z, rest).
Proof.
  intro Hr. unfold JS.ofZ.
  destruct z as [|p|p]; cbn [Z.to_int NilZero.string_of_int].
  - exact (readNumber_digits false "0" "" rest Decimal.zero eq_refl eq_refl
             Hr eq_refl).
  - destruct (string_of_to_uint p) as (c & more & E & Hc).
    pose proof (DecimalPos.Unsigned.to_uint_nonnil p) as Hn.
    assert (S : NilZero.string_of_uint (Pos.to_uint p) = String c more).
    { unfold NilZero.string_of_uint. destruct (Pos.to_uint p); congruence. }
    rewrite S.
    pose proof (readNumber_digits false c more rest (Pos.to_uint p)) as R.
    cbn [append] in R. cbn [append]. rewrite R.
    + unfold Z.of_uint. rewrite DecimalPos.Unsigned.of_to. reflexivity.
    + rewrite <- E. apply allDigits_uint.
    + now rewrite Hc.
    + exact Hr.
    + rewrite <- E. apply NilEmpty.usu.
  - destruct (string_of_to_uint p) as (c & more & E & Hc).
    pose proof (DecimalPos.Unsigned.to_uint_nonnil p) as Hn.
    assert (S : NilZero.string_of_uint (Pos.to_uint p) = String c more).
    { unfold NilZero.string_of_uint. destruct (Pos.to_uint p); congruence. }
    rewrite S.
    pose proof (readNumber_digits true c more rest (Pos.to_uint p)) as R.
    cbn [append] in R. cbn [append]. rewrite R.
    + unfold Z.of_uint. rewrite DecimalPos.Unsigned.of_to. reflexivity.
    + rewrite <- E. apply allDigits_uint.
    + now rewrite Hc.
    + exact Hr.
    + rewrite <- E. apply NilEmpty.usu.
Qed.

(** *** Values *)

Lemma numberHead_valueHead c : numberHead c = true -> valueHead c = true.
Proof. destruct c as [[] [] [] [] [] [] [] []]; vm_compute; congruence. Qed.

Lemma delimited_endsNumber rest :
  delimited rest = true -> endsNumber rest = true.
Proof.
  destruct rest as [|c t]; [reflexivity|]. cbn [delimited endsNumber].
  destruct c as [[] [] [] [] [] [] [] []]; vm_compute; congruence.
Qed.

Lemma ofZ_head z :
  exists c more, JS.ofZ z = String c more /\ numberHead c = true.
Proof.
  unfold JS.ofZ. destruct z as [|p|p]; cbn [Z.to_int NilZero.string_of_int].
  - eexists; eexists; split; reflexivity.
  - destruct (string_of_to_uint p) as (c & more & E & Hc).
    pose proof (DecimalPos.Unsigned.to_uint_nonnil p) as Hn.
    exists c, more. split.
    + unfold NilZero.string_of_uint. destruct (Pos.to_uint p); congruence.
    + pose proof (allDigits_uint (Pos.to_uint p)) as A. rewrite E in A.
      cbn [allDigits] in A. apply andb_true_iff in A.
      unfold numberHead. now rewrite (proj1 A).
  - eexists; eexists; split; reflexivity.
Qed.

Lemma readValue_number f c more :
  numberHead c = true ->
  readValue (S f) (String c more)
  = option_map (fun r => (JNum (fst r), snd r)) (readNumber (String c more)).
Proof.
  destruct c as [[] [] [] [] [] [] [] []]; intro H;
    try (vm_compute in H; discriminate H); reflexivity.
Qed.

Lemma readValue_string f t :
  readValue (S f) (String JS.dquote t)
  = option_map (fun r => (JStr (fst r), snd r)) (readString t).
Proof. reflexivity. Qed.

Lemma readValue_array f t :
  readValue (S f) (String "[" t)
  = match skipWs t with
    | String d u =>
        if Ascii.eqb d "]" then Some (JArr [], u)
        else option_map (fun r => (JArr (fst r), snd r)) (readElements f t)
    | EmptyString => None
    end.
Proof. reflexivity. Qed.

Lemma readValue_object f t :
  readValue (S f) (String "{" t)
  = match skipWs t with
    | String d u =>
        if Ascii.eqb d "}" then Some (JObj [], u)
        else option_map (fun r => (JObj (fst r), snd r)) (readMembers f t)
    | EmptyString => None
    end.
Proof. reflexivity. Qed.

Lemma readElements_step f s :
  readElements (S f) s
  = match readValue f s with
    | Some (v, rest) =>
        match skipWs rest with
        | String c u =>
            if Ascii.eqb c ","
            then option_map (fun r => (v :: fst r, snd r)) (readElements f u)
            else if Ascii.eqb c "]" then Some ([v], u)
            else None
        | EmptyString => None
        end
    | None => None
    end.
Proof. reflexivity. Qed.

Lemma readMembers_step f t :
  readMembers (S f) (String JS.dquote t)
  = match readString t with
    | Some (k, rest) =>
        match skipWs rest with
        | String c u =>
            if Ascii.eqb c ":" then
              match readValue f u with
              | Some (v, rest') =>
                  match skipWs rest' with
                  | String d w =>
                      if Ascii.eqb d ","
                      then option_map (fun r => ((k, v) :: fst r, snd r))
                             (readMembers f w)
                      else if Ascii.eqb d "}" then Some ([(k, v)], w)
                      else None
                  | EmptyString => None
                  end
              | None => None
              end
            else None
        | EmptyString => None
        end
    | None => None
    end.
Proof. reflexivity. Qed.

Lemma skipWs_head c t : isWs c = false -> skipWs (String c t) = String c t.
Proof. intro H. cbn [skipWs]. now rewrite H. Qed.

Lemma valueHead_spec c :
  valueHead c = true ->
  isWs c = false /\ Ascii.eqb c "]" = false /\ Ascii.eqb c "}" = false.
Proof.
  unfold valueHead. intro H.
  repeat (apply andb_true_iff in H; destruct H as [H ?]).
  repeat match goal with H : negb _ = true |- _ => apply negb_true_iff in H end.
  auto.
Qed.

Lemma stringify_head j rest :
  exists c t, stringify j ++ rest = String c t /\ valueHead c = true.
Proof.
  destruct j as [|[]|z|s|l|l]; cbn [stringify];
    try (eexists; eexists; split; reflexivity).
  destruct (ofZ_head z) as (c & more & E & H). rewrite E.
  exists c, (more ++ rest). split; [reflexivity|now apply numberHead_valueHead].
Qed.

Lemma elementsText_cons v v' r :
  elementsText (v :: v' :: r)
  = stringify v ++ String "," (elementsText (v' :: r)).
Proof. reflexivity. Qed.

Lemma readElements_text l :
  l <> [] -> Forall ReadsBack l ->
  forall fuel rest, sizes l <= fuel ->
    readElements fuel (elementsText l ++ String "]" rest) = Some (l, rest).
Proof.
  induction l as [|v l IH]; [congruence|]. intros _ Hall fuel rest Hfuel.
  inversion Hall as [|? ? Hv Hl]; subst.
  change (sizes (v :: l)) with (S (size v) + sizes l) in Hfuel.
  destruct fuel as [|f]; [lia|]. rewrite readElements_step.
  destruct l as [|v' r].
  - change (elementsText [v]) with (stringify v).
    rewrite (Hv f (String "]" rest)) by (try reflexivity; lia).
    reflexivity.
  - rewrite elementsText_cons, append_assoc. cbn [append].
    rewrite (Hv f) by (try reflexivity; lia).
    change (skipWs (String "," (elementsText (v' :: r) ++ String "]" rest)))
      with (String "," (elementsText (v' :: r) ++ String "]" rest)).
    change (Ascii.eqb "," ",") with true. cbv iota.
    rewrite IH; [reflexivity|discriminate|assumption|lia].
Qed.

Lemma membersText_cons kv kv' r :
  membersText (kv :: kv' :: r)
  = memberText kv ++ String "," (membersText (kv' :: r)).
Proof. reflexivity. Qed.

Lemma readMembers_text l :
  l <> [] -> Forall (fun kv => ReadsBack (snd kv)) l ->
  forall fuel rest, memberSizes l <= fuel ->
    readMembers fuel (membersText l ++ String "}" rest) = Some (l, rest).
Proof.
  induction l as [|[k v] l IH]; [congruence|]. intros _ Hall fuel rest Hfuel.
  inversion Hall as [|? ? Hv Hl]; subst. cbn [snd] in Hv.
  change (memberSizes ((k, v) :: l))
    with (S (size v) + memberSizes l) in Hfuel.
  destruct fuel as [|f]; [lia|].
  assert (Hone : forall tail, delimited tail = true ->
            exists t, memberText (k, v) ++ tail = String JS.dquote t /\
              readString t = Some (k, String ":" (stringify v ++ tail))).
  { intros tail _. unfold memberText, quote. cbn [fst snd append].
    eexists. split; [reflexivity|].
    rewrite !append_assoc. cbn [append]. apply readString_escape. }
  destruct l as [|kv' r].
  - change (membersText [(k, v)]) with (memberText (k, v)).
    destruct (Hone (String "}" rest) eq_refl) as (t & E & R).
    rewrite E, readMembers_step, R.
    change (skipWs (String ":" (stringify v ++ String "}" rest)))
      with (String ":" (stringify v ++ String "}" rest)).
    change (Ascii.eqb ":" ":") with true. cbv iota.
    rewrite (Hv f) by (try reflexivity; lia).
    reflexivity.
  - rewrite membersText_cons, append_assoc. cbn [append].
    destruct (Hone (String "," (membersText (kv' :: r) ++ String "}" rest))
                eq_refl) as (t & E & R).
    rewrite E, readMembers_step, R.
    match goal with
    | |- context [skipWs (String ":" ?x)] =>
        change (skipWs (String ":" x)) with (String ":" x)
    end.
    change (Ascii.eqb ":" ":") with true. cbv iota.
    rewrite (Hv f) by (try reflexivity; lia).
    match goal with
    | |- context [skipWs (String "," ?x)] =>
        change (skipWs (String "," x)) with (String "," x)
    end.
    change (Ascii.eqb "," ",") with true. cbv iota.
    rewrite IH; [reflexivity|discriminate|assumption|lia].
Qed.

Lemma Json_nested_ind (P : Json -> Prop) :
  P JNull -> (forall b, P (JBool b)) -> (forall z, P (JNum z)) ->
  (forall s, P (JStr s)) ->
  (forall l, Forall P l -> P (JArr l)) ->
  (forall l, Forall (fun kv => P (snd kv)) l -> P (JObj l)) ->
  forall j, P j.
Proof.
  intros Hn Hb Hz Hs Ha Ho. fix IH 1. intros [ |b|z|s|l|l].
  - exact Hn.
  - apply Hb.
  - apply Hz.
  - apply Hs.
  - apply Ha. induction l as [|v l IHl]; constructor; [apply IH|exact IHl].
  - apply Ho. induction l as [|[k v] l IHl]; constructor;
      [apply IH|exact IHl].
Qed.

Lemma elementsText_head v l rest :
  exists c t, elementsText (v :: l) ++ rest = String c t /\ valueHead c = true.
Proof.
  destruct l as [|v' r].
  - apply stringify_head.
  - rewrite elementsText_cons, append_assoc. apply stringify_head.
Qed.

Lemma membersText_head kv l rest :
  exists t, membersText (kv :: l) ++ rest = String JS.dquote t.
Proof.
  destruct l as [|kv' r].
  - eexists. reflexivity.
  - rewrite membersText_cons. eexists. reflexivity.
Qed.

Lemma readValue_stringify (j : Json) : ReadsBack j.
Proof.
  induction j as [ |b|z|s|l IH|l IH] using Json_nested_ind;
    intros fuel rest Hfuel Hd; (destruct fuel as [|f]; [cbn in Hfuel; lia|]).
  - reflexivity.
  - destruct b; reflexivity.
  - destruct (ofZ_head z) as (c & more & E & H).
    assert (E' : stringify (JNum z) ++ rest = String c (more ++ rest))
      by (cbn [stringify]; rewrite E; reflexivity).
    rewrite E', (readValue_number _ _ _ H), <- E'. cbn [stringify].
    rewrite (readNumber_ofZ _ _ (delimited_endsNumber _ Hd)). reflexivity.
  - change (stringify (JStr s) ++ rest)
      with (String JS.dquote ((escape s ++ String JS.dquote "") ++ rest)).
    rewrite readValue_string, append_assoc. cbn [append].
    rewrite readString_escape. reflexivity.
  - change (size (JArr l)) with (S (sizes l)) in Hfuel.
    change (stringify (JArr l) ++ rest)
      with (String "[" ((elementsText l ++ "]") ++ rest)).
    rewrite append_assoc, readValue_array. cbn [append].
    destruct l as [|v l]; [reflexivity|].
    destruct (elementsText_head v l (String "]" rest)) as (c & t & E & H).
    apply valueHead_spec in H. destruct H as (Hw & Hb & _).
    rewrite E, (skipWs_head _ _ Hw), Hb, <- E.
    rewrite readElements_text; [reflexivity|discriminate|exact IH|lia].
  - change (size (JObj l)) with (S (memberSizes l)) in Hfuel.
    change (stringify (JObj l) ++ rest)
      with (String "{" ((membersText l ++ "}") ++ rest)).
    rewrite append_assoc, readValue_object. cbn [append].
    destruct l as [|kv l]; [reflexivity|].
    destruct (membersText_head kv l (String "}" rest)) as (t & E).
    rewrite E.
    change (skipWs (String JS.dquote t)) with (String JS.dquote t).
    change (Ascii.eqb JS.dquote "}") with false. cbv iota.
    rewrite <- E.
    rewrite readMembers_text; [reflexivity|discriminate|exact IH|lia].
Qed.

Lemma append_nil_r (s : string) : s ++ "" = s.
Proof. induction s as [|c s IH]; simpl; [reflexivity|now rewrite IH]. Qed.

Lemma sizes_le_length l :
  Forall (fun v => size v <= 2 * String.length (stringify v)) l ->
  sizes l <= 2 * String.length (elementsText l) + 1.
Proof.
  induction 1 as [|v l Hv Hl IH]; [cbn; lia|].
  change (sizes (v :: l)) with (S (size v) + sizes l).
  destruct l as [|v' r].
  - change (elementsText [v]) with (stringify v).
    change (sizes []) with 0. lia.
  - rewrite elementsText_cons, length_append. cbn [String.length]. lia.
Qed.

Lemma memberSizes_le_length l :
  Forall
    (fun kv => size (snd kv) <= 2 * String.length (stringify (snd kv))) l ->
  memberSizes l <= 2 * String.length (membersText l) + 1.
Proof.
  induction 1 as [|[k v] l Hv Hl IH]; [cbn; lia|]. cbn [snd] in Hv.
  change (memberSizes ((k, v) :: l)) with (S (size v) + memberSizes l).
  assert (Hm : String.length (stringify v)
               <= String.length (memberText (k, v))).
  { unfold memberText. cbn [fst snd]. rewrite !length_append. lia. }
  destruct l as [|kv' r].
  - change (membersText [(k, v)]) with (memberText (k, v)).
    change (memberSizes []) with 0. lia.
  - rewrite membersText_cons, length_append. cbn [String.length]. lia.
Qed.

Lemma size_le_length (j : Json) : size j <= 2 * String.length (stringify j).
Proof.
  induction j as [ |b|z|s|l IH|l IH] using Json_nested_ind.
  - cbn. lia.
  - destruct b; cbn; lia.
  - destruct (ofZ_head z) as (c & more & E & _). cbn [stringify size].
    rewrite E. cbn [String.length]. lia.
  - cbn [size stringify]. unfold quote. cbn [String.length]. lia.
  - change (size (JArr l)) with (S (sizes l)).
    cbn [stringify]. fold (elementsText l).
    pose proof (sizes_le_length l IH).
    cbn [append String.length]. rewrite length_append. lia.
  - change (size (JObj l)) with (S (memberSizes l)).
    cbn [stringify]. fold (membersText l).
    pose proof (memberSizes_le_length l IH).
    cbn [append String.length]. rewrite length_append. lia.
Qed.

Lemma parse_stringify (j : Json) : parse (stringify j) = Some j.
Proof.
  unfold parse.
  rewrite <- (append_nil_r (stringify j)) at 2.
  rewrite readValue_stringify; [reflexivity| |reflexivity].
  pose proof (size_le_length j). lia.
Qed.

End JsonTextProps.

(** ** Properties of the virtual filesystem *)

Module FilesystemProps.

Import Filesystem Fixture.
Local Open Scope string_scope.

(** *** Invariant 4 and [moveNode] *)

Example seed_pathInvariant : pathInvariant seed = true.
Proof. vm_compute. reflexivity. Qed.

(** C1.  The claim: after every mutating operation every node's cached
    path is its parent's path joined with its name, transitively below a
    moved node.  [moveNode] rewrites the path of the moved node only:
    moving [/data/logs] into [/home/user] on the seed tree succeeds, the
    moved directory gets the path [/home/user/logs], and its child
    [system.log] keeps the path [/data/logs/system.log], so the invariant
    that held before the move is lost. *)
Theorem moveNode_leaves_descendant_paths :
  pathInvariant seed = true /\
  fst (moveNode "/data/logs" "/home/user" 1 seed) = true /\
  let fs' := snd (moveNode "/data/logs" "/home/user" 1 seed) in
  view fs' "uuid-12" = Some ("logs", "/home/user/logs", Some "uuid-3") /\
  view fs' "uuid-18"
    = Some ("system.log", "/data/logs/system.log", Some "uuid-12") /\
  pathInvariant fs' = false.
Proof. vm_compute. repeat split; reflexivity. Qed.

(** Other ways in which a cached path goes stale: [moveNode] joins the
    destination text as given, not the path of the destination, and
    [renameNode] takes the parent path from the text of its argument. *)
Example stale_paths_on_seed :
  view (snd (moveNode "/data/logs" "~" 1 seed)) "uuid-12"
    = Some ("logs", "~/logs", Some "uuid-3") /\
  option_map (fun r => view (snd r) "uuid-7") (renameNode "notes" "n" 1 seed)
    = Some (Some ("n", "/n", Some "uuid-3")).
Proof. split; vm_compute; reflexivity. Qed.

(** *** [resolvePath] *)

(** C2.  The claim: for every input, [~/rest] included, [resolvePath]
    returns a path without [.] or [..] segments and without trailing
    slash, and is idempotent.  The [~/] branch returns the home path
    followed by the rest of the input as it is: whatever the tree,
    [~/..] resolves to [/home/user/..], which holds a [..] segment and
    which [resolvePath] sends to [/home]; and [~/] resolves to
    [/home/user/]. *)
Theorem resolvePath_home_branch_not_normalized :
  forall fs : FileSystem,
    resolvePath fs "~/.." = "/home/user/.." /\
    In ".." (JS.split "/" (resolvePath fs "~/..")) /\
    resolvePath fs (resolvePath fs "~/..") = "/home" /\
    resolvePath fs (resolvePath fs "~/..") <> resolvePath fs "~/.." /\
    resolvePath fs "~/" = "/home/user/".
Proof.
  intro fs. repeat split; try reflexivity.
  - vm_compute. tauto.
  - vm_compute. discriminate.
Qed.

(** The branches of [resolvePath] that do normalize. *)

Section Split.
Variable c : ascii.

Lemma split_nonempty s : JS.split c s <> [].
Proof.
  destruct s as [|a t]; simpl; [discriminate|].
  destruct (Ascii.eqb a c); [discriminate|].
  destruct (JS.split c t); discriminate.
Qed.

Lemma split_sepfree s : JS.hasChar c s = false -> JS.split c s = [s].
Proof.
  induction s as [|a t IH]; simpl; [reflexivity|].
  intro H. apply orb_false_iff in H. destruct H as [Ha Ht].
  rewrite Ha, (IH Ht). reflexivity.
Qed.

Lemma split_app x rest :
  JS.hasChar c x = false ->
  JS.split c (x ++ String c rest) = x :: JS.split c rest.
Proof.
  induction x as [|a t IH]; simpl.
  - intros _. now rewrite Ascii.eqb_refl.
  - intro H. apply orb_false_iff in H. destruct H as [Ha Ht].
    rewrite Ha, (IH Ht). reflexivity.
Qed.

Lemma split_pieces s :
  Forall (fun x => JS.hasChar c x = false) (JS.split c s).
Proof.
  induction s as [|a t IH]; simpl.
  - constructor; [reflexivity|constructor].
  - destruct (Ascii.eqb a c) eqn:Ha.
    + constructor; [reflexivity|exact IH].
    + destruct (JS.split c t) as [|w ws].
      * constructor; [simpl; now rewrite Ha|constructor].
      * inversion IH; subst.
        constructor; [simpl; now rewrite Ha|assumption].
Qed.

Lemma join_split s : JS.join (String c "") (JS.split c s) = s.
Proof.
  unfold JS.join.
  induction s as [|a t IH]; simpl; [reflexivity|].
  destruct (Ascii.eqb a c) eqn:Ha.
  - apply Ascii.eqb_eq in Ha. subst a.
    pose proof (split_nonempty t) as Hne.
    destruct (JS.split c t) as [|w ws]; [congruence|].
    simpl in *. now rewrite IH.
  - pose proof (split_nonempty t) as Hne.
    destruct (JS.split c t) as [|w ws]; [congruence|].
    simpl in *. destruct ws; simpl in *; now rewrite <- IH.
Qed.

Lemma split_join segs :
  segs <> [] ->
  Forall (fun x => JS.hasChar c x = false) segs ->
  JS.split c (JS.join (String c "") segs) = segs.
Proof.
  unfold JS.join.
  induction segs as [|x r IH]; [congruence|].
  intros _ H. inversion H as [|? ? Hx Hr]; subst.
  destruct r as [|y r'].
  - simpl. now apply split_sepfree.
  - change (String.concat (String c "") (x :: y :: r'))
      with (x ++ String c (String.concat (String c "") (y :: r'))).
    rewrite (split_app _ _ Hx), IH; [reflexivity|discriminate|assumption].
Qed.
End Split.

Lemma isSegment_spec s :
  isSegment s = true ->
  JS.truthy s = true /\ String.eqb s "." = false /\ String.eqb s ".." = false
  /\ JS.hasChar "/" s = false.
Proof.
  unfold isSegment. intro H.
  repeat (apply andb_true_iff in H; destruct H as [H ?]).
  repeat match goal with
         | H : negb _ = true |- _ => apply negb_true_iff in H
         end.
  auto.
Qed.

Lemma Forall_removelast {A} (P : A -> Prop) l :
  Forall P l -> Forall P (removelast l).
Proof.
  induction l as [|a l IH]; simpl; [auto|].
  intro H. inversion H; subst. destruct l; [constructor|].
  constructor; auto.
Qed.

(** The loop of [resolvePath] keeps true segments only. *)
Lemma resolveParts_segments parts :
  Forall (fun x => JS.truthy x = true /\ JS.hasChar "/" x = false) parts ->
  forall acc, Forall (fun s => isSegment s = true) acc ->
    Forall (fun s => isSegment s = true) (fold_left resolveStep parts acc).
Proof.
  induction 1 as [|x parts [Hx1 Hx2] _ IH]; intros acc Hacc; simpl;
    [exact Hacc|].
  apply IH. unfold resolveStep.
  destruct (String.eqb x "..") eqn:E1; [now apply Forall_removelast|].
  destruct (String.eqb x ".") eqn:E2; simpl; [exact Hacc|].
  apply Forall_app. split; [exact Hacc|]. constructor; [|constructor].
  unfold isSegment. now rewrite Hx1, E1, E2, Hx2.
Qed.

(** On true segments the loop is the identity. *)
Lemma resolveParts_id segs :
  Forall (fun s => isSegment s = true) segs ->
  forall acc, fold_left resolveStep segs acc = (acc ++ segs)%list.
Proof.
  induction 1 as [|x segs Hx _ IH]; intro acc; simpl.
  - now rewrite app_nil_r.
  - apply isSegment_spec in Hx. destruct Hx as (_ & E1 & E2 & _).
    unfold resolveStep at 2. rewrite E2, E1. simpl.
    rewrite IH, <- app_assoc. reflexivity.
Qed.

Lemma filter_Boolean_pieces s :
  Forall (fun x => JS.truthy x = true /\ JS.hasChar "/" x = false)
    (JS.filter_Boolean (JS.split "/" s)).
Proof.
  unfold JS.filter_Boolean. pose proof (split_pieces "/" s) as H.
  induction H as [|x l Hx _ IH]; simpl; [constructor|].
  destruct (JS.truthy x) eqn:E; [constructor; auto|exact IH].
Qed.

Lemma isNormalPath_join segs :
  Forall (fun s => isSegment s = true) segs ->
  isNormalPath ("/" ++ JS.join "/" segs) = true.
Proof.
  intro H. simpl. destruct segs as [|x r]; [reflexivity|].
  apply orb_true_iff; right.
  rewrite split_join.
  - apply forallb_forall. intros y Hy.
    rewrite Forall_forall in H. now apply H.
  - discriminate.
  - eapply Forall_impl; [|exact H]. intros a Ha.
    now apply isSegment_spec in Ha.
Qed.

(** Whatever the text, the split/filter/pop loop yields a normal path. *)
Lemma normalizePath_normal p : isNormalPath (normalizePath p) = true.
Proof.
  unfold normalizePath, resolveParts. apply isNormalPath_join.
  apply resolveParts_segments; [apply filter_Boolean_pieces|constructor].
Qed.

Lemma filter_truthy_segments l :
  forallb isSegment l = true -> JS.filter_Boolean l = l.
Proof.
  unfold JS.filter_Boolean.
  induction l as [|x l IH]; simpl; [reflexivity|].
  intro H. apply andb_true_iff in H. destruct H as [Hx Hl].
  apply isSegment_spec in Hx. destruct Hx as (-> & _).
  now rewrite IH.
Qed.

(** A normal path is a fixed point of the loop. *)
Lemma normalizePath_fixed r :
  isNormalPath r = true -> normalizePath r = r.
Proof.
  destruct r as [|c rest]; simpl; [discriminate|].
  intro H. apply andb_true_iff in H. destruct H as [Hc H].
  apply Ascii.eqb_eq in Hc. subst c.
  destruct rest as [|a t]; [reflexivity|].
  cbn [JS.truthy negb orb] in H. unfold normalizePath, resolveParts.
  change (JS.split "/" (String "/" (String a t)))
    with ("" :: JS.split "/" (String a t)).
  change (JS.filter_Boolean ("" :: JS.split "/" (String a t)))
    with (JS.filter_Boolean (JS.split "/" (String a t))).
  rewrite (filter_truthy_segments _ H).
  rewrite resolveParts_id by (apply Forall_forall; intros y Hy;
    rewrite forallb_forall in H; now apply H).
  rewrite app_nil_l, (join_split "/"). reflexivity.
Qed.

Lemma resolvePath_fixed fs r :
  isNormalPath r = true -> resolvePath fs r = r.
Proof.
  intro H. pose proof (normalizePath_fixed r H) as Hn.
  destruct r as [|c rest]; [discriminate|].
  simpl in H. apply andb_true_iff in H. destruct H as [Hc _].
  apply Ascii.eqb_eq in Hc. subst c.
  unfold resolvePath. simpl. unfold JS.startsWith.
  destruct rest; exact Hn.
Qed.

(** Off the [~/] branch, and with a normal cached path for the current
    directory (which the empty input and [.] return as it is),
    [resolvePath] returns a normal path and is idempotent. *)
Lemma resolvePath_normalizes fs p :
  JS.startsWith p "~/" = false ->
  isNormalPath (cwdPath fs) = true ->
  isNormalPath (resolvePath fs p) = true /\
  resolvePath fs (resolvePath fs p) = resolvePath fs p.
Proof.
  intros Hhome Hcwd.
  assert (N : isNormalPath (resolvePath fs p) = true).
  { unfold resolvePath. rewrite Hhome.
    destruct (negb (JS.truthy p) || String.eqb p "."); [exact Hcwd|].
    destruct (String.eqb p "~"); [reflexivity|].
    destruct (JS.startsWith p "/"); apply normalizePath_normal. }
  split; [exact N|]. now apply resolvePath_fixed.
Qed.

(** *** [renameNode] *)

(** The example of the specification: renaming [/data/logs] to [log]. *)
Example renameNode_logs_to_log :
  exists fs',
    renameNode "/data/logs" "log" 1 seed = Some (true, fs') /\
    view fs' "uuid-12" = Some ("log", "/data/log", Some "uuid-11") /\
    view fs' "uuid-18"
      = Some ("system.log", "/data/log/system.log", Some "uuid-12") /\
    option_map content (getNodeById fs' "uuid-18")
      = option_map content (getNodeById seed "uuid-18").
Proof. eexists. vm_compute. repeat split; reflexivity. Qed.

(** C7.  The claim: every successful rename of a directory rewrites the
    path of each descendant by putting the new path of the directory in
    place of the old one.  The substitution is [String.prototype.replace]
    with the new path as replacement text, in which [$&] stands for the
    matched text: renaming [/data/logs] to [$&] succeeds, and the
    descendant at [/data/logs/system.log] ends at
    [/data//data/logs/system.log], not at [/data/$&/system.log]. *)
Theorem renameNode_replacement_pattern :
  exists fs',
    renameNode "/data/logs" "$&" 1 seed = Some (true, fs') /\
    view fs' "uuid-12" = Some ("$&", "/data//data/logs", Some "uuid-11") /\
    view fs' "uuid-18"
      = Some ("system.log", "/data//data/logs/system.log", Some "uuid-12") /\
    view fs' "uuid-18"
      <> Some ("system.log", "/data/$&/system.log", Some "uuid-12").
Proof.
  eexists. vm_compute. repeat split; try reflexivity. discriminate.
Qed.

(** Renaming with a new path free of [$], in a tree where the walk from
    the node meets no id twice and the cached paths it meets extend the
    path of the node. *)

Section ObjLemmas.
Variable V : Type.

Lemma get_set_same (k : string) (v : V) (o : JS.obj V) :
  JS.get k (JS.set k v o) = Some v.
Proof.
  induction o as [|[k' v'] o IH]; simpl.
  - now rewrite String.eqb_refl.
  - destruct (String.eqb k' k) eqn:E; simpl; rewrite E;
      [reflexivity|exact IH].
Qed.

Lemma get_set_other (k k' : string) (v : V) (o : JS.obj V) :
  k' <> k -> JS.get k' (JS.set k v o) = JS.get k' o.
Proof.
  intro Hne. induction o as [|[a b] o IH]; simpl.
  - destruct (String.eqb k k') eqn:E; [|reflexivity].
    apply String.eqb_eq in E. congruence.
  - destruct (String.eqb a k) eqn:E; simpl.
    + apply String.eqb_eq in E. subst a.
      destruct (String.eqb k k') eqn:E'; [|reflexivity].
      apply String.eqb_eq in E'. congruence.
    + destruct (String.eqb a k'); [reflexivity|exact IH].
Qed.
End ObjLemmas.

Lemma getSubstitution_plain m b a tpl :
  JS.hasChar "$" tpl = false -> JS.getSubstitution m b a tpl = tpl.
Proof.
  induction tpl as [|c t IH]; simpl; [reflexivity|].
  intro H. apply orb_false_iff in H. destruct H as [Hc Ht].
  rewrite Hc, (IH Ht). reflexivity.
Qed.

Lemma indexOf_prefix pat s :
  JS.startsWith s pat = true -> JS.indexOf pat s = Some 0.
Proof.
  unfold JS.startsWith. intro H.
  destruct s; cbn [JS.indexOf]; now rewrite H.
Qed.

Lemma replace_prefix p oldBase newBase :
  JS.startsWith p oldBase = true ->
  JS.hasChar "$" newBase = false ->
  JS.replace p oldBase newBase = rebase oldBase newBase p.
Proof.
  intros Hp Hd. unfold JS.replace, rebase.
  rewrite (indexOf_prefix _ _ Hp), (getSubstitution_plain _ _ _ _ Hd).
  destruct p; reflexivity.
Qed.

Lemma nodup_NoDup (l : list string) : nodup l = true -> NoDup l.
Proof.
  induction l as [|x r IH]; intro H; [constructor|].
  simpl in H. apply andb_true_iff in H. destruct H as [Hx Hr].
  constructor; [|now apply IH].
  intro Hin. apply negb_true_iff in Hx.
  assert (existsb (String.eqb x) r = true).
  { apply existsb_exists. exists x. split; [exact Hin|apply String.eqb_refl]. }
  congruence.
Qed.

Lemma NoDup_app_disjoint (l r : list string) :
  NoDup (l ++ r) -> forall k, In k l -> In k r -> False.
Proof.
  induction l as [|a l IHl]; simpl; [tauto|].
  intros Hnd k [->|Kl] Kr; inversion Hnd; subst.
  - match goal with H : ~ In _ _ |- _ => apply H end.
    apply in_or_app. now right.
  - eauto.
Qed.

Section Walk.
Variables (renamedId newName : string) (now : Z) (oldBase newBase : string).
Variable fs0 : FileSystem.

Local Abbreviation Walked :=
  (walked renamedId newName now oldBase newBase fs0).
Local Abbreviation Children :=
  (walkChildren renamedId newName now oldBase newBase).

(** The loop over the children, given the walk from each child. *)
Lemma walkChildren_spec (f : nat)
    (IH : forall nodeId ds,
        collectDescendants f fs0 nodeId = Some ds ->
        NoDup ds -> forall fs, untouched fs0 ds fs ->
        exists fs',
          updatePaths f renamedId newName now oldBase newBase nodeId fs
          = Some fs' /\ Walked ds fs fs') :
  forall cs ds, collectChildren fs0 f cs = Some ds -> NoDup ds ->
    forall fs, untouched fs0 ds fs ->
    exists fs', Children f cs (Some fs) = Some fs' /\ Walked ds fs fs'.
Proof.
  induction cs as [|c cs IHcs]; simpl; intros ds Hds Hnd fs Hun.
  - inversion Hds; subst. exists fs. split; [reflexivity|].
    repeat split; try reflexivity. intros k [].
  - destruct (collectDescendants f fs0 c) as [l|] eqn:Hl; [|discriminate].
    fold (collectChildren fs0 f cs) in Hds.
    destruct (collectChildren fs0 f cs) as [r|] eqn:Hr; [|discriminate].
    inversion Hds; subst ds; clear Hds.
    assert (Hl' : NoDup l) by (eapply NoDup_app_remove_r; eassumption).
    assert (Hr' : NoDup r) by (eapply NoDup_app_remove_l; eassumption).
    pose proof (NoDup_app_disjoint l r Hnd) as Hdisj.
    destruct (IH c l Hl Hl' fs) as (fs1 & E1 & W1 & O1 & R1 & C1).
    { intros k Hk. apply Hun. apply in_or_app. now left. }
    destruct (IHcs r eq_refl Hr' fs1) as (fs2 & E2 & W2 & O2 & R2 & C2).
    { intros k Hk. rewrite O1; [|intro Kl; eapply Hdisj; eassumption].
      apply Hun. apply in_or_app. now right. }
    exists fs2. rewrite E1. split; [exact E2|].
    repeat split.
    + intros k Hk. apply in_app_or in Hk. destruct Hk as [Kl|Kr].
      * rewrite O2; [now apply W1|intro Kr; eapply Hdisj; eassumption].
      * now apply W2.
    + intros k Hk. rewrite O2, O1; [reflexivity| |];
        intro K; apply Hk; apply in_or_app; auto.
    + congruence.
    + congruence.
Qed.

(** [updatePaths] follows the walk of [collectDescendants]: where that
    walk returns a list without repetition, [updatePaths] returns, and
    rewrites exactly the nodes of the list. *)
Lemma updatePaths_spec :
  forall fuel nodeId ds,
    collectDescendants fuel fs0 nodeId = Some ds -> NoDup ds ->
    forall fs, untouched fs0 ds fs ->
    exists fs',
      updatePaths fuel renamedId newName now oldBase newBase nodeId fs
      = Some fs' /\ Walked ds fs fs'.
Proof.
  induction fuel as [|f IH]; intros nodeId ds Hds Hnd fs Hun;
    [discriminate|].
  simpl in Hds. simpl.
  assert (Hself : getNodeById fs nodeId = getNodeById fs0 nodeId).
  { apply Hun. destruct (getNodeById fs0 nodeId) as [n|].
    - destruct (type n), (children n); try (inversion Hds; subst; now left).
      destruct (fold_right _ _ _); inversion Hds; subst; now left.
    - inversion Hds; subst; now left. }
  rewrite Hself.
  destruct (getNodeById fs0 nodeId) as [n|] eqn:Hn.
  - set (fs1 := with_nodes (JS.set nodeId _ (nodes fs)) fs).
    assert (Hleaf : forall ds', ds' = [nodeId] -> ds = ds' ->
              exists fs', Some fs1 = Some fs' /\ Walked ds fs fs').
    { intros ds' -> ->. exists fs1. split; [reflexivity|].
      repeat split.
      - intros k [<-|[]]. rewrite Hn. unfold getNodeById. subst fs1; simpl.
        now rewrite get_set_same.
      - intros k Hk. unfold getNodeById. subst fs1; simpl.
        apply get_set_other. intro E; apply Hk; subst; now left. }
    destruct (type n) eqn:Hty; [apply (Hleaf [nodeId] eq_refl);
      destruct (children n); congruence|].
    destruct (children n) as [cs|] eqn:Hcs;
      [|apply (Hleaf [nodeId] eq_refl); congruence].
    fold (collectChildren fs0 f cs) in Hds.
    destruct (collectChildren fs0 f cs) as [dsC|] eqn:HC; [|discriminate].
    simpl in Hds. inversion Hds; subst ds; clear Hds.
    inversion Hnd as [|? ? Hnotin HndC]; subst.
    fold (Children f cs (Some fs1)).
    destruct (walkChildren_spec f IH cs dsC HC HndC fs1)
      as (fs2 & E2 & W2 & O2 & R2 & C2).
    { intros k Hk. unfold getNodeById. subst fs1; simpl.
      rewrite get_set_other; [apply Hun; now right|].
      intro E; subst; contradiction. }
    exists fs2. split; [exact E2|]. repeat split.
    + intros k [<-|Hk]; [|now apply W2].
      rewrite O2 by assumption. rewrite Hn. unfold getNodeById.
      subst fs1; simpl. now rewrite get_set_same.
    + intros k Hk. rewrite O2 by (intro K; apply Hk; now right).
      unfold getNodeById. subst fs1; simpl. apply get_set_other.
      intro E; apply Hk; subst; now left.
    + rewrite R2. reflexivity.
    + rewrite C2. reflexivity.
  - inversion Hds; subst ds. exists fs. split; [reflexivity|].
    repeat split.
    intros k [<-|[]]. rewrite Hself, Hn. reflexivity.
Qed.
End Walk.

(** A rename whose new path holds no [$], on a node whose subtree walk
    [ds] meets no id twice and only cached paths that extend the path of
    the node: the rename succeeds; under every id of [ds] the path has
    the new path in place of the old prefix, the name changes on the
    renamed node only, and id, content, parent, type and children are
    kept; every other entry of the table is as before. *)
Lemma renameNode_rebases_subtree
    (p newName : string) (now : Z) (fs : FileSystem) (node : FileNode)
    (ds : list string) :
  getNodeByPath fs p = Some node ->
  readOnly node = false ->
  getNodeByPath fs (childPath (getParentPath p) newName) = None ->
  JS.hasChar "$" (childPath (getParentPath p) newName) = false ->
  collectDescendants (depthBound fs) fs (id node) = Some ds ->
  NoDup ds ->
  (forall k n, In k ds -> getNodeById fs k = Some n ->
               JS.startsWith (path n) (path node) = true) ->
  exists fs',
    renameNode p newName now fs = Some (true, fs') /\
    (forall k n, In k ds -> getNodeById fs k = Some n ->
       exists n',
         getNodeById fs' k = Some n' /\
         path n'
         = rebase (path node) (childPath (getParentPath p) newName)
             (path n) /\
         id n' = id n /\ content n' = content n /\
         name n' = (if String.eqb k (id node) then newName else name n) /\
         parent n' = parent n /\ type n' = type n /\
         children n' = children n) /\
    (forall k, ~ In k ds -> getNodeById fs' k = getNodeById fs k).
Proof.
  intros Hnode Hro Hfree Hdollar Hds Hnd Hpre.
  destruct (updatePaths_spec (id node) newName now (path node)
              (childPath (getParentPath p) newName) fs
              (depthBound fs) (id node) ds Hds Hnd fs)
    as (fs' & E & W & O & _ & _); [intros k _; reflexivity|].
  exists fs'. split; [|split].
  - unfold renameNode. rewrite Hnode, Hro, Hfree, E. reflexivity.
  - intros k n Hk Hn. rewrite (W k Hk), Hn. simpl.
    eexists. split; [reflexivity|]. simpl.
    rewrite (replace_prefix _ _ _ (Hpre k n Hk Hn) Hdollar).
    repeat split.
  - exact O.
Qed.

(** The lemma at the example of the specification. *)
Example renameNode_rebases_subtree_on_seed :
  exists fs',
    renameNode "/data/logs" "log" 1 seed = Some (true, fs') /\
    (forall k n, In k ["uuid-12"; "uuid-18"] -> getNodeById seed k = Some n ->
       exists n',
         getNodeById fs' k = Some n' /\
         path n' = rebase "/data/logs" "/data/log" (path n) /\
         id n' = id n /\ content n' = content n /\
         name n' = (if String.eqb k "uuid-12" then "log" else name n) /\
         parent n' = parent n /\ type n' = type n /\
         children n' = children n) /\
    (forall k, ~ In k ["uuid-12"; "uuid-18"] ->
               getNodeById fs' k = getNodeById seed k).
Proof.
  destruct (getNodeByPath seed "/data/logs") as [node|] eqn:Hnode;
    [|vm_compute in Hnode; discriminate].
  assert (Hid : id node = "uuid-12" /\ path node = "/data/logs"
                /\ readOnly node = false).
  { vm_compute in Hnode. inversion Hnode; subst. repeat split. }
  destruct Hid as (Hid & Hpath & Hro).
  pose proof (renameNode_rebases_subtree "/data/logs" "log" 1 seed node
                ["uuid-12"; "uuid-18"] Hnode Hro) as T.
  rewrite Hid, Hpath in T.
  apply T.
  - vm_compute. reflexivity.
  - vm_compute. reflexivity.
  - vm_compute. reflexivity.
  - apply nodup_NoDup. vm_compute. reflexivity.
  - intros k n [<-|[<-|[]]] Hn; vm_compute in Hn; inversion Hn; subst;
      vm_compute; reflexivity.
Qed.

(** *** Rejected actions *)

Ltac case_split :=
  repeat match goal with
         | |- context [match ?x with _ => _ end] => destruct x eqn:?
         end.

Ltac rejected :=
  case_split; simpl; intros;
  try discriminate; try congruence;
  repeat match goal with
         | H : Some _ = Some _ |- _ => inversion H; clear H; subst
         | H : (_, _) = (_, _) |- _ => inversion H; clear H; subst
         end;
  try discriminate; try reflexivity.

Lemma setCurrentDirectory_rejected p fs :
  fst (setCurrentDirectory p fs) = false ->
  snd (setCurrentDirectory p fs) = fs.
Proof. unfold setCurrentDirectory. rejected. Qed.

Lemma createFile_rejected nm pp c u now fs :
  fst (createFile nm pp c u now fs) = None ->
  snd (createFile nm pp c u now fs) = fs.
Proof. unfold createFile. rejected. Qed.

Lemma createDirectory_rejected nm pp u now fs :
  fst (createDirectory nm pp u now fs) = None ->
  snd (createDirectory nm pp u now fs) = fs.
Proof. unfold createDirectory. rejected. Qed.

Lemma deleteNode_rejected p fs fs' :
  deleteNode p fs = Some (false, fs') -> fs' = fs.
Proof. unfold deleteNode. rejected. Qed.

Lemma renameNode_rejected p nn now fs fs' :
  renameNode p nn now fs = Some (false, fs') -> fs' = fs.
Proof. unfold renameNode, option_map. rejected. Qed.

Lemma moveNode_rejected sp dp now fs :
  fst (moveNode sp dp now fs) = false -> snd (moveNode sp dp now fs) = fs.
Proof. unfold moveNode. rejected. Qed.

Lemma updateFileContent_rejected p c now fs :
  fst (updateFileContent p c now fs) = false ->
  snd (updateFileContent p c now fs) = fs.
Proof. unfold updateFileContent. rejected. Qed.

Lemma importFilesystem_rejected parse data v :
  fst (importFilesystem parse data v) = false ->
  snd (importFilesystem parse data v) = v.
Proof. unfold importFilesystem. rejected. Qed.

(** The three rejections of [deleteNode] the specification names: no node
    at the path, a read-only node, the root. *)
Lemma deleteNode_guards p fs :
  match getNodeByPath fs p with
  | None => True
  | Some n => readOnly n = true \/ parent n = None
  end ->
  deleteNode p fs = Some (false, fs).
Proof.
  unfold deleteNode, noParent.
  destruct (getNodeByPath fs p) as [n|]; [|reflexivity].
  intros [H|H]; rewrite H; [reflexivity|].
  now rewrite orb_true_r.
Qed.

Example deleteNode_rejections_on_seed :
  deleteNode "/no/such/node" seed = Some (false, seed) /\
  deleteNode "/system" seed = Some (false, seed) /\
  deleteNode "/" seed = Some (false, seed).
Proof. repeat split; vm_compute; reflexivity. Qed.

(** C4.  Every action of the store that reports failure ([false] or
    [null]) leaves the stored filesystem as it was: whatever the action
    ([setCurrentDirectory], [createFile], [createDirectory], [deleteNode],
    [renameNode], [moveNode], [updateFileContent], [readFile],
    [importFilesystem]),
    its arguments and the state, if it returns a failure then the state
    after it is the state before it. *)
Theorem failed_action_leaves_tree :
  forall (JSON_parse : string -> option Json) (a : Action) (v : FsValue)
         (r : Returned) (v' : FsValue),
    run JSON_parse a v = Some (r, v') ->
    reportsFailure r = true ->
    v' = v.
Proof.
  intros parse a v r v' Hrun Hfail.
  destruct a, v; simpl in Hrun; try discriminate; unfold onTree in Hrun;
    repeat match type of Hrun with
           | match ?x with _ => _ end = _ =>
               destruct x as [[? ?]|] eqn:?; [|discriminate]
           end;
    inversion Hrun; subst; clear Hrun; simpl in *;
    try apply negb_true_iff in Hfail; subst.
  - f_equal. now apply setCurrentDirectory_rejected.
  - f_equal. apply createFile_rejected.
    match type of Hfail with
    | match ?x with _ => _ end = _ => destruct x; congruence
    end.
  - f_equal. apply createDirectory_rejected.
    match type of Hfail with
    | match ?x with _ => _ end = _ => destruct x; congruence
    end.
  - f_equal. eapply deleteNode_rejected; eassumption.
  - f_equal. eapply renameNode_rejected; eassumption.
  - f_equal. now apply moveNode_rejected.
  - f_equal. now apply updateFileContent_rejected.
  - reflexivity.
  - now apply importFilesystem_rejected.
  - now apply importFilesystem_rejected.
Qed.

(** A malformed blob, imported over the seed tree. *)
Lemma failed_action_leaves_tree_witness :
  run JsonText.parse (ImportFilesystem "{") (FsTree seed)
    = Some (RBool false, FsTree seed) /\
  reportsFailure (RBool false) = true /\
  FsTree seed = FsTree seed.
Proof.
  split; [vm_compute; reflexivity|]. split; [reflexivity|].
  apply (failed_action_leaves_tree JsonText.parse (ImportFilesystem "{")
           (FsTree seed) (RBool false) (FsTree seed));
    vm_compute; reflexivity.
Defined.

(** *** Snapshots *)

Section SnapshotProps.
Variable JSON_stringify : Json -> string.
Variable JSON_parse : string -> option Json.
Variable toISOString : Z -> string.

Lemma asStrList_map_JStr (cs : list string) :
  asStrList (map JStr cs) = Some cs.
Proof.
  unfold asStrList.
  induction cs as [|c cs IH]; simpl; [reflexivity|]. now rewrite IH.
Qed.

Lemma nodeOfJSON_nodeJSON (n : FileNode) :
  nodeOfJSON (nodeJSON toISOString n) = Some (isoNode toISOString n).
Proof.
  destruct n as [i nm ty p par pm ow gr sz cr mo c ch ro].
  unfold nodeJSON, isoNode; simpl.
  assert (Hsz : (0 <=? Z.of_nat sz)%Z = true) by (apply Z.leb_le; lia).
  destruct cr, mo, ty, par, c, ch as [cs|], ro; cbn;
    rewrite ?asStrList_map_JStr; cbn; rewrite Hsz, Nat2Z.id; reflexivity.
Qed.

Lemma nodesOfJSON_map (o : JS.obj FileNode) :
  nodesOfJSON (map (fun kv => (fst kv, nodeJSON toISOString (snd kv))) o)
  = Some (map (fun kv => (fst kv, isoNode toISOString (snd kv))) o).
Proof.
  unfold nodesOfJSON.
  induction o as [|[k n] o IH]; [reflexivity|].
  cbn [map fold_right fst snd].
  rewrite IH, nodeOfJSON_nodeJSON. reflexivity.
Qed.

Lemma treeOfJSON_treeJSON (fs : FileSystem) :
  treeOfJSON (treeJSON toISOString fs) = Some (isoTree toISOString fs).
Proof.
  unfold treeJSON, treeOfJSON; cbn. now rewrite nodesOfJSON_map.
Qed.

Lemma get_isoTree (o : JS.obj FileNode) (i : string) :
  JS.get i (map (fun kv => (fst kv, isoNode toISOString (snd kv))) o)
  = option_map (isoNode toISOString) (JS.get i o).
Proof.
  induction o as [|[k n] o IH]; simpl; [reflexivity|].
  destruct (String.eqb k i); [reflexivity|exact IH].
Qed.

(** The round trip, for any [JSON.stringify] and [JSON.parse] such that
    the second reads back the JSON data the first wrote for this tree. *)
Lemma export_import_codec (fs : FileSystem) :
  JSON_parse (JSON_stringify (treeJSON toISOString fs))
    = Some (treeJSON toISOString fs) ->
  exists fs',
    importFilesystem JSON_parse
      (exportFilesystem JSON_stringify toISOString (FsTree fs)) (FsTree fs)
      = (true, FsTree fs') /\
    root fs' = root fs /\
    currentDirectory fs' = currentDirectory fs /\
    JS.keys (nodes fs') = JS.keys (nodes fs) /\
    forall i : string,
      option_map core (getNodeById fs' i)
      = option_map core (getNodeById fs i).
Proof.
  intro Hcodec. exists (isoTree toISOString fs).
  unfold importFilesystem, exportFilesystem; simpl.
  rewrite Hcodec. unfold ofJSON. rewrite treeOfJSON_treeJSON.
  repeat split.
  - unfold JS.keys, isoTree; simpl. rewrite map_map. reflexivity.
  - intro i. unfold getNodeById, isoTree; simpl. rewrite get_isoTree.
    destruct (JS.get i (nodes fs)); reflexivity.
Qed.

(** C9.  [importFilesystem] returns [true] and replaces the stored
    filesystem by the parsed value for every text that parses, whatever
    the value: nothing about it is checked.  A value that does not read
    back as a tree, such as [null] or [42], is stored as it is, and the
    store then holds a value that is not a tree. *)
Theorem importFilesystem_accepts_any_json
    (data : string) (j : Json) (v : FsValue) :
  JSON_parse data = Some j ->
  importFilesystem JSON_parse data v = (true, ofJSON j) /\
  (treeOfJSON j = None -> ofJSON j = FsOther j) /\
  ofJSON JNull = FsOther JNull /\
  ofJSON (JNum 42) = FsOther (JNum 42).
Proof.
  intro H. unfold importFilesystem, ofJSON. rewrite H.
  repeat split. intro E. now rewrite E.
Qed.
End SnapshotProps.

(** C8.  For every filesystem tree, [exportFilesystem] followed at once
    by [importFilesystem] of the exported blob succeeds and stores a tree
    with the same root id, the same current-directory id, the same node
    ids in the same order, and for every node the same id, path, parent
    and content.  ([JSON.stringify] and [JSON.parse] are the reference
    printer and reader; [toISOString] is any rendering of dates.) *)
Theorem export_import_roundtrip :
  forall (toISOString : Z -> string) (fs : FileSystem),
  exists fs',
    importFilesystem JsonText.parse
      (exportFilesystem JsonText.stringify toISOString (FsTree fs))
      (FsTree fs)
      = (true, FsTree fs') /\
    root fs' = root fs /\
    currentDirectory fs' = currentDirectory fs /\
    JS.keys (nodes fs') = JS.keys (nodes fs) /\
    forall i : string,
      option_map core (getNodeById fs' i)
      = option_map core (getNodeById fs i).
Proof.
  intros toISOString fs.
  apply (export_import_codec JsonText.stringify JsonText.parse).
  apply JsonTextProps.parse_stringify.
Qed.

(** A tree-shaped blob is imported whatever its paths say: the seed tree
    after [moveNode] has left a stale path in it goes through export and
    import, and comes back with the stale path. *)
Example import_keeps_broken_invariant :
  let broken := snd (moveNode "/data/logs" "/home/user" 1 seed) in
  exists fs',
    importFilesystem JsonText.parse
      (exportFilesystem JsonText.stringify iso (FsTree broken))
      (FsTree seed)
      = (true, FsTree fs') /\
    pathInvariant fs' = false.
Proof. eexists. split; vm_compute; reflexivity. Qed.

(** The text [null], imported over the seed tree. *)
Lemma importFilesystem_accepts_any_json_witness :
  JsonText.parse "null" = Some JNull /\
  importFilesystem JsonText.parse "null" (FsTree seed)
    = (true, ofJSON JNull) /\
  (treeOfJSON JNull = None -> ofJSON JNull = FsOther JNull) /\
  ofJSON JNull = FsOther JNull /\
  ofJSON (JNum 42) = FsOther (JNum 42).
Proof.
  split; [vm_compute; reflexivity|].
  apply (importFilesystem_accepts_any_json JsonText.parse "null" JNull
           (FsTree seed)).
  vm_compute; reflexivity.
Defined.

(** After [null] or [42] is imported the store holds no tree, and the
    tree actions have nothing to run on. *)
Example import_null_then_act :
  snd (importFilesystem JsonText.parse "null" (FsTree seed)) = FsOther JNull /\
  snd (importFilesystem JsonText.parse "42" (FsTree seed))
    = FsOther (JNum 42) /\
  run JsonText.parse (CreateFile "a" "/" "" "uuid-19" 1) (FsOther JNull)
    = None.
Proof. repeat split; vm_compute; reflexivity. Qed.

End FilesystemProps.

(** ** Properties of the shell interpreter *)

Module TerminalProps.

Import Filesystem Fixture Terminal.
Local Open Scope string_scope.

(** *** Dispatch *)

(** C3.  The claim: the full input [rm -rf /] is recognized as a literal
    and reports an integrity delta of -100 without touching the tree.
    The interpreter dispatches on the first token: the input tokenizes to
    [rm] with the arguments [-rf] and [/], so the handler that runs is
    [rm], not the table entry ['rm -rf /'].  On the start-up stores the
    command returns exit code 0 with empty output, reports no delta at
    all (integrity stays 100), and leaves the tree as it was; the entry
    ['rm -rf /'], had it run, would have reported -100. *)
Theorem rm_rf_root_runs_rm :
  parseCommand initialTerminal "rm -rf /" = ("rm", ["-rf"; "/"]) /\
  JS.get "rm" commands = Some Rm /\
  (exists c w',
     exec "rm -rf /" world0 = Some (c, w') /\
     output c = "" /\ exitCode c = 0%Z /\
     System.integrityReports (wsys w') = [] /\
     System.integrity (wsys w') = 100%Z /\
     wfs w' = wfs world0) /\
  System.integrityReports (wsys (snd (rmRfRoot world0))) = [(-100)%Z].
Proof.
  split; [reflexivity|]. split; [reflexivity|]. split; [|reflexivity].
  eexists. eexists. split; [vm_compute; reflexivity|].
  repeat split; reflexivity.
Qed.

(** Whatever the stores, as long as [rm] is not an alias: the input
    [rm -rf /] reports no delta, and its output is not that of the entry
    ['rm -rf /']. *)

Lemma getNodeByPath_path fs p n :
  getNodeByPath fs p = Some n -> path n = resolvePath fs p.
Proof.
  unfold getNodeByPath. intro H. apply find_some in H.
  destruct H as [_ H]. now apply String.eqb_eq in H.
Qed.

Lemma countCommand_reports s :
  System.integrityReports (System.countCommand s) = System.integrityReports s
  /\ System.integrity (System.countCommand s) = System.integrity s.
Proof.
  unfold System.countCommand. destruct (System.user s); split; reflexivity.
Qed.

Section Dispatch.
Variable uuidv4 : nat -> string.
Variable now : Z.
Variable dateToString : Z -> string.
Variable toLocaleDateString : Date -> string.
Variable RegExp_gi : string -> option (string -> nat -> option nat).

Lemma parseCommand_rm_rf_root (t : TerminalState) :
  JS.get "rm" (aliases t) = None ->
  parseCommand t "rm -rf /" = ("rm", ["-rf"; "/"]).
Proof.
  intro H. unfold parseCommand, expandAlias.
  change (JS.trim "rm -rf /") with "rm -rf /".
  change (JS.firstField "rm -rf /") with "rm".
  rewrite H. reflexivity.
Qed.

Lemma rmLoop_root (w : World) (r : Result) (w' : World) :
  rmLoop true ["/"] w = Some (r, w') ->
  wsys w' = wsys w /\ r_output r <> "rm: destroying filesystem...".
Proof.
  simpl. destruct (getNodeByPath (wfs w) "/") as [node|] eqn:Hn.
  - apply getNodeByPath_path in Hn.
    change (resolvePath (wfs w) "/") with "/" in Hn. rewrite Hn.
    rewrite andb_false_r. simpl.
    destruct (deleteNode "/" (wfs w)) as [d|]; [|discriminate].
    intro H; inversion H; subst; clear H. split; [reflexivity|discriminate].
  - intro H; inversion H; subst; clear H. split; [reflexivity|discriminate].
Qed.

Lemma rm_rf_root_reports_nothing
    (w : World) (c : TerminalCommand) (w' : World) :
  JS.get "rm" (aliases (wterm w)) = None ->
  executeCommand uuidv4 now dateToString toLocaleDateString RegExp_gi
    "rm -rf /" w = Some (c, w') ->
  System.integrityReports (wsys w') = System.integrityReports (wsys w) /\
  System.integrity (wsys w') = System.integrity (wsys w) /\
  output c <> "rm: destroying filesystem...".
Proof.
  intros Halias. unfold executeCommand.
  rewrite (parseCommand_rm_rf_root _ Halias).
  change (JS.truthy "rm") with true. cbn [negb].
  change (JS.get "rm" commands) with (Some Rm).
  cbn [runBuiltin]. unfold rm.
  change (arg0 ["-rf"; "/"]) with (Some "-rf").
  change (includes "-r" ["-rf"; "/"] || includes "-rf" ["-rf"; "/"])
    with true.
  change (operands ["-rf"; "/"]) with ["/"].
  destruct (rmLoop true ["/"] w) as [[r w1]|] eqn:Hloop; [|discriminate].
  apply rmLoop_root in Hloop. destruct Hloop as [Hsys Hout].
  intro H; inversion H; subst; clear H. cbn.
  rewrite Hsys. destruct (countCommand_reports (wsys w)) as [-> ->].
  repeat split. exact Hout.
Qed.
End Dispatch.

(** No input selects the entry ['rm -rf /']: a token holds a space only
    if it holds a quote, and the key holds a space and no quote. *)

Lemma hasChar_app c s t :
  JS.hasChar c (s ++ t) = JS.hasChar c s || JS.hasChar c t.
Proof.
  induction s as [|a s IH]; simpl; [reflexivity|].
  rewrite IH. now rewrite orb_assoc.
Qed.

Lemma flushToken_quoted cur :
  quotedSpaces cur -> Forall quotedSpaces (JS.flushToken cur).
Proof.
  intro H. unfold JS.flushToken. destruct (JS.truthy cur); auto.
Qed.

Lemma matchTokens_quoted s :
  forall cur inq,
    quotedSpaces cur ->
    (inq = true -> JS.hasChar JS.dquote cur = true) ->
    Forall quotedSpaces (JS.matchTokens cur inq s).
Proof.
  induction s as [|c s IH]; intros cur inq Hcur Hinq; simpl.
  - now apply flushToken_quoted.
  - destruct inq.
    + apply IH.
      * intros _. rewrite hasChar_app, Hinq; reflexivity.
      * intros _. rewrite hasChar_app, Hinq; reflexivity.
    + destruct (Ascii.eqb c JS.dquote) eqn:Hq.
      * apply Ascii.eqb_eq in Hq. subst c.
        destruct (JS.hasChar JS.dquote s).
        -- apply IH; intros _; rewrite hasChar_app; simpl;
             now rewrite orb_true_r.
        -- apply Forall_app. split; [now apply flushToken_quoted|].
           apply IH; [intro H; discriminate H | discriminate].
      * destruct (JS.is_space c) eqn:Hs.
        -- apply Forall_app. split; [now apply flushToken_quoted|].
           apply IH; [intro H; discriminate H | discriminate].
        -- apply IH; [|discriminate].
           unfold quotedSpaces. rewrite !hasChar_app. simpl.
           rewrite !orb_false_r. intro H.
           apply orb_true_iff in H. destruct H as [H|H].
           ++ now rewrite (Hcur H).
           ++ apply Ascii.eqb_eq in H. subst c. discriminate Hs.
Qed.

Lemma lowerChar_space c : Ascii.eqb (JS.lowerChar c) " " = Ascii.eqb c " ".
Proof. destruct c as [[] [] [] [] [] [] [] []]; reflexivity. Qed.

Lemma lowerChar_dquote c :
  Ascii.eqb (JS.lowerChar c) JS.dquote = Ascii.eqb c JS.dquote.
Proof. destruct c as [[] [] [] [] [] [] [] []]; reflexivity. Qed.

Lemma hasChar_toLowerCase_space s :
  JS.hasChar " " (JS.toLowerCase s) = JS.hasChar " " s.
Proof.
  induction s as [|c s IH]; [reflexivity|].
  cbn [JS.hasChar JS.toLowerCase]. now rewrite lowerChar_space, IH.
Qed.

Lemma hasChar_toLowerCase_dquote s :
  JS.hasChar JS.dquote (JS.toLowerCase s) = JS.hasChar JS.dquote s.
Proof.
  induction s as [|c s IH]; [reflexivity|].
  cbn [JS.hasChar JS.toLowerCase]. now rewrite lowerChar_dquote, IH.
Qed.

Lemma toLowerCase_quoted s :
  quotedSpaces s -> quotedSpaces (JS.toLowerCase s).
Proof.
  unfold quotedSpaces.
  now rewrite hasChar_toLowerCase_space, hasChar_toLowerCase_dquote.
Qed.

Lemma parseCommand_quoted (t : TerminalState) (rawInput : string) :
  quotedSpaces (fst (parseCommand t rawInput)).
Proof.
  unfold parseCommand.
  pose proof (matchTokens_quoted (expandAlias t (JS.trim rawInput)) "" false)
    as H.
  destruct (JS.matchTokens "" false (expandAlias t (JS.trim rawInput)))
    as [|p rest]; simpl.
  - intro E; discriminate E.
  - apply toLowerCase_quoted.
    assert (F : Forall quotedSpaces (p :: rest))
      by (apply H; [intro E; discriminate E | discriminate]).
    now inversion F.
Qed.

Lemma commands_RmRfRoot k :
  JS.get k commands = Some RmRfRoot -> k = "rm -rf /".
Proof.
  unfold commands. cbn [JS.get].
  repeat match goal with
         | |- context [String.eqb ?a k] =>
             destruct (String.eqb a k) eqn:?; [try discriminate|]
         end; try discriminate.
  intros _. symmetry. now apply String.eqb_eq.
Qed.

Lemma scripted_entry_unreachable (t : TerminalState) (rawInput : string) :
  JS.get (fst (parseCommand t rawInput)) commands <> Some RmRfRoot.
Proof.
  intro H. apply commands_RmRfRoot in H.
  pose proof (parseCommand_quoted t rawInput) as Q.
  rewrite H in Q. specialize (Q eq_refl). discriminate Q.
Qed.

(** *** Exit codes *)

(** C6.  The claim: every handler turns a failure of the filesystem into
    a message and a nonzero exit code, [rm] in particular when
    [deleteNode] fails on an existing target.  [rm] drops the result of
    [deleteNode]: [/system] is read-only, [deleteNode] rejects it and
    leaves the tree as it was, and [rm -r /system] returns exit code 0
    with empty output (after reporting the delta -25). *)
Theorem rm_ignores_failed_deleteNode :
  option_map readOnly (getNodeByPath seed "/system") = Some true /\
  deleteNode "/system" seed = Some (false, seed) /\
  exists c w',
    exec "rm -r /system" world0 = Some (c, w') /\
    output c = "" /\ exitCode c = 0%Z /\
    wfs w' = seed /\
    System.integrityReports (wsys w') = [(-25)%Z].
Proof.
  split; [vm_compute; reflexivity|]. split; [vm_compute; reflexivity|].
  eexists. eexists. split; [vm_compute; reflexivity|].
  repeat split; reflexivity.
Qed.

(** Whatever the stores: on an existing read-only target [rm -r] returns
    exit code 0 with empty output, and the tree is as before. *)
Lemma rm_exit_code_on_readOnly
    (w : World) (target : string) (node : FileNode) :
  JS.startsWith target "-" = false ->
  getNodeByPath (wfs w) target = Some node ->
  readOnly node = true ->
  exists w1,
    rm ["-r"; target] w = Some (mkResult "" 0, w1) /\ wfs w1 = wfs w.
Proof.
  intros Hd Hn Hro. unfold rm.
  change (arg0 ["-r"; target]) with (Some "-r").
  assert (Hinc : includes "-r" ["-r"; target]
                 || includes "-rf" ["-r"; target] = true) by reflexivity.
  rewrite Hinc.
  assert (Hop : operands ["-r"; target] = [target]).
  { unfold operands. simpl. now rewrite Hd. }
  rewrite Hop. simpl. rewrite Hn, andb_false_r.
  destruct (JS.startsWith (path node) "/system"
            || String.eqb (path node) "/home/user");
    cbn [with_sys wfs];
    rewrite (FilesystemProps.deleteNode_guards target (wfs w))
      by (rewrite Hn; now left);
    eexists; split; reflexivity.
Qed.

(** [mkdir], next to it, does report the failure of [createDirectory]. *)
Example mkdir_reports_failed_createDirectory :
  option_map (fun r => (output (fst r), exitCode (fst r)))
    (exec "mkdir /system" world0)
  = Some ("mkdir: cannot create directory '/system'", 1%Z).
Proof. vm_compute. reflexivity. Qed.

(** *** [grep] *)

Section GrepProps.
Variable RegExp_gi : string -> option (string -> nat -> option nat).

(** C5.  The claim: [grep] outputs exactly the lines that match the
    pattern.  The regular expression carries the [g] flag, so [test]
    resumes each search where the previous match ended: on a file of
    the two lines [ab] and [ab], with the pattern [b] (which matches
    [ab] from index 0, the match ending at index 2, and does not match
    from index 2), [grep] outputs the first line only, although both
    lines match. *)
Theorem grep_skips_line_after_match
    (re : string -> nat -> option nat) (w : World) (f : string) :
  RegExp_gi "b" = Some re ->
  re "ab" 0 = Some 2 ->
  re "ab" 2 = None ->
  readFile (wfs w) f = Some twoLines ->
  grep RegExp_gi ["b"; f] w = mkResult "ab" 0 /\
  r_output (grep RegExp_gi ["b"; f] w) <> twoLines.
Proof.
  intros Hre H0 H2 Hfile.
  assert (E : grep RegExp_gi ["b"; f] w = mkResult "ab" 0).
  { unfold grep. rewrite Hfile, Hre.
    change (JS.split JS.LF twoLines) with ["ab"; "ab"].
    simpl. rewrite H0. simpl. rewrite H2. reflexivity. }
  split; [exact E|]. rewrite E. vm_compute. discriminate.
Qed.
End GrepProps.

Lemma grep_skips_line_after_match_witness :
  literalRegExp "b" = Some (literalSearch "b") /\
  literalSearch "b" "ab" 0 = Some 2 /\
  literalSearch "b" "ab" 2 = None /\
  readFile seedWithFile "ab.txt" = Some twoLines /\
  grep literalRegExp ["b"; "ab.txt"] (with_fs seedWithFile world0)
    = mkResult "ab" 0 /\
  r_output (grep literalRegExp ["b"; "ab.txt"] (with_fs seedWithFile world0))
    <> twoLines.
Proof.
  split; [reflexivity|]. split; [reflexivity|]. split; [reflexivity|].
  split; [vm_compute; reflexivity|].
  apply (grep_skips_line_after_match literalRegExp (literalSearch "b")
           (with_fs seedWithFile world0) "ab.txt");
    vm_compute; reflexivity.
Defined.

(** *** History navigation *)

(** C10.  With a non-empty command history and no cursor
    ([historyIndex] is -1), [navigateHistory('down')] returns the empty
    string and writes the empty string over the draft: the state after
    it is the state before it with [currentInput] emptied. *)
Theorem navigateHistory_down_without_cursor (t : TerminalState) :
  commandHistory t <> [] ->
  historyIndex t = (-1)%Z ->
  navigateHistory down t = ("", setCursor (-1) "" t) /\
  currentInput (snd (navigateHistory down t)) = "" /\
  historyIndex (snd (navigateHistory down t)) = (-1)%Z /\
  commandHistory (snd (navigateHistory down t)) = commandHistory t.
Proof.
  intros Hne Hidx.
  assert (E : navigateHistory down t = ("", setCursor (-1) "" t)).
  { unfold navigateHistory. rewrite Hidx.
    destruct (commandHistory t) as [|c l] eqn:Hh; [congruence|].
    replace (Z.of_nat (List.length (c :: l)) =? 0)%Z with false
      by (symmetry; apply Z.eqb_neq; simpl List.length; lia).
    replace (-1 =? Z.of_nat (List.length (c :: l)) - 1)%Z with false
      by (symmetry; apply Z.eqb_neq; simpl List.length; lia).
    reflexivity. }
  rewrite E. repeat split.
Qed.

(** The draft [cd /da] is lost. *)
Lemma navigateHistory_down_without_cursor_witness :
  commandHistory draftState <> [] /\
  historyIndex draftState = (-1)%Z /\
  currentInput draftState = "cd /da" /\
  navigateHistory down draftState = ("", setCursor (-1) "" draftState) /\
  currentInput (snd (navigateHistory down draftState)) = "" /\
  historyIndex (snd (navigateHistory down draftState)) = (-1)%Z /\
  commandHistory (snd (navigateHistory down draftState))
    = commandHistory draftState.
Proof.
  split; [discriminate|]. split; [reflexivity|]. split; [reflexivity|].
  apply (navigateHistory_down_without_cursor draftState);
    [discriminate|reflexivity].
Defined.

End TerminalProps.

(** ** Laws of the node table *)

Module TableLaws.

Import Filesystem Tree.
Local Open Scope string_scope.

Section Table.
Variable V : Type.

Lemma get_In (k : string) (v : V) (o : JS.obj V) :
  JS.get k o = Some v -> In (k, v) o.
Proof.
  induction o as [|[a b] o IH]; simpl; [discriminate|].
  destruct (String.eqb a k) eqn:E.
  - intro H. inversion H. subst. apply String.eqb_eq in E. subst. now left.
  - intro H. right. now apply IH.
Qed.

Lemma get_None_keys (k : string) (o : JS.obj V) :
  JS.get k o = None <-> ~ In k (JS.keys o).
Proof.
  induction o as [|[a b] o IH]; simpl; [tauto|].
  destruct (String.eqb a k) eqn:E.
  - apply String.eqb_eq in E. subst. split; [discriminate|tauto].
  - apply String.eqb_neq in E. rewrite IH. tauto.
Qed.

Lemma In_get (k : string) (v : V) (o : JS.obj V) :
  NoDup (JS.keys o) -> In (k, v) o -> JS.get k o = Some v.
Proof.
  induction o as [|[a b] o IH]; simpl; [tauto|].
  intros Hnd [H|H]; inversion Hnd; subst.
  - inversion H. subst. now rewrite String.eqb_refl.
  - destruct (String.eqb a k) eqn:E; [|now apply IH].
    apply String.eqb_eq in E. subst.
    exfalso. match goal with N : ~ In _ _ |- _ => apply N end.
    change k with (fst (k, v)). now apply in_map.
Qed.

Lemma In_set (k k' : string) (v v' : V) (o : JS.obj V) :
  In (k', v') (JS.set k v o) -> (k', v') = (k, v) \/ In (k', v') o.
Proof.
  induction o as [|[a b] o IH]; simpl.
  - intros [H|[]]. left. now symmetry.
  - destruct (String.eqb a k) eqn:E; simpl.
    + apply String.eqb_eq in E. subst.
      intros [H|H]; [left; now symmetry|tauto].
    + intros [H|H]; [tauto|]. destruct (IH H); tauto.
Qed.

Lemma keys_set (k : string) (v : V) (o : JS.obj V) :
  JS.keys (JS.set k v o)
  = if existsb (String.eqb k) (JS.keys o) then JS.keys o
    else (JS.keys o ++ [k])%list.
Proof.
  induction o as [|[a b] o IH]; simpl; [reflexivity|].
  rewrite (String.eqb_sym k a).
  destruct (String.eqb a k) eqn:E; simpl; [reflexivity|].
  unfold JS.keys in *. rewrite IH.
  now destruct (existsb (String.eqb k) (map fst o)).
Qed.

Lemma NoDup_keys_set (k : string) (v : V) (o : JS.obj V) :
  NoDup (JS.keys o) -> NoDup (JS.keys (JS.set k v o)).
Proof.
  intro H. rewrite keys_set.
  destruct (existsb (String.eqb k) (JS.keys o)) eqn:E; [exact H|].
  apply NoDup_rev in H. rewrite <- (rev_involutive (_ ++ _)%list).
  apply NoDup_rev. rewrite rev_app_distr. simpl.
  constructor; [|exact H].
  intro Hin. apply in_rev in Hin.
  assert (existsb (String.eqb k) (JS.keys o) = true); [|congruence].
  apply existsb_exists. exists k. split; [exact Hin|apply String.eqb_refl].
Qed.

Lemma keys_delete (k : string) (o : JS.obj V) :
  JS.keys (JS.delete k o)
  = filter (fun a => negb (String.eqb a k)) (JS.keys o).
Proof.
  induction o as [|[a b] o IH]; simpl; [reflexivity|].
  destruct (String.eqb a k); simpl; unfold JS.keys, JS.delete in *;
    now rewrite IH.
Qed.

Lemma get_delete (k k' : string) (o : JS.obj V) :
  JS.get k' (JS.delete k o)
  = if String.eqb k k' then None else JS.get k' o.
Proof.
  induction o as [|[a b] o IH]; simpl.
  - now destruct (String.eqb k k').
  - destruct (String.eqb a k) eqn:E; simpl.
    + apply String.eqb_eq in E. subst a. fold (JS.delete k o). rewrite IH.
      now destruct (String.eqb k k').
    + fold (JS.delete k o). rewrite IH.
      destruct (String.eqb a k') eqn:E'; [|reflexivity].
      apply String.eqb_eq in E'. subst a.
      rewrite String.eqb_sym, E. reflexivity.
Qed.

Lemma get_deletes (ds : list string) (k : string) :
  forall o : JS.obj V,
    JS.get k (fold_left (fun o i => JS.delete i o) ds o)
    = if existsb (String.eqb k) ds then None else JS.get k o.
Proof.
  induction ds as [|d ds IH]; intro o; simpl; [reflexivity|].
  rewrite IH, get_delete. rewrite (String.eqb_sym k d).
  destruct (String.eqb d k); simpl;
    now destruct (existsb (String.eqb k) ds).
Qed.

(** [find] over the values after an assignment. *)
Lemma find_set_new (P : V -> bool) (k : string) (v : V) (o : JS.obj V) :
  (forall x, In x (JS.values o) -> P x = false) -> P v = true ->
  find P (JS.values (JS.set k v o)) = Some v.
Proof.
  intros Hall Hv. induction o as [|[a b] o IH]; simpl.
  - now rewrite Hv.
  - destruct (String.eqb a k); simpl.
    + now rewrite Hv.
    + rewrite (Hall b) by now left. apply IH.
      intros x Hx. apply Hall. now right.
Qed.

Lemma find_set_other (P : V -> bool) (k : string) (v : V) (o : JS.obj V) :
  P v = false -> (forall x, JS.get k o = Some x -> P x = false) ->
  find P (JS.values (JS.set k v o)) = find P (JS.values o).
Proof.
  intros Hv. induction o as [|[a b] o IH]; simpl; intro Hold.
  - now rewrite Hv.
  - destruct (String.eqb a k) eqn:E; simpl.
    + rewrite Hv, (Hold b) by reflexivity. reflexivity.
    + destruct (P b); [reflexivity|]. now apply IH.
Qed.
End Table.

(** *** Tables keyed by id *)

Lemma nodup_iff (l : list string) : nodup l = true <-> NoDup l.
Proof.
  split; [apply FilesystemProps.nodup_NoDup|].
  induction 1 as [|x r Hx _ IH]; simpl; [reflexivity|].
  rewrite IH, andb_true_r. apply negb_true_iff.
  destruct (existsb (String.eqb x) r) eqn:E; [|reflexivity].
  apply existsb_exists in E. destruct E as [y [Hy E]].
  apply String.eqb_eq in E. subst. contradiction.
Qed.

Lemma keyedTable_spec (o : JS.obj FileNode) :
  keyedTable o = true <->
  (forall k n, In (k, n) o -> id n = k) /\ NoDup (JS.keys o).
Proof.
  unfold keyedTable. rewrite andb_true_iff, nodup_iff, forallb_forall.
  split; intros [H1 H2]; (split; [|exact H2]).
  - intros k n Hin. specialize (H1 _ Hin). simpl in H1.
    apply String.eqb_eq in H1. now symmetry.
  - intros [k n] Hin. simpl. apply String.eqb_eq. symmetry. now apply H1.
Qed.

Lemma keyedTable_get_id (o : JS.obj FileNode) (k : string) (n : FileNode) :
  keyedTable o = true -> JS.get k o = Some n -> id n = k.
Proof.
  intros H Hg. apply keyedTable_spec in H. destruct H as [H _].
  apply H. now apply get_In.
Qed.

Lemma keyedTable_value (o : JS.obj FileNode) (n : FileNode) :
  keyedTable o = true -> In n (JS.values o) -> JS.get (id n) o = Some n.
Proof.
  intros H Hin. apply keyedTable_spec in H. destruct H as [H Hnd].
  apply in_map_iff in Hin. destruct Hin as [[k m] [E Hin]]. simpl in E.
  subst m. rewrite (H _ _ Hin). now apply In_get.
Qed.

Lemma keyedTable_set (o : JS.obj FileNode) (k : string) (v : FileNode) :
  keyedTable o = true -> id v = k -> keyedTable (JS.set k v o) = true.
Proof.
  intros H Hid. apply keyedTable_spec in H. destruct H as [H Hnd].
  apply keyedTable_spec. split; [|now apply NoDup_keys_set].
  intros k' n Hin. apply In_set in Hin. destruct Hin as [E|Hin].
  - inversion E. now subst.
  - now apply H.
Qed.

Lemma keyedTable_delete (o : JS.obj FileNode) (k : string) :
  keyedTable o = true -> keyedTable (JS.delete k o) = true.
Proof.
  intros H. apply keyedTable_spec in H. destruct H as [H Hnd].
  apply keyedTable_spec. split.
  - intros k' n Hin. apply filter_In in Hin. now apply H.
  - rewrite keys_delete. now apply NoDup_filter.
Qed.

Lemma keyedTable_deletes (ds : list string) :
  forall o, keyedTable o = true ->
    keyedTable (fold_left (fun o i => JS.delete i o) ds o) = true.
Proof.
  induction ds as [|d ds IH]; intros o H; simpl; [exact H|].
  apply IH. now apply keyedTable_delete.
Qed.

Lemma getNodeByPath_In (fs : FileSystem) (p : string) (n : FileNode) :
  getNodeByPath fs p = Some n -> In n (JS.values (nodes fs)).
Proof.
  unfold getNodeByPath. intro H. now apply find_some in H.
Qed.

Lemma getNodeByPath_id (fs : FileSystem) (p : string) (n : FileNode) :
  keyed fs = true -> getNodeByPath fs p = Some n ->
  getNodeById fs (id n) = Some n.
Proof.
  intros Hk H. apply keyedTable_value; [exact Hk|].
  now apply getNodeByPath_In in H.
Qed.

Lemma pushChild_id (x : string) (n : FileNode) : id (pushChild x n) = id n.
Proof. reflexivity. Qed.

(** The walk of [renameNode] keeps the table keyed. *)
Lemma updatePaths_keyed (renamedId newName : string) (now : Z)
    (oldBase newBase : string) :
  forall fuel nodeId fs fs',
    keyed fs = true ->
    updatePaths fuel renamedId newName now oldBase newBase nodeId fs
      = Some fs' ->
    keyed fs' = true.
Proof.
  induction fuel as [|f IH]; intros nodeId fs fs' Hk H; [discriminate|].
  cbn [updatePaths] in H.
  destruct (getNodeById fs nodeId) as [n|] eqn:En;
    [|inversion H; now subst].
  assert (Hid : id n = nodeId) by (eapply keyedTable_get_id; eassumption).
  match type of H with
  | context [with_nodes (JS.set nodeId ?n' (nodes fs)) fs] =>
      set (fs1 := with_nodes (JS.set nodeId n' (nodes fs)) fs) in H;
      assert (Hk1 : keyed fs1 = true)
        by (apply keyedTable_set; [exact Hk|exact Hid])
  end.
  clearbody fs1.
  destruct (type n); [inversion H; now subst|].
  destruct (children n) as [cs|]; [|inversion H; now subst].
  clear En Hid Hk. revert fs1 Hk1 H.
  induction cs as [|c cs IHcs]; intros s Hs H; simpl in H.
  - inversion H. now subst.
  - destruct (updatePaths f renamedId newName now oldBase newBase c s)
      as [s'|] eqn:E.
    + apply (IHcs s'); [eapply IH; eassumption|exact H].
    + exfalso. clear -H. induction cs; simpl in H; [discriminate|auto].
Qed.

Lemma attach_keyed (n : FileNode) (o : JS.obj FileNode) :
  keyedTable o = true -> keyedTable (attach n o) = true.
Proof.
  intro H. unfold attach.
  assert (H1 : keyedTable (JS.set (id n) n o) = true)
    by now apply keyedTable_set.
  destruct (parent n) as [pid|]; [|exact H1].
  destruct (JS.get pid (JS.set (id n) n o)) as [par|] eqn:E; [|exact H1].
  apply keyedTable_set; [exact H1|].
  rewrite pushChild_id. eapply keyedTable_get_id; eassumption.
Qed.

Lemma attach_all_keyed (l : list FileNode) :
  forall o, keyedTable o = true ->
    keyedTable (fold_left (fun o n => attach n o) l o) = true.
Proof.
  induction l as [|n l IH]; intros o H; simpl; [exact H|].
  apply IH. now apply attach_keyed.
Qed.

Lemma createInitialFilesystem_keyed (toISOString : Z -> string)
    (uuidv4 : nat -> string) (now : Z) :
  keyed (createInitialFilesystem toISOString uuidv4 now) = true.
Proof.
  unfold keyed, createInitialFilesystem. cbv zeta. cbn [nodes].
  now apply attach_all_keyed.
Qed.

Lemma keyed_step (JSON_parse : string -> option Json) (a : Action)
    (fs fs' : FileSystem) (r : Returned) :
  keyed fs = true ->
  (forall data, a <> ImportFilesystem data) ->
  run JSON_parse a (FsTree fs) = Some (r, FsTree fs') ->
  keyed fs' = true.
Proof.
  intros Hk Hnot Hrun.
  destruct a; simpl in Hrun; unfold onTree in Hrun.
  - (* setCurrentDirectory *)
    inversion Hrun; subst. unfold setCurrentDirectory.
    destruct (getNodeByPath fs (resolvePath fs p)) as [n|]; [|exact Hk].
    destruct (type n); exact Hk.
  - (* createFile *)
    inversion Hrun; subst. unfold createFile.
    destruct (getNodeByPath fs parentPath) as [par|]; [|exact Hk].
    destruct (type par); [exact Hk|].
    destruct (getNodeByPath fs (childPath (path par) nm)); [exact Hk|].
    cbn [snd]. unfold keyed. cbn [nodes with_nodes id].
    apply keyedTable_set; [|reflexivity].
    now apply keyedTable_set.
  - (* createDirectory *)
    inversion Hrun; subst. unfold createDirectory.
    destruct (getNodeByPath fs parentPath) as [par|]; [|exact Hk].
    destruct (type par); [exact Hk|].
    destruct (getNodeByPath fs (childPath (path par) nm)); [exact Hk|].
    cbn [snd]. unfold keyed. cbn [nodes with_nodes id].
    apply keyedTable_set; [|reflexivity].
    now apply keyedTable_set.
  - (* deleteNode *)
    destruct (deleteNode p fs) as [[b s]|] eqn:E; [|discriminate].
    inversion Hrun; subst. clear Hrun. unfold deleteNode in E.
    destruct (getNodeByPath fs p) as [node|];
      [|inversion E; now subst].
    destruct (readOnly node || noParent node); [inversion E; now subst|].
    destruct (getNodeById fs _) as [par|] eqn:Ep;
      [|inversion E; now subst].
    destruct (collectDescendants _ fs (id node)) as [ds|]; [|discriminate].
    inversion E; subst. unfold keyed. cbn [nodes with_nodes].
    assert (Hd : keyedTable
                   (fold_left (fun o i => JS.delete i o) ds (nodes fs))
                 = true) by now apply keyedTable_deletes.
    destruct (children par); [|exact Hd].
    now apply keyedTable_set.
  - (* renameNode *)
    destruct (renameNode p newName now fs) as [[b s]|] eqn:E;
      [|discriminate].
    inversion Hrun; subst. clear Hrun. unfold renameNode in E.
    destruct (getNodeByPath fs p) as [node|];
      [|inversion E; now subst].
    destruct (readOnly node); [inversion E; now subst|].
    destruct (getNodeByPath fs _); [inversion E; now subst|].
    destruct (updatePaths _ _ _ _ _ _ _ fs) as [s'|] eqn:Eu;
      [|discriminate].
    inversion E; subst. eapply updatePaths_keyed; eassumption.
  - (* moveNode *)
    inversion Hrun; subst. unfold moveNode.
    destruct (getNodeByPath fs sourcePath) as [node|]; [|exact Hk].
    destruct (getNodeByPath fs destPath) as [dest|]; [|exact Hk].
    destruct (_ || _); [exact Hk|].
    destruct (if noParent node then None else _) as [oldParent|];
      [|exact Hk].
    destruct (getNodeByPath fs _); [exact Hk|].
    cbn [snd]. unfold keyed. cbn [nodes with_nodes].
    repeat (apply keyedTable_set; [|reflexivity]). exact Hk.
  - (* updateFileContent *)
    inversion Hrun; subst. unfold updateFileContent.
    destruct (getNodeByPath fs p) as [node|]; [|exact Hk].
    destruct (_ || _); [exact Hk|].
    cbn [snd]. unfold keyed. cbn [nodes with_nodes].
    now apply keyedTable_set.
  - inversion Hrun; now subst.
  - exfalso. now apply (Hnot data).
Qed.

End TableLaws.

(** ** Laws of paths *)

Module PathLaws.

Import Filesystem Tree FilesystemProps.
Local Open Scope string_scope.

Lemma normal_segments p :
  isNormalPath p = true ->
  exists segs,
    Forall (fun s => isSegment s = true) segs /\ p = "/" ++ JS.join "/" segs.
Proof.
  destruct p as [|c rest]; simpl; [discriminate|].
  intro H. apply andb_true_iff in H. destruct H as [Hc H].
  apply Ascii.eqb_eq in Hc. subst c.
  destruct rest as [|a t]; [exists []; split; [constructor|reflexivity]|].
  cbn [JS.truthy negb orb] in H.
  exists (JS.split "/" (String a t)). split.
  - apply Forall_forall. intros y Hy. rewrite forallb_forall in H. auto.
  - now rewrite (join_split "/").
Qed.

Lemma segments_forallb segs :
  Forall (fun s => isSegment s = true) segs -> forallb isSegment segs = true.
Proof.
  intro H. apply forallb_forall. now apply Forall_forall.
Qed.

Lemma split_normal segs :
  Forall (fun s => isSegment s = true) segs ->
  JS.split "/" ("/" ++ JS.join "/" segs)
  = "" :: match segs with [] => [""] | _ => segs end.
Proof.
  intro H.
  change (JS.split "/" ("/" ++ JS.join "/" segs))
    with ("" :: JS.split "/" (JS.join "/" segs)).
  f_equal. destruct segs as [|x r]; [reflexivity|].
  apply split_join; [discriminate|].
  eapply Forall_impl; [|exact H]. intros a Ha.
  now apply isSegment_spec in Ha.
Qed.

Lemma parts_normal segs :
  Forall (fun s => isSegment s = true) segs ->
  JS.filter_Boolean (JS.split "/" ("/" ++ JS.join "/" segs)) = segs.
Proof.
  intro H. rewrite (split_normal _ H).
  destruct segs as [|x r]; [reflexivity|].
  change (JS.filter_Boolean ("" :: x :: r))
    with (JS.filter_Boolean (x :: r)).
  apply filter_truthy_segments. now apply segments_forallb.
Qed.

Lemma join_snoc sep segs x :
  segs <> [] ->
  JS.join sep (segs ++ [x]) = JS.join sep segs ++ sep ++ x.
Proof.
  unfold JS.join. induction segs as [|a r IH]; [congruence|]. intros _.
  destruct r as [|b r']; [reflexivity|].
  change (String.concat sep ((a :: b :: r') ++ [x]))
    with (a ++ sep ++ String.concat sep ((b :: r') ++ [x])).
  rewrite IH by discriminate.
  change (String.concat sep (a :: b :: r'))
    with (a ++ sep ++ String.concat sep (b :: r')).
  now rewrite !JsonTextProps.append_assoc.
Qed.

Lemma join_truthy sep segs :
  segs <> [] -> Forall (fun s => isSegment s = true) segs ->
  JS.truthy (JS.join sep segs) = true.
Proof.
  intros Hne H. destruct segs as [|a r]; [congruence|].
  inversion H as [|? ? Ha _]; subst.
  apply isSegment_spec in Ha. destruct Ha as [Ha _].
  destruct a as [|c t]; [discriminate|].
  unfold JS.join. destruct r; reflexivity.
Qed.

Lemma childPath_join segs nm :
  Forall (fun s => isSegment s = true) segs ->
  childPath ("/" ++ JS.join "/" segs) nm
  = "/" ++ JS.join "/" (segs ++ [nm]).
Proof.
  intro H. destruct segs as [|x r]; [reflexivity|].
  pose proof (join_truthy "/" (x :: r)) as T.
  rewrite join_snoc by discriminate.
  destruct (JS.join "/" (x :: r)) as [|c t] eqn:E;
    [discriminate T; [discriminate|exact H]|].
  unfold childPath.
  change (String.eqb ("/" ++ String c t) "/") with false.
  reflexivity.
Qed.

Lemma last_elt_snoc l x : JS.last_elt (l ++ [x]) = Some x.
Proof. unfold JS.last_elt. now rewrite rev_app_distr. Qed.

Lemma isSegment_nonempty_list segs nm :
  Forall (fun s => isSegment s = true) segs -> isSegment nm = true ->
  Forall (fun s => isSegment s = true) (segs ++ [nm]).
Proof.
  intros H Hn. apply Forall_app. split; [exact H|]. now constructor.
Qed.

(** The parent path and the base name of a child path. *)
Lemma child_parts par nm :
  isNormalPath par = true -> isSegment nm = true ->
  isNormalPath (childPath par nm) = true /\
  getParentPath (childPath par nm) = par /\
  Terminal.baseName (childPath par nm) = nm.
Proof.
  intros Hp Hn. destruct (normal_segments _ Hp) as [segs [Hs ->]].
  rewrite (childPath_join _ _ Hs).
  pose proof (isSegment_nonempty_list _ _ Hs Hn) as Hall.
  split; [now apply isNormalPath_join|]. split.
  - unfold getParentPath. rewrite (parts_normal _ Hall).
    unfold JS.pop. now rewrite removelast_last.
  - unfold Terminal.baseName. rewrite (split_normal _ Hall).
    destruct (segs ++ [nm])%list eqn:E;
      [now destruct segs|].
    rewrite <- E.
    change ("" :: (segs ++ [nm])%list) with (("" :: segs) ++ [nm])%list.
    now rewrite last_elt_snoc.
Qed.

(** A normal path other than [/] is the child path of its parent path
    and its base name. *)
Lemma parts_child p :
  isNormalPath p = true -> p <> "/" ->
  isNormalPath (getParentPath p) = true /\
  isSegment (Terminal.baseName p) = true /\
  childPath (getParentPath p) (Terminal.baseName p) = p.
Proof.
  intros Hp Hne. destruct (normal_segments _ Hp) as [segs [Hs ->]].
  destruct (exists_last (l := segs)) as [init [lst ->]].
  { intro E. subst. now apply Hne. }
  apply Forall_app in Hs. destruct Hs as [Hi Hl].
  inversion Hl as [|? ? Hlst _]; subst.
  rewrite <- (childPath_join _ _ Hi).
  destruct (child_parts ("/" ++ JS.join "/" init) lst) as (_ & -> & ->);
    [now apply isNormalPath_join|exact Hlst|].
  split; [now apply isNormalPath_join|]. split; [exact Hlst|reflexivity].
Qed.

Lemma getParentPath_root : getParentPath "/" = "/".
Proof. reflexivity. Qed.

Lemma resolvePath_cwd fs fs' p :
  cwdPath fs = cwdPath fs' -> resolvePath fs p = resolvePath fs' p.
Proof. unfold resolvePath. now intros ->. Qed.

Lemma cwdPath_truthy fs : JS.truthy (cwdPath fs) = true.
Proof.
  unfold cwdPath. destruct (getCurrentDirectory fs) as [d|]; [|reflexivity].
  unfold JS.or_else. now destruct (JS.truthy (path d)) eqn:E.
Qed.

Lemma resolvePath_truthy fs p : JS.truthy (resolvePath fs p) = true.
Proof.
  unfold resolvePath.
  destruct (negb (JS.truthy p) || String.eqb p ".");
    [apply cwdPath_truthy|].
  destruct (String.eqb p "~"); [reflexivity|].
  destruct (JS.startsWith p "~/"); [reflexivity|].
  destruct (JS.startsWith p "/"); reflexivity.
Qed.

End PathLaws.

(** ** Laws of the filesystem actions *)

Module StoreLaws.

Import Filesystem Tree FilesystemProps TableLaws PathLaws.
Local Open Scope string_scope.

(** In a keyed table an assignment under the id of a stored node changes
    what [find] returns at that node only. *)
Lemma find_set_keyed (P : FileNode -> bool) (o : JS.obj FileNode)
    (k : string) (v old : FileNode) :
  keyedTable o = true -> JS.get k o = Some old -> P v = P old ->
  find P (JS.values (JS.set k v o))
  = option_map (fun x => if String.eqb (id x) k then v else x)
      (find P (JS.values o)).
Proof.
  intros Hk. apply keyedTable_spec in Hk. destruct Hk as [Hid Hnd].
  induction o as [|[a b] o IH]; simpl; [discriminate|].
  intros Hg HP.
  assert (Hab : id b = a) by (apply Hid; now left).
  inversion Hnd as [|? ? Hnot Hnd']; subst.
  destruct (String.eqb (id b) k) eqn:E; simpl.
  - inversion Hg; subst old. rewrite HP.
    destruct (P b); simpl; [now rewrite E|].
    destruct (find P (JS.values o)) as [x|] eqn:F; [|reflexivity].
    simpl. apply find_some in F. destruct F as [Hx _].
    apply in_map_iff in Hx. destruct Hx as [[kx x'] [Ex Hx]].
    simpl in Ex. subst x'.
    assert (id x = kx) by (apply Hid; now right). subst kx.
    destruct (String.eqb (id x) k) eqn:E'; [|reflexivity].
    apply String.eqb_eq in E, E'. exfalso. apply Hnot.
    rewrite E, <- E'. change (id x) with (fst (id x, x)).
    now apply in_map.
  - destruct (P b); simpl; [now rewrite E|].
    apply IH; auto. intros k' n Hin. apply Hid. now right.
Qed.

Lemma cwdPath_set fs k v old :
  JS.get k (nodes fs) = Some old -> path v = path old ->
  cwdPath (with_nodes (JS.set k v (nodes fs)) fs) = cwdPath fs.
Proof.
  intros Hg Hp. unfold cwdPath, getCurrentDirectory.
  cbn [nodes currentDirectory with_nodes].
  destruct (String.eqb (currentDirectory fs) k) eqn:E.
  - apply String.eqb_eq in E. rewrite E, get_set_same, Hg. now rewrite Hp.
  - apply String.eqb_neq in E. now rewrite get_set_other.
Qed.

Lemma freshId_spec fs u n :
  freshId fs u = true -> In n (JS.values (nodes fs)) -> id n <> u.
Proof.
  unfold freshId. rewrite forallb_forall. intros H Hin E.
  specialize (H _ Hin). rewrite E, String.eqb_refl in H. discriminate.
Qed.

Lemma get_value (V : Type) (k : string) (v : V) (o : JS.obj V) :
  JS.get k o = Some v -> In v (JS.values o).
Proof.
  intro H. apply get_In in H. change v with (snd (k, v)).
  now apply in_map.
Qed.

(** The table after [createFile] or [createDirectory] has stored the
    node [n] under the fresh id [u] below the parent [par]. *)
Lemma created_table fs par n u :
  freshId fs u = true ->
  In par (JS.values (nodes fs)) ->
  find (fun m => String.eqb (path m) (path n)) (JS.values (nodes fs)) = None ->
  let fs' :=
    with_nodes
      (JS.set (id par) (pushChild u par) (JS.set u n (nodes fs))) fs in
  getNodeById fs' u = Some n /\
  find (fun m => String.eqb (path m) (path n)) (JS.values (nodes fs'))
    = Some n /\
  getNodeById fs' (id par) = Some (pushChild u par).
Proof.
  intros Hf Hpar Hnone fs'.
  assert (Hne : id par <> u) by (eapply freshId_spec; eassumption).
  unfold getNodeById. subst fs'. cbn [nodes with_nodes].
  split; [|split].
  - rewrite get_set_other by congruence. apply get_set_same.
  - rewrite find_set_other.
    + apply find_set_new; [|apply String.eqb_refl].
      intros x Hx. eapply find_none in Hnone; eassumption.
    + change (path (pushChild u par)) with (path par).
      eapply find_none in Hnone; eassumption.
    + intros x Hx. rewrite get_set_other in Hx by exact Hne.
      apply get_value in Hx. eapply find_none in Hnone; eassumption.
  - apply get_set_same.
Qed.

Lemma getNodeByPath_normal fs p :
  isNormalPath p = true ->
  getNodeByPath fs p
  = find (fun m => String.eqb (path m) p) (JS.values (nodes fs)).
Proof.
  intro H. unfold getNodeByPath. now rewrite resolvePath_fixed.
Qed.

Lemma createFile_spec nm pp c u now fs n fs' :
  createFile nm pp c u now fs = (Some n, fs') ->
  exists par,
    getNodeByPath fs pp = Some par /\ type par = directory /\
    getNodeByPath fs (childPath (path par) nm) = None /\
    n = mkNode u nm file (childPath (path par) nm) (Some (id par))
          "rw-r--r--" "user" "user" (String.length c) (DateObj now)
          (DateObj now) (Some c) None None /\
    fs' = with_nodes
            (JS.set (id par) (pushChild u par) (JS.set u n (nodes fs))) fs.
Proof.
  unfold createFile. intro H.
  destruct (getNodeByPath fs pp) as [par|]; [|discriminate].
  destruct (type par) eqn:T; [discriminate|].
  destruct (getNodeByPath fs (childPath (path par) nm)) eqn:E;
    [discriminate|].
  inversion H; subst. exists par. repeat split; auto.
Qed.

Lemma createDirectory_spec nm pp u now fs n fs' :
  createDirectory nm pp u now fs = (Some n, fs') ->
  exists par,
    getNodeByPath fs pp = Some par /\ type par = directory /\
    getNodeByPath fs (childPath (path par) nm) = None /\
    n = mkNode u nm directory (childPath (path par) nm) (Some (id par))
          "rwxr-xr-x" "user" "user" 0 (DateObj now) (DateObj now) None
          (Some []) None /\
    fs' = with_nodes
            (JS.set (id par) (pushChild u par) (JS.set u n (nodes fs))) fs.
Proof.
  unfold createDirectory. intro H.
  destruct (getNodeByPath fs pp) as [par|]; [|discriminate].
  destruct (type par) eqn:T; [discriminate|].
  destruct (getNodeByPath fs (childPath (path par) nm)) eqn:E;
    [discriminate|].
  inversion H; subst. exists par. repeat split; auto.
Qed.

(** X1.  A file created under a fresh id at a normal path can be read
    back: it is stored under its id, [getNodeByPath] finds it at its
    path, [readFile] returns the content it was created with, and
    [getChildren] of its parent directory lists it last. *)
Theorem createFile_then_readFile :
  forall (nm pp c u : string) (now : Z) (fs fs' : FileSystem) (n : FileNode),
    freshId fs u = true ->
    createFile nm pp c u now fs = (Some n, fs') ->
    isNormalPath (path n) = true ->
    getNodeById fs' u = Some n /\
    getNodeByPath fs' (path n) = Some n /\
    readFile fs' (path n) = Some c /\
    exists par l,
      getNodeByPath fs pp = Some par /\ parent n = Some (id par) /\
      getChildren fs' (id par) = (l ++ [n])%list.
Proof.
  intros nm pp c u now fs fs' n Hf H Hn.
  destruct (createFile_spec _ _ _ _ _ _ _ _ H)
    as (par & Hp & Ht & He & En & Efs).
  assert (Hnone :
    find (fun m => String.eqb (path m) (path n)) (JS.values (nodes fs))
    = None).
  { rewrite <- (getNodeByPath_normal _ _ Hn). now rewrite En. }
  destruct (created_table fs par n u Hf (getNodeByPath_In _ _ _ Hp) Hnone)
    as (G1 & G2 & G3).
  rewrite <- Efs in G1, G2, G3.
  assert (Gp : getNodeByPath fs' (path n) = Some n)
    by now rewrite (getNodeByPath_normal _ _ Hn).
  split; [exact G1|]. split; [exact Gp|]. split.
  - unfold readFile. rewrite Gp. now rewrite En.
  - exists par. eexists.
    split; [exact Hp|]. split; [now rewrite En|].
    unfold getChildren. unfold getNodeById in G1, G3. rewrite G3.
    cbn [type pushChild with_children children]. rewrite Ht.
    rewrite flat_map_app. cbn [flat_map]. rewrite G1. reflexivity.
Qed.

(** X2.  A directory created under a fresh id at a normal path exists
    from then on: [getNodeByPath] finds it, it is empty, and
    [setCurrentDirectory] enters it; creating the same path once more,
    as a file or as a directory, is refused. *)
Theorem createDirectory_then_enter :
  forall (nm pp u : string) (now : Z) (fs fs' : FileSystem) (n : FileNode),
    freshId fs u = true ->
    createDirectory nm pp u now fs = (Some n, fs') ->
    isNormalPath (path n) = true ->
    getNodeByPath fs' (path n) = Some n /\
    getChildren fs' u = [] /\
    setCurrentDirectory (path n) fs'
      = (true, with_currentDirectory u fs') /\
    (forall nm2 pp2 c2 u2 now2 par2,
       getNodeByPath fs' pp2 = Some par2 ->
       childPath (path par2) nm2 = path n ->
       createFile nm2 pp2 c2 u2 now2 fs' = (None, fs') /\
       createDirectory nm2 pp2 u2 now2 fs' = (None, fs')).
Proof.
  intros nm pp u now fs fs' n Hf H Hn.
  destruct (createDirectory_spec _ _ _ _ _ _ _ H)
    as (par & Hp & Ht & He & En & Efs).
  assert (Hnone :
    find (fun m => String.eqb (path m) (path n)) (JS.values (nodes fs))
    = None).
  { rewrite <- (getNodeByPath_normal _ _ Hn). now rewrite En. }
  destruct (created_table fs par n u Hf (getNodeByPath_In _ _ _ Hp) Hnone)
    as (G1 & G2 & G3).
  rewrite <- Efs in G1, G2, G3.
  assert (Gp : getNodeByPath fs' (path n) = Some n)
    by now rewrite (getNodeByPath_normal _ _ Hn).
  split; [exact Gp|]. split; [|split].
  - unfold getChildren. unfold getNodeById in G1. rewrite G1.
    now rewrite En.
  - unfold setCurrentDirectory.
    rewrite (resolvePath_fixed _ _ Hn), Gp. now rewrite En.
  - intros nm2 pp2 c2 u2 now2 par2 Hp2 Hc.
    unfold createFile, createDirectory. rewrite Hp2, Hc, Gp.
    now destruct (type par2).
Qed.

(** X3.  After a successful [updateFileContent] on a keyed table,
    [readFile] at the same path returns the new content, and the size of
    the node is the length of that content; a path that resolves
    elsewhere reads what it read before. *)
Theorem updateFileContent_then_readFile :
  forall (p c : string) (now : Z) (fs fs' : FileSystem),
    keyed fs = true ->
    updateFileContent p c now fs = (true, fs') ->
    readFile fs' p = Some c /\
    option_map size (getNodeByPath fs' p) = Some (String.length c) /\
    forall q, resolvePath fs q <> resolvePath fs p ->
              readFile fs' q = readFile fs q.
Proof.
  intros p c now fs fs' Hk H. unfold updateFileContent in H.
  destruct (getNodeByPath fs p) as [node|] eqn:Hp; [|discriminate].
  destruct (negb (NodeType_eqb (type node) file) || readOnly node) eqn:G;
    [discriminate|].
  inversion H; subst fs'; clear H.
  apply orb_false_iff in G. destruct G as [G _].
  apply negb_false_iff in G.
  assert (T : type node = file) by (destruct (type node); [auto|discriminate]).
  pose proof (getNodeByPath_id _ _ _ Hk Hp) as Hg. unfold getNodeById in Hg.
  set (node' := with_modified (DateObj now) (with_content c node)).
  set (fs' := with_nodes (JS.set (id node) node' (nodes fs)) fs).
  assert (Hcwd : cwdPath fs' = cwdPath fs)
    by (apply (cwdPath_set fs _ _ node); [exact Hg|reflexivity]).
  assert (Hfind : forall q,
    getNodeByPath fs' q
    = option_map (fun x => if String.eqb (id x) (id node) then node' else x)
        (getNodeByPath fs q)).
  { intro q. unfold getNodeByPath.
    rewrite (resolvePath_cwd fs' fs q Hcwd). subst fs'.
    cbn [nodes with_nodes].
    apply (find_set_keyed _ _ _ _ node); [exact Hk|exact Hg|reflexivity]. }
  assert (Hp' : getNodeByPath fs' p = Some node').
  { rewrite Hfind, Hp. simpl. now rewrite String.eqb_refl. }
  split; [|split].
  - unfold readFile. rewrite Hp'. subst node'. simpl. now rewrite T.
  - now rewrite Hp'.
  - intros q Hq. unfold readFile. rewrite Hfind.
    destruct (getNodeByPath fs q) as [x|] eqn:Hx; [|reflexivity]. simpl.
    destruct (String.eqb (id x) (id node)) eqn:E; [|reflexivity].
    exfalso. apply Hq. apply String.eqb_eq in E.
    pose proof (getNodeByPath_id _ _ _ Hk Hx) as Gx.
    unfold getNodeById in Gx. rewrite E, Hg in Gx. inversion Gx; subst x.
    rewrite <- (TerminalProps.getNodeByPath_path _ _ _ Hx).
    now rewrite <- (TerminalProps.getNodeByPath_path _ _ _ Hp).
Qed.

(** After a successful [setCurrentDirectory] on a keyed table the current
    directory is the directory found at the resolved path. *)
Lemma setCurrentDirectory_spec p fs fs' :
  keyed fs = true ->
  setCurrentDirectory p fs = (true, fs') ->
  exists n,
    getCurrentDirectory fs' = Some n /\ type n = directory /\
    path n = resolvePath fs (resolvePath fs p) /\
    cwdPath fs' = path n /\ nodes fs' = nodes fs /\ root fs' = root fs.
Proof.
  intros Hk H. unfold setCurrentDirectory in H.
  destruct (getNodeByPath fs (resolvePath fs p)) as [n|] eqn:Hn;
    [|discriminate].
  destruct (type n) eqn:T; [discriminate|].
  inversion H; subst fs'; clear H. exists n.
  pose proof (getNodeByPath_id _ _ _ Hk Hn) as Hg.
  pose proof (TerminalProps.getNodeByPath_path _ _ _ Hn) as Hpath.
  assert (Hc : getCurrentDirectory (with_currentDirectory (id n) fs) = Some n)
    by exact Hg.
  repeat split; auto.
  unfold cwdPath. rewrite Hc. unfold JS.or_else.
  rewrite Hpath, resolvePath_truthy. reflexivity.
Qed.

(** What a successful [deleteNode] does to the table. *)
Lemma deleteNode_spec p fs fs' :
  deleteNode p fs = Some (true, fs') ->
  exists node pid par ds,
    getNodeByPath fs p = Some node /\ readOnly node = false /\
    parent node = Some pid /\ getNodeById fs pid = Some par /\
    collectDescendants (depthBound fs) fs (id node) = Some ds /\
    In (id node) ds /\
    fs' = with_nodes
            (match children par with
             | Some cs =>
                 JS.set (id par)
                   (with_children
                      (Some (filter (fun i => negb (String.eqb i (id node)))
                               cs)) par)
                   (fold_left (fun o i => JS.delete i o) ds (nodes fs))
             | None => fold_left (fun o i => JS.delete i o) ds (nodes fs)
             end) fs.
Proof.
  unfold deleteNode. intro H.
  destruct (getNodeByPath fs p) as [node|]; [|discriminate].
  destruct (readOnly node || noParent node) eqn:G; [discriminate|].
  apply orb_false_iff in G. destruct G as [Gr Gp].
  unfold noParent in Gp.
  destruct (parent node) as [pid|] eqn:Ep; [|discriminate].
  destruct (getNodeById fs pid) as [par|] eqn:Epar; [|discriminate].
  destruct (collectDescendants (depthBound fs) fs (id node)) as [ds|] eqn:Ed;
    [|discriminate].
  inversion H; subst fs'. exists node, pid, par, ds.
  repeat split; auto.
  unfold depthBound in Ed. cbn [collectDescendants] in Ed.
  destruct (getNodeById fs (id node)) as [m|];
    [|inversion Ed; now left].
  destruct (type m); [inversion Ed; now left|].
  destruct (children m); [|inversion Ed; now left].
  match type of Ed with
  | option_map _ ?x = _ => destruct x; [|discriminate]
  end.
  inversion Ed. now left.
Qed.

Lemma existsb_In k ds : existsb (String.eqb k) ds = true <-> In k ds.
Proof.
  rewrite existsb_exists. split.
  - intros [x [Hx E]]. apply String.eqb_eq in E. now subst.
  - intro H. exists k. split; [exact H|apply String.eqb_refl].
Qed.

(** X4.  A successful [deleteNode] removes the node and all the ids
    [collectDescendants] gathers below it, takes the node out of the
    child list of its parent, and leaves every other entry, the root and
    the current-directory pointer as they were. *)
Theorem deleteNode_removes_subtree :
  forall (p : string) (fs fs' : FileSystem),
    keyed fs = true ->
    deleteNode p fs = Some (true, fs') ->
    exists node par ds,
      getNodeByPath fs p = Some node /\
      parent node = Some (id par) /\
      getNodeById fs (id par) = Some par /\
      collectDescendants (depthBound fs) fs (id node) = Some ds /\
      In (id node) ds /\
      (forall k, In k ds -> k <> id par -> getNodeById fs' k = None) /\
      (forall k, ~ In k ds -> k <> id par ->
                 getNodeById fs' k = getNodeById fs k) /\
      (forall cs, children par = Some cs ->
         getNodeById fs' (id par)
         = Some (with_children
                   (Some (filter (fun i => negb (String.eqb i (id node))) cs))
                   par)) /\
      root fs' = root fs /\ currentDirectory fs' = currentDirectory fs.
Proof.
  intros p fs fs' Hk H.
  destruct (deleteNode_spec _ _ _ H)
    as (node & pid & par & ds & Hn & _ & Hpar & Hg & Hd & Hin & ->).
  assert (Hid : id par = pid) by (eapply keyedTable_get_id; eassumption).
  subst pid. exists node, par, ds.
  repeat (split; [assumption|]).
  unfold getNodeById. cbn [nodes with_nodes root currentDirectory].
  split; [|split; [|split; [|split; reflexivity]]].
  - intros k Hkin Hne.
    destruct (children par);
      [rewrite get_set_other by exact Hne|];
      rewrite get_deletes;
      now rewrite (proj2 (existsb_In k ds) Hkin).
  - intros k Hkin Hne.
    assert (E : existsb (String.eqb k) ds = false).
    { destruct (existsb (String.eqb k) ds) eqn:E; [|reflexivity].
      apply existsb_In in E. contradiction. }
    destruct (children par);
      [rewrite get_set_other by exact Hne|];
      rewrite get_deletes; now rewrite E.
  - intros cs Hcs. rewrite Hcs. apply get_set_same.
Qed.

(** X5.  [deleteNode] does not move the current directory: when the
    deleted node is the current directory (and not its own parent), the
    pointer dangles afterwards: [getCurrentDirectory] returns [null], and
    the path of the current directory reads [/]. *)
Theorem deleteNode_of_current_directory :
  forall (p : string) (fs fs' : FileSystem) (node : FileNode),
    keyed fs = true ->
    getNodeByPath fs p = Some node ->
    currentDirectory fs = id node ->
    parent node <> Some (id node) ->
    deleteNode p fs = Some (true, fs') ->
    currentDirectory fs' = id node /\
    getCurrentDirectory fs' = None /\
    cwdPath fs' = "/" /\
    resolvePath fs' "." = "/".
Proof.
  intros p fs fs' node Hk Hn Hcd Hself H.
  destruct (deleteNode_spec _ _ _ H)
    as (node' & pid & par & ds & Hn' & _ & Hpar & Hg & Hd & Hin & ->).
  rewrite Hn in Hn'. inversion Hn'; subst node'; clear Hn'.
  assert (Hid : id par = pid) by (eapply keyedTable_get_id; eassumption).
  assert (Hne : id node <> id par) by congruence.
  assert (Hc : getCurrentDirectory
                 (with_nodes
                    (match children par with
                     | Some cs =>
                         JS.set (id par)
                           (with_children
                              (Some (filter
                                       (fun i => negb (String.eqb i (id node)))
                                       cs)) par)
                           (fold_left (fun o i => JS.delete i o) ds (nodes fs))
                     | None =>
                         fold_left (fun o i => JS.delete i o) ds (nodes fs)
                     end) fs) = None).
  { unfold getCurrentDirectory. cbn [nodes with_nodes currentDirectory].
    rewrite Hcd.
    destruct (children par);
      [rewrite get_set_other by exact Hne|];
      rewrite get_deletes;
      now rewrite (proj2 (existsb_In _ ds) Hin). }
  assert (Hw : forall fs0, getCurrentDirectory fs0 = None -> cwdPath fs0 = "/").
  { intros fs0 E. unfold cwdPath. now rewrite E. }
  split; [exact Hcd|]. split; [exact Hc|]. split; [now apply Hw|].
  unfold resolvePath; simpl; now apply Hw.
Qed.

End StoreLaws.

(** ** Invariants of the tree *)

Module TreeLaws.

Import Filesystem Tree Fixture.
Import FilesystemProps TableLaws PathLaws StoreLaws.
Local Open Scope string_scope.

(** X6.  Off the [~/] branch, and with a normal cached path for the
    current directory, [resolvePath] returns a normal path (a slash
    followed by segments other than [.] and [..], none empty, no slash
    at the end), resolving once more changes nothing, and a look-up by
    the resolved path is the look-up by the path. *)
Theorem resolvePath_normal_form :
  forall (fs : FileSystem) (p : string),
    JS.startsWith p "~/" = false ->
    isNormalPath (cwdPath fs) = true ->
    isNormalPath (resolvePath fs p) = true /\
    resolvePath fs (resolvePath fs p) = resolvePath fs p /\
    getNodeByPath fs (resolvePath fs p) = getNodeByPath fs p.
Proof.
  intros fs p Hh Hc.
  destruct (resolvePath_normalizes fs p Hh Hc) as [N I].
  split; [exact N|]. split; [exact I|].
  unfold getNodeByPath. now rewrite I.
Qed.

(** X7.  Paths come apart the way they are put together: of the child
    path of a normal path and a segment, [getParentPath] is the parent
    path and the base name [touch] and [mkdir] split off is the segment;
    and a normal path other than [/] is the child path of its parent
    path and its base name.  The parent path of [/] is [/]. *)
Theorem parent_path_and_base_name :
  forall (par nm p : string),
    (isNormalPath par = true -> isSegment nm = true ->
     isNormalPath (childPath par nm) = true /\
     getParentPath (childPath par nm) = par /\
     Terminal.baseName (childPath par nm) = nm) /\
    (isNormalPath p = true -> p <> "/" ->
     isNormalPath (getParentPath p) = true /\
     isSegment (Terminal.baseName p) = true /\
     childPath (getParentPath p) (Terminal.baseName p) = p) /\
    getParentPath "/" = "/".
Proof.
  intros par nm p. split; [apply child_parts|].
  split; [apply parts_child|reflexivity].
Qed.

(** X8.  The table stays keyed by id: the seed tree is, whatever
    [uuidv4()] returns, and every action of the store on a tree, the
    import of a snapshot apart, keeps it so. *)
Theorem actions_keep_table_keyed :
  forall (JSON_parse : string -> option Json) (a : Action)
         (fs fs' : FileSystem) (r : Returned),
    keyed fs = true ->
    (forall data, a <> ImportFilesystem data) ->
    run JSON_parse a (FsTree fs) = Some (r, FsTree fs') ->
    keyed fs' = true /\
    forall toISOString uuidv4 now,
      keyed (createInitialFilesystem toISOString uuidv4 now) = true.
Proof.
  intros parse a fs fs' r Hk Hn Hrun.
  split; [eapply keyed_step; eassumption|].
  apply createInitialFilesystem_keyed.
Qed.

(** *** The path invariant *)

Lemma values_set (V : Type) (k : string) (v m : V) (o : JS.obj V) :
  In m (JS.values (JS.set k v o)) -> m = v \/ In m (JS.values o).
Proof.
  intro H. apply in_map_iff in H. destruct H as [[a b] [E H]].
  simpl in E. subst b. apply In_set in H. destruct H as [H|H].
  - inversion H. now left.
  - right. change m with (snd (a, m)). now apply in_map.
Qed.

Lemma pathConsistent_ext fs fs' n :
  (forall pid, option_map path (getNodeById fs' pid)
               = option_map path (getNodeById fs pid)) ->
  pathConsistent fs' n = pathConsistent fs n.
Proof.
  intro H. unfold pathConsistent. destruct (parent n) as [pid|]; auto.
  specialize (H pid).
  destruct (getNodeById fs' pid), (getNodeById fs pid); simpl in H;
    try discriminate; auto.
  inversion H. now rewrite H1.
Qed.

Lemma invariant_replace fs k v old :
  JS.get k (nodes fs) = Some old ->
  path v = path old -> name v = name old -> parent v = parent old ->
  pathInvariant fs = true ->
  pathInvariant (with_nodes (JS.set k v (nodes fs)) fs) = true.
Proof.
  intros Hg Hp Hn Hpar Hinv. unfold pathInvariant in *.
  rewrite forallb_forall in *. intros m Hm.
  cbn [nodes with_nodes] in Hm.
  rewrite (pathConsistent_ext fs).
  - apply values_set in Hm. destruct Hm as [->|Hm]; [|now apply Hinv].
    assert (E : pathConsistent fs v = pathConsistent fs old).
    { unfold pathConsistent. now rewrite Hp, Hn, Hpar. }
    rewrite E. apply Hinv. eapply get_value. exact Hg.
  - intro pid. unfold getNodeById. cbn [nodes with_nodes].
    destruct (String.eqb pid k) eqn:E.
    + apply String.eqb_eq in E. subst pid.
      rewrite get_set_same, Hg. simpl. now rewrite Hp.
    + apply String.eqb_neq in E. now rewrite get_set_other.
Qed.

Lemma invariant_add fs u n :
  JS.get u (nodes fs) = None ->
  pathConsistent (with_nodes (JS.set u n (nodes fs)) fs) n = true ->
  pathInvariant fs = true ->
  pathInvariant (with_nodes (JS.set u n (nodes fs)) fs) = true.
Proof.
  intros Hg Hn Hinv. unfold pathInvariant in *.
  rewrite forallb_forall in *. intros m Hm.
  cbn [nodes with_nodes] in Hm.
  apply values_set in Hm. destruct Hm as [->|Hm]; [exact Hn|].
  specialize (Hinv _ Hm). unfold pathConsistent in *.
  destruct (parent m) as [pid|]; [|exact Hinv].
  unfold getNodeById in *. cbn [nodes with_nodes].
  destruct (String.eqb pid u) eqn:E.
  - apply String.eqb_eq in E. subst pid. now rewrite Hg in Hinv.
  - apply String.eqb_neq in E. now rewrite get_set_other.
Qed.

Lemma fresh_get fs u :
  keyed fs = true -> freshId fs u = true -> JS.get u (nodes fs) = None.
Proof.
  intros Hk Hf. destruct (JS.get u (nodes fs)) as [x|] eqn:E; [|reflexivity].
  exfalso. apply (freshId_spec fs u x Hf).
  - eapply get_value. exact E.
  - eapply keyedTable_get_id; eassumption.
Qed.

Lemma invariant_created fs par n u :
  keyed fs = true -> freshId fs u = true ->
  In par (JS.values (nodes fs)) ->
  parent n = Some (id par) ->
  path n = childPath (path par) (name n) ->
  pathInvariant fs = true ->
  pathInvariant
    (with_nodes (JS.set (id par) (pushChild u par) (JS.set u n (nodes fs)))
       fs) = true.
Proof.
  intros Hk Hf Hin Hpar Hpath Hinv.
  pose proof (fresh_get _ _ Hk Hf) as Hu.
  pose proof (keyedTable_value _ _ Hk Hin) as Hg.
  assert (Hne : id par <> u) by (eapply freshId_spec; eassumption).
  change (with_nodes
            (JS.set (id par) (pushChild u par) (JS.set u n (nodes fs))) fs)
    with (with_nodes
            (JS.set (id par) (pushChild u par)
               (nodes (with_nodes (JS.set u n (nodes fs)) fs)))
            (with_nodes (JS.set u n (nodes fs)) fs)).
  apply (invariant_replace _ _ _ par); try reflexivity.
  - cbn [nodes with_nodes]. now rewrite get_set_other.
  - apply invariant_add; [exact Hu| |exact Hinv].
    unfold pathConsistent, getNodeById. cbn [nodes with_nodes].
    rewrite Hpar, get_set_other, Hg by exact Hne.
    rewrite Hpath. apply String.eqb_refl.
Qed.

(** X9.  On a keyed table that satisfies the path invariant (the cached
    path of every node is the path of its parent joined with its name),
    [createFile] and [createDirectory] under a fresh id,
    [updateFileContent] and [setCurrentDirectory] leave a table that
    satisfies it. *)
Theorem path_invariant_kept :
  forall (fs : FileSystem),
    keyed fs = true ->
    pathInvariant fs = true ->
    (forall nm pp c u now,
       freshId fs u = true ->
       pathInvariant (snd (createFile nm pp c u now fs)) = true) /\
    (forall nm pp u now,
       freshId fs u = true ->
       pathInvariant (snd (createDirectory nm pp u now fs)) = true) /\
    (forall p c now,
       pathInvariant (snd (updateFileContent p c now fs)) = true) /\
    (forall p, pathInvariant (snd (setCurrentDirectory p fs)) = true).
Proof.
  intros fs Hk Hinv. split; [|split; [|split]].
  - intros nm pp c u now Hf. unfold createFile.
    destruct (getNodeByPath fs pp) as [par|] eqn:Hp; [|exact Hinv].
    destruct (type par); [exact Hinv|].
    destruct (getNodeByPath fs (childPath (path par) nm)); [exact Hinv|].
    cbn [snd id]. apply invariant_created; auto.
    now apply getNodeByPath_In in Hp.
  - intros nm pp u now Hf. unfold createDirectory.
    destruct (getNodeByPath fs pp) as [par|] eqn:Hp; [|exact Hinv].
    destruct (type par); [exact Hinv|].
    destruct (getNodeByPath fs (childPath (path par) nm)); [exact Hinv|].
    cbn [snd id]. apply invariant_created; auto.
    now apply getNodeByPath_In in Hp.
  - intros p c now. unfold updateFileContent.
    destruct (getNodeByPath fs p) as [node|] eqn:Hp; [|exact Hinv].
    destruct (_ || _); [exact Hinv|]. cbn [snd].
    apply (invariant_replace _ _ _ node); try reflexivity; [|exact Hinv].
    now apply getNodeByPath_id in Hp.
  - intro p. unfold setCurrentDirectory.
    destruct (getNodeByPath fs (resolvePath fs p)) as [n|]; [|exact Hinv].
    destruct (type n); exact Hinv.
Qed.

End TreeLaws.

(** ** The shape of the tree, and the walks that always come back *)

Module ShapeLaws.

Import Filesystem Tree FilesystemProps TableLaws PathLaws StoreLaws TreeLaws.
Local Open Scope string_scope.

(** *** The checks and their readings *)

Lemma linked_spec (fs : FileSystem) :
  linked fs = true -> Linked fs.
Proof.
  intros H k n c Hk Hc. unfold linked in H.
  rewrite forallb_forall in H. specialize (H (k, n) (get_In _ _ _ _ Hk)).
  cbn [fst snd] in H. rewrite forallb_forall in H. specialize (H c Hc).
  destruct (getNodeById fs c) as [m|]; [|discriminate].
  destruct (parent m) as [p|] eqn:Hp; [|discriminate].
  apply String.eqb_eq in H. subst p. now exists m.
Qed.

Lemma Linked_check (fs : FileSystem) :
  NoDup (JS.keys (nodes fs)) -> Linked fs -> linked fs = true.
Proof.
  intros Hnd H. unfold linked. apply forallb_forall. intros [k n] Hin.
  apply forallb_forall. intros c Hc. cbn [fst snd] in *.
  destruct (H k n c (In_get _ _ _ _ Hnd Hin) Hc) as (m & Hm & Hp).
  rewrite Hm, Hp. apply String.eqb_refl.
Qed.

Lemma listed_spec (fs : FileSystem) :
  listed fs = true -> Listed fs.
Proof.
  intros H k n p Hk Hp. unfold listed in H.
  rewrite forallb_forall in H. specialize (H (k, n) (get_In _ _ _ _ Hk)).
  cbn [fst snd] in H. rewrite Hp in H.
  destruct (getNodeById fs p) as [q|]; [|discriminate].
  exists q. split; [reflexivity|]. now apply existsb_In.
Qed.

Lemma Listed_check (fs : FileSystem) :
  NoDup (JS.keys (nodes fs)) -> Listed fs -> listed fs = true.
Proof.
  intros Hnd H. unfold listed. apply forallb_forall. intros [k n] Hin.
  cbn [fst snd]. destruct (parent n) as [p|] eqn:Hp; [|reflexivity].
  destruct (H k n p (In_get _ _ _ _ Hnd Hin) Hp) as (q & Hq & Hc).
  rewrite Hq. now apply existsb_In.
Qed.

(** *** Depth *)

Lemma Depth_fun (fs : FileSystem) (k : string) (d1 : nat) :
  Depth fs k d1 -> forall d2, Depth fs k d2 -> d1 = d2.
Proof.
  induction 1 as [k n Hk Hp|k n p d Hk Hp Hd IH]; intros d2 H2;
    inversion H2; subst; try congruence.
  f_equal. apply IH. congruence.
Qed.

Lemma Depth_get (fs : FileSystem) (k : string) (d : nat) :
  Depth fs k d -> exists n, getNodeById fs k = Some n.
Proof. destruct 1; eauto. Qed.

Lemma depthOf_sound (fs : FileSystem) :
  forall f k d, depthOf f fs k = Some d -> Depth fs k d.
Proof.
  induction f as [|f IH]; intros k d H; simpl in H;
    destruct (getNodeById fs k) as [n|] eqn:Hk; try discriminate;
    destruct (parent n) as [p|] eqn:Hp; try discriminate.
  - inversion H; subst. eapply Depth_top; eauto.
  - destruct (depthOf f fs p) as [d'|] eqn:Hd; [|discriminate].
    inversion H; subst. eapply Depth_step; eauto.
  - inversion H; subst. eapply Depth_top; eauto.
Qed.

Lemma depthOf_complete (fs : FileSystem) (k : string) (d : nat) :
  Depth fs k d -> forall f, d <= f -> depthOf f fs k = Some d.
Proof.
  induction 1 as [k n Hk Hp|k n p d Hk Hp Hd IH]; intros f Hf.
  - destruct f; simpl; now rewrite Hk, Hp.
  - destruct f as [|f]; [lia|]. simpl. rewrite Hk, Hp.
    now rewrite IH by lia.
Qed.

(** The ancestors of a node are as many distinct keys as its depth. *)
Lemma Depth_chain (fs : FileSystem) (k : string) (d : nat) :
  Depth fs k d ->
  exists l,
    List.length l = S d /\ NoDup l /\ incl l (JS.keys (nodes fs)) /\
    forall x, In x l -> exists dx, Depth fs x dx /\ dx <= d.
Proof.
  assert (Hkey : forall k n, getNodeById fs k = Some n ->
                             In k (JS.keys (nodes fs))).
  { intros a n Ha. apply get_In in Ha.
    unfold JS.keys. now apply (in_map fst) in Ha. }
  induction 1 as [k n Hk Hp|k n p d Hk Hp Hd IH].
  - exists [k]. repeat split.
    + constructor; [intros []|constructor].
    + intros x [<-|[]]. eauto.
    + intros x [<-|[]]. exists 0. split; [eapply Depth_top; eauto|lia].
  - destruct IH as (l & Hl & Hnd & Hin & Hdx).
    exists (k :: l). repeat split.
    + simpl. now rewrite Hl.
    + constructor; [|exact Hnd]. intro Hk'.
      destruct (Hdx k Hk') as (dx & Hd1 & Hle).
      assert (Hd2 : Depth fs k (S d)) by (eapply Depth_step; eauto).
      pose proof (Depth_fun _ _ _ Hd1 _ Hd2). lia.
    + intros x [<-|Hx]; [eauto|now apply Hin].
    + intros x [<-|Hx].
      * exists (S d). split; [eapply Depth_step; eauto|lia].
      * destruct (Hdx x Hx) as (dx & H1 & H2). exists dx. split; [|lia].
        exact H1.
Qed.

Lemma Depth_bound (fs : FileSystem) (k : string) (d : nat) :
  Depth fs k d -> d < List.length (nodes fs).
Proof.
  intro H. destruct (Depth_chain _ _ _ H) as (l & Hl & Hnd & Hin & _).
  pose proof (NoDup_incl_length Hnd Hin) as Hle.
  unfold JS.keys in Hle. rewrite length_map in Hle. lia.
Qed.

Lemma rooted_spec (fs : FileSystem) : rooted fs = true -> Rooted fs.
Proof.
  intros H k n Hk. unfold rooted in H. rewrite forallb_forall in H.
  specialize (H (k, n) (get_In _ _ _ _ Hk)). cbn [fst] in H.
  destruct (depthOf (List.length (nodes fs)) fs k) as [d|] eqn:Hd;
    [|discriminate].
  exists d. eapply depthOf_sound; eauto.
Qed.

Lemma Rooted_check (fs : FileSystem) :
  NoDup (JS.keys (nodes fs)) -> Rooted fs -> rooted fs = true.
Proof.
  intros Hnd H. unfold rooted. apply forallb_forall. intros [k n] Hin.
  cbn [fst]. destruct (H k n (In_get _ _ _ _ Hnd Hin)) as (d & Hd).
  rewrite (depthOf_complete _ _ _ Hd); [reflexivity|].
  pose proof (Depth_bound _ _ _ Hd). lia.
Qed.

Lemma distinct_spec (fs : FileSystem) : distinct fs = true -> Distinct fs.
Proof.
  intros H k n Hk. unfold distinct in H. rewrite forallb_forall in H.
  apply nodup_iff. exact (H (k, n) (get_In _ _ _ _ Hk)).
Qed.

Lemma Distinct_check (fs : FileSystem) :
  NoDup (JS.keys (nodes fs)) -> Distinct fs -> distinct fs = true.
Proof.
  intros Hnd H. unfold distinct. apply forallb_forall. intros [k n] Hin.
  apply nodup_iff. exact (H k n (In_get _ _ _ _ Hnd Hin)).
Qed.

Lemma wellShaped_spec (fs : FileSystem) :
  wellShaped fs = true <->
  keyed fs = true /\ Linked fs /\ Listed fs /\ Rooted fs /\ Distinct fs.
Proof.
  unfold wellShaped. rewrite !andb_true_iff. split.
  - intros ((((Hk & Hl) & Hli) & Hr) & Hn).
    auto 6 using linked_spec, listed_spec, rooted_spec, distinct_spec.
  - intros (Hk & Hl & Hli & Hr & Hn).
    assert (Hnd : NoDup (JS.keys (nodes fs)))
      by (now apply keyedTable_spec in Hk).
    repeat split;
      auto using Linked_check, Listed_check, Rooted_check, Distinct_check.
Qed.

(** Depths carry over to a table that keeps the parents of the nodes it
    keeps. *)
Lemma Depth_transfer (fs fs' : FileSystem) (keep : string -> Prop) :
  (forall k n, keep k -> getNodeById fs k = Some n ->
     (exists n', getNodeById fs' k = Some n' /\ parent n' = parent n) /\
     (forall p, parent n = Some p -> keep p)) ->
  forall k d, Depth fs k d -> keep k -> Depth fs' k d.
Proof.
  intros H k d Hd. induction Hd as [k n Hk Hp|k n p d Hk Hp Hd IH];
    intro Hkeep; destruct (H k n Hkeep Hk) as ((n' & Hn' & Hpar) & Hup).
  - eapply Depth_top; eauto. congruence.
  - eapply Depth_step; eauto. congruence.
Qed.

(** *** The two walks, unfolded once *)

Lemma collectDescendants_unfold (f : nat) (fs : FileSystem) (k : string) :
  collectDescendants (S f) fs k
  = match getNodeById fs k with
    | None => Some [k]
    | Some n => option_map (cons k) (collectChildren fs f (childrenOf n))
    end.
Proof.
  simpl. destruct (getNodeById fs k) as [n|]; [|reflexivity].
  unfold childrenOf. destruct (type n), (children n); reflexivity.
Qed.

Lemma collectChildren_cons (fs : FileSystem) (f : nat) (c : string)
    (cs : list string) :
  collectChildren fs f (c :: cs)
  = match collectDescendants f fs c, collectChildren fs f cs with
    | Some l, Some r => Some (l ++ r)%list
    | _, _ => None
    end.
Proof. reflexivity. Qed.

Lemma collectChildren_total (fs : FileSystem) (f : nat) (cs : list string) :
  (forall c, In c cs -> collectDescendants f fs c <> None) ->
  collectChildren fs f cs <> None.
Proof.
  induction cs as [|c cs IH]; intro H; [discriminate|].
  rewrite collectChildren_cons.
  destruct (collectDescendants f fs c) eqn:E;
    [|exfalso; apply (H c); [now left|exact E]].
  destruct (collectChildren fs f cs) eqn:E2; [discriminate|].
  exfalso. apply IH; [|reflexivity]. intros; apply H; now right.
Qed.

Lemma collectChildren_In (fs : FileSystem) (f : nat) (x : string) :
  forall cs ds,
    collectChildren fs f cs = Some ds ->
    (In x ds <->
     exists c l, In c cs /\ collectDescendants f fs c = Some l /\ In x l).
Proof.
  induction cs as [|c cs IH]; intros ds H.
  - inversion H; subst. split; [intros []|intros (c & l & [] & _)].
  - rewrite collectChildren_cons in H.
    destruct (collectDescendants f fs c) as [l|] eqn:E; [|discriminate].
    destruct (collectChildren fs f cs) as [r|] eqn:E2; [|discriminate].
    inversion H; subst. rewrite in_app_iff, (IH r eq_refl). split.
    + intros [Hx|(c' & l' & Hc & Hl & Hx)].
      * exists c, l. repeat split; auto. now left.
      * exists c', l'. repeat split; auto. now right.
    + intros (c' & l' & [<-|Hc] & Hl & Hx).
      * left. congruence.
      * right. now exists c', l'.
Qed.

Lemma collectChildren_each (fs : FileSystem) (f : nat) :
  forall cs ds c,
    collectChildren fs f cs = Some ds -> In c cs ->
    exists l, collectDescendants f fs c = Some l.
Proof.
  induction cs as [|c0 cs IH]; intros ds c H Hc; [destruct Hc|].
  rewrite collectChildren_cons in H.
  destruct (collectDescendants f fs c0) as [l|] eqn:E; [|discriminate].
  destruct (collectChildren fs f cs) as [r|] eqn:E2; [|discriminate].
  destruct Hc as [<-|Hc]; [eauto|]. eapply IH; eauto.
Qed.

Lemma updatePaths_unfold (f : nat) (rid nn : string) (now : Z)
    (ob nb : string) (k : string) (s : FileSystem) :
  updatePaths (S f) rid nn now ob nb k s
  = match getNodeById s k with
    | None => Some s
    | Some n =>
        walkChildren rid nn now ob nb f (childrenOf n)
          (Some (with_nodes
                   (JS.set k (renamed rid nn now ob nb k n) (nodes s)) s))
    end.
Proof.
  simpl. destruct (getNodeById s k) as [n|]; [|reflexivity].
  unfold childrenOf, walkChildren.
  destruct (type n), (children n); reflexivity.
Qed.

(** *** What the walk of [deleteNode] collects *)

Lemma collect_head (f : nat) (fs : FileSystem) (k : string)
    (ds : list string) :
  collectDescendants f fs k = Some ds -> In k ds.
Proof.
  destruct f as [|f]; [discriminate|]. rewrite collectDescendants_unfold.
  destruct (getNodeById fs k) as [n|].
  - destruct (collectChildren fs f (childrenOf n)); [|discriminate].
    intro H; inversion H. now left.
  - intro H; inversion H. now left.
Qed.

(** The collected ids are closed under the child lists of the table. *)
Lemma collect_closed (fs : FileSystem) :
  forall f k ds,
    collectDescendants f fs k = Some ds ->
    forall a n c,
      In a ds -> getNodeById fs a = Some n -> In c (childrenOf n) ->
      In c ds.
Proof.
  induction f as [|f IH]; intros k ds H a n c Ha Hn Hc; [discriminate|].
  rewrite collectDescendants_unfold in H.
  destruct (getNodeById fs k) as [nk|] eqn:Hk.
  - destruct (collectChildren fs f (childrenOf nk)) as [r|] eqn:Hr;
      [|discriminate].
    inversion H; subst ds. right.
    destruct Ha as [<-|Ha].
    + assert (n = nk) by congruence. subst n.
      destruct (collectChildren_each _ _ _ _ _ Hr Hc) as (l & Hl).
      apply (collectChildren_In _ _ c _ _ Hr).
      exists c, l. repeat split; auto. eapply collect_head; eauto.
    + apply (collectChildren_In _ _ a _ _ Hr) in Ha.
      destruct Ha as (c0 & l & Hc0 & Hl & Hal).
      apply (collectChildren_In _ _ c _ _ Hr).
      exists c0, l. repeat split; auto. eapply IH; eauto.
  - inversion H; subst ds. destruct Ha as [<-|[]]. congruence.
Qed.

(** Every collected id but the first is in the child list of a collected
    node. *)
Lemma collect_from (fs : FileSystem) :
  forall f k ds,
    collectDescendants f fs k = Some ds ->
    forall x, In x ds ->
      x = k \/
      exists a n, In a ds /\ getNodeById fs a = Some n /\
                  In x (childrenOf n).
Proof.
  induction f as [|f IH]; intros k ds H x Hx; [discriminate|].
  rewrite collectDescendants_unfold in H.
  destruct (getNodeById fs k) as [nk|] eqn:Hk.
  - destruct (collectChildren fs f (childrenOf nk)) as [r|] eqn:Hr;
      [|discriminate].
    inversion H; subst ds.
    destruct Hx as [<-|Hx]; [now left|]. right.
    apply (collectChildren_In _ _ x _ _ Hr) in Hx.
    destruct Hx as (c0 & l & Hc0 & Hl & Hxl).
    destruct (IH _ _ Hl x Hxl) as [->|(a & n & Ha & Hn & Hxn)].
    + exists k, nk. repeat split; auto. now left.
    + exists a, n. repeat split; auto. right.
      apply (collectChildren_In _ _ a _ _ Hr). now exists c0, l.
  - inversion H; subst ds. destruct Hx as [<-|[]]. now left.
Qed.

(** No collected node lies higher than the first. *)
Lemma collect_depth (fs : FileSystem) :
  Linked fs ->
  forall f k ds,
    collectDescendants f fs k = Some ds ->
    forall dk, Depth fs k dk ->
    forall x dx, In x ds -> Depth fs x dx -> dk <= dx.
Proof.
  intro HL. induction f as [|f IH]; intros k ds H dk Hdk x dx Hx Hdx;
    [discriminate|].
  rewrite collectDescendants_unfold in H.
  destruct (getNodeById fs k) as [nk|] eqn:Hk.
  - destruct (collectChildren fs f (childrenOf nk)) as [r|] eqn:Hr;
      [|discriminate].
    inversion H; subst ds.
    destruct Hx as [<-|Hx]; [pose proof (Depth_fun _ _ _ Hdk _ Hdx); lia|].
    apply (collectChildren_In _ _ x _ _ Hr) in Hx.
    destruct Hx as (c0 & l & Hc0 & Hl & Hxl).
    destruct (HL k nk c0 Hk Hc0) as (m & Hm & Hp).
    assert (Hd0 : Depth fs c0 (S dk)) by (eapply Depth_step; eauto).
    pose proof (IH _ _ Hl _ Hd0 x dx Hxl Hdx). lia.
  - inversion H; subst ds. destruct Hx as [<-|[]].
    pose proof (Depth_fun _ _ _ Hdk _ Hdx); lia.
Qed.

(** *** The walks come back *)

Lemma collectDescendants_deep (fs : FileSystem) :
  Linked fs ->
  forall f k d,
    Depth fs k d -> List.length (nodes fs) <= d + f ->
    collectDescendants f fs k <> None.
Proof.
  intro HL. induction f as [|f IH]; intros k d Hd Hle.
  - pose proof (Depth_bound _ _ _ Hd). lia.
  - rewrite collectDescendants_unfold.
    destruct (Depth_get _ _ _ Hd) as (n & Hn). rewrite Hn.
    assert (H : collectChildren fs f (childrenOf n) <> None).
    { apply collectChildren_total. intros c Hc.
      destruct (HL k n c Hn Hc) as (m & Hm & Hp).
      apply (IH c (S d)); [eapply Depth_step; eauto|lia]. }
    destruct (collectChildren fs f (childrenOf n)); [discriminate|].
    now elim H.
Qed.

Lemma collectDescendants_returns (fs : FileSystem) :
  Linked fs -> Rooted fs ->
  forall k, collectDescendants (depthBound fs) fs k <> None.
Proof.
  intros HL HR k. destruct (getNodeById fs k) as [n|] eqn:Hk.
  - destruct (HR k n Hk) as (d & Hd).
    apply (collectDescendants_deep _ HL _ _ _ Hd). unfold depthBound. lia.
  - unfold depthBound. rewrite collectDescendants_unfold, Hk. discriminate.
Qed.

Lemma links_renamed (rid nn : string) (now : Z) (ob nb k : string)
    (n : FileNode) :
  links (renamed rid nn now ob nb k n) = links n.
Proof. reflexivity. Qed.

Lemma sameLinks_refl (fs : FileSystem) : sameLinks fs fs.
Proof. intro k; reflexivity. Qed.

Lemma sameLinks_set (fs0 s : FileSystem) (k : string) (v old : FileNode) :
  sameLinks fs0 s -> getNodeById s k = Some old -> links v = links old ->
  sameLinks fs0 (with_nodes (JS.set k v (nodes s)) s).
Proof.
  intros H Hold Hv a. rewrite <- (H a).
  unfold getNodeById in *; cbn [nodes with_nodes].
  destruct (String.eqb a k) eqn:E.
  - apply String.eqb_eq in E. subst a. rewrite get_set_same, Hold.
    cbn [option_map]. now rewrite Hv.
  - apply String.eqb_neq in E. now rewrite get_set_other by exact E.
Qed.

Section Rename.
Variables (rid nn : string) (now : Z) (ob nb : string).
Variable fs0 : FileSystem.
Hypothesis HL : Linked fs0.

Lemma updatePaths_deep :
  forall f k s,
    sameLinks fs0 s ->
    (getNodeById fs0 k = None /\ 1 <= f \/
     exists d, Depth fs0 k d /\ List.length (nodes fs0) <= d + f) ->
    exists s',
      updatePaths f rid nn now ob nb k s = Some s' /\ sameLinks fs0 s'.
Proof.
  induction f as [|f IH]; intros k s Hs Hk.
  - destruct Hk as [[_ H]|(d & Hd & Hle)]; [lia|].
    pose proof (Depth_bound _ _ _ Hd). lia.
  - rewrite updatePaths_unfold.
    pose proof (Hs k) as Hsk.
    destruct (getNodeById s k) as [n|] eqn:Hn; [|now exists s].
    destruct (getNodeById fs0 k) as [n0|] eqn:Hn0; [|discriminate].
    cbn [option_map] in Hsk. inversion Hsk as [[Hpar Hkids]].
    destruct Hk as [[Hnone _]|(d & Hd & Hle)]; [discriminate|].
    set (s1 := with_nodes _ s).
    assert (Hs1 : sameLinks fs0 s1).
    { apply sameLinks_set with (old := n); auto using links_renamed. }
    clearbody s1. rewrite Hkids.
    assert (Hcs : forall c, In c (childrenOf n0) -> Depth fs0 c (S d)).
    { intros c Hc. destruct (HL k n0 c Hn0 Hc) as (m & Hm & Hp).
      eapply Depth_step; eauto. }
    clear Hkids Hpar Hsk Hn. revert s1 Hs1.
    induction (childrenOf n0) as [|c cs IHcs]; intros s1 Hs1.
    + now exists s1.
    + cbn [walkChildren fold_left].
      destruct (IH c s1 Hs1) as (s2 & H2 & Hs2).
      { right. exists (S d). split; [apply Hcs; now left|lia]. }
      rewrite H2. apply IHcs; [|exact Hs2].
      intros c' Hc'. apply Hcs. now right.
Qed.
End Rename.

Lemma updatePaths_returns (fs : FileSystem) (rid nn : string) (now : Z)
    (ob nb k : string) :
  Linked fs -> Rooted fs ->
  exists fs',
    updatePaths (depthBound fs) rid nn now ob nb k fs = Some fs' /\
    sameLinks fs fs'.
Proof.
  intros HL HR. apply updatePaths_deep; auto using sameLinks_refl.
  unfold depthBound. destruct (getNodeById fs k) as [n|] eqn:Hk.
  - right. destruct (HR k n Hk) as (d & Hd). exists d. split; [auto|lia].
  - left. split; [reflexivity|lia].
Qed.

(** X10.  On a tree whose child lists point back and whose parent
    pointers lead to a node without parent, the recursions of
    [deleteNode] and [renameNode] come back: both actions return. *)
Theorem deleteNode_and_renameNode_return :
  forall (fs : FileSystem),
    linked fs = true -> rooted fs = true ->
    (forall k, exists ds,
       collectDescendants (depthBound fs) fs k = Some ds) /\
    (forall p, exists b fs', deleteNode p fs = Some (b, fs')) /\
    (forall p newName now, exists b fs',
       renameNode p newName now fs = Some (b, fs')).
Proof.
  intros fs HL HR. apply linked_spec in HL. apply rooted_spec in HR.
  assert (HC : forall k, exists ds,
             collectDescendants (depthBound fs) fs k = Some ds).
  { intro k. pose proof (collectDescendants_returns _ HL HR k) as H.
    destruct (collectDescendants (depthBound fs) fs k); [eauto|].
    now elim H. }
  split; [exact HC|]. split.
  - intro p. unfold deleteNode.
    destruct (getNodeByPath fs p) as [node|]; [|eauto].
    destruct (readOnly node || noParent node); [eauto|].
    destruct (getNodeById fs _) as [par|]; [|eauto].
    destruct (HC (id node)) as (ds & ->). eauto.
  - intros p newName now. unfold renameNode.
    destruct (getNodeByPath fs p) as [node|]; [|eauto].
    destruct (readOnly node); [eauto|].
    destruct (getNodeByPath fs _); [eauto|].
    destruct (updatePaths_returns fs (id node) newName now (path node)
                (childPath (getParentPath p) newName) (id node) HL HR)
      as (fs' & -> & _).
    cbn [option_map]. eauto.
Qed.

(** *** Actions that keep the links of every node *)

Lemma links_eq (n n' : FileNode) :
  links n' = links n ->
  parent n' = parent n /\ childrenOf n' = childrenOf n.
Proof. unfold links. intro H. now inversion H. Qed.

Lemma sameLinks_get (fs fs' : FileSystem) (k : string) (n' : FileNode) :
  sameLinks fs fs' -> getNodeById fs' k = Some n' ->
  exists n, getNodeById fs k = Some n /\
            parent n' = parent n /\ childrenOf n' = childrenOf n.
Proof.
  intros HS Hk. pose proof (HS k) as E. rewrite Hk in E.
  destruct (getNodeById fs k) as [n|]; [|discriminate].
  cbn [option_map] in E. assert (E' : links n' = links n) by congruence.
  exists n. split; [reflexivity|]. now apply links_eq.
Qed.

Lemma sameLinks_teg (fs fs' : FileSystem) (k : string) (n : FileNode) :
  sameLinks fs fs' -> getNodeById fs k = Some n ->
  exists n', getNodeById fs' k = Some n' /\
             parent n' = parent n /\ childrenOf n' = childrenOf n.
Proof.
  intros HS Hk. pose proof (HS k) as E. rewrite Hk in E.
  destruct (getNodeById fs' k) as [n'|]; [|discriminate].
  cbn [option_map] in E. assert (E' : links n' = links n) by congruence.
  exists n'. split; [reflexivity|]. now apply links_eq.
Qed.

Lemma shape_same (fs fs' : FileSystem) :
  wellShaped fs = true -> keyed fs' = true -> sameLinks fs fs' ->
  wellShaped fs' = true.
Proof.
  intros HW Hk' HS. apply wellShaped_spec in HW as (Hk & HL & HLi & HR & HN).
  apply wellShaped_spec. split; [exact Hk'|]. split; [|split; [|split]].
  - intros k n' c Hn' Hc.
    destruct (sameLinks_get _ _ _ _ HS Hn') as (n & Hn & Hp & Hcs).
    rewrite Hcs in Hc. destruct (HL k n c Hn Hc) as (m & Hm & Hpm).
    destruct (sameLinks_teg _ _ _ _ HS Hm) as (m' & Hm' & Hp' & _).
    exists m'. split; congruence.
  - intros k n' p Hn' Hp.
    destruct (sameLinks_get _ _ _ _ HS Hn') as (n & Hn & Hpn & _).
    rewrite Hpn in Hp. destruct (HLi k n p Hn Hp) as (q & Hq & Hin).
    destruct (sameLinks_teg _ _ _ _ HS Hq) as (q' & Hq' & _ & Hcs).
    exists q'. split; congruence.
  - intros k n' Hn'.
    destruct (sameLinks_get _ _ _ _ HS Hn') as (n & Hn & _).
    destruct (HR k n Hn) as (d & Hd). exists d.
    apply (Depth_transfer fs fs' (fun _ => True)); auto.
    intros a m _ Hm. split; [|auto].
    destruct (sameLinks_teg _ _ _ _ HS Hm) as (m' & Hm' & Hp' & _).
    eauto.
  - intros k n' Hn'.
    destruct (sameLinks_get _ _ _ _ HS Hn') as (n & Hn & _ & Hcs).
    rewrite Hcs. eapply HN; eauto.
Qed.

Lemma shape_replaced (fs : FileSystem) (k : string) (v old : FileNode) :
  wellShaped fs = true -> getNodeById fs k = Some old ->
  id v = id old -> links v = links old ->
  wellShaped (with_nodes (JS.set k v (nodes fs)) fs) = true.
Proof.
  intros HW Hold Hid Hl. apply shape_same with (fs := fs); auto.
  - apply wellShaped_spec in HW as (Hk & _). unfold keyed in *.
    cbn [nodes with_nodes]. apply keyedTable_set; [exact Hk|].
    rewrite Hid. eapply keyedTable_get_id; eauto.
  - apply sameLinks_set with (old := old);
      auto using sameLinks_refl.
Qed.

(** *** A new leaf *)

Lemma shape_created (fs : FileSystem) (par n : FileNode) (u : string) :
  wellShaped fs = true -> freshId fs u = true ->
  getNodeById fs (id par) = Some par -> type par = directory ->
  parent n = Some (id par) -> childrenOf n = [] -> id n = u ->
  wellShaped
    (with_nodes (JS.set (id par) (pushChild u par) (JS.set u n (nodes fs)))
       fs) = true.
Proof.
  intros HW Hfresh Hpar Hty Hpn Hcn Hidn.
  apply wellShaped_spec in HW as (Hk & HL & HLi & HR & HN).
  assert (Hu : getNodeById fs u = None) by (now apply fresh_get).
  assert (Hne : u <> id par) by (intro E; rewrite <- E in Hpar; congruence).
  set (fs' := with_nodes _ fs).
  assert (Gu : getNodeById fs' u = Some n).
  { unfold getNodeById, fs'; cbn [nodes with_nodes].
    rewrite get_set_other by exact Hne. apply get_set_same. }
  assert (Gp : getNodeById fs' (id par) = Some (pushChild u par)).
  { unfold getNodeById, fs'; cbn [nodes with_nodes]. apply get_set_same. }
  assert (Go : forall k, k <> u -> k <> id par ->
                         getNodeById fs' k = getNodeById fs k).
  { intros k H1 H2. unfold getNodeById, fs'; cbn [nodes with_nodes].
    now rewrite !get_set_other. }
  assert (Cp : childrenOf (pushChild u par) = (childrenOf par ++ [u])%list).
  { unfold childrenOf, pushChild.
    replace (type (with_children _ par)) with (type par) by reflexivity.
    rewrite Hty.
    replace (children (with_children
                         (Some ((match children par with
                                 | Some cs => cs
                                 | None => []
                                 end ++ [u])%list)) par))
      with (Some ((match children par with
                   | Some cs => cs
                   | None => []
                   end ++ [u])%list)) by reflexivity.
    now destruct (children par). }
  assert (Old : forall k m, getNodeById fs k = Some m ->
            exists m', getNodeById fs' k = Some m' /\
                       parent m' = parent m /\
                       forall c, In c (childrenOf m) ->
                                 In c (childrenOf m')).
  { intros k m Hm. destruct (String.eqb_spec k (id par)) as [->|Hkp].
    - assert (m = par) by congruence. subst m.
      exists (pushChild u par). split; [exact Gp|]. split; [reflexivity|].
      intros c Hc. rewrite Cp. apply in_or_app. now left.
    - exists m. rewrite Go; auto. intro E. congruence. }
  assert (Inv : forall k n', getNodeById fs' k = Some n' ->
            (k = u /\ n' = n) \/
            exists n0, getNodeById fs k = Some n0 /\
                       parent n' = parent n0 /\
                       forall c, In c (childrenOf n') ->
                         In c (childrenOf n0) \/ (k = id par /\ c = u)).
  { intros k n' Hn'. destruct (String.eqb_spec k u) as [->|Hku].
    - left. split; [reflexivity|congruence].
    - right. destruct (String.eqb_spec k (id par)) as [->|Hkp].
      + exists par. rewrite Gp in Hn'. inversion Hn'; subst n'.
        split; [exact Hpar|]. split; [reflexivity|].
        intros c Hc. rewrite Cp in Hc. apply in_app_or in Hc.
        destruct Hc as [Hc|[<-|[]]]; auto.
      + exists n'. rewrite Go in Hn' by assumption. auto. }
  apply wellShaped_spec. split; [|split; [|split; [|split]]].
  - unfold keyed, fs' in *; cbn [nodes with_nodes].
    apply keyedTable_set; [apply keyedTable_set; assumption|].
    apply pushChild_id.
  - intros k n' c Hn' Hc.
    destruct (Inv k n' Hn') as [[-> ->]|(n0 & Hn0 & Hp0 & Hcs)].
    + rewrite Hcn in Hc. destruct Hc.
    + destruct (Hcs c Hc) as [Hc0|[-> ->]].
      * destruct (HL k n0 c Hn0 Hc0) as (m & Hm & Hpm).
        destruct (Old c m Hm) as (m' & Hm' & Hpm' & _).
        exists m'. split; congruence.
      * exists n. split; assumption.
  - intros k n' p Hn' Hp.
    destruct (Inv k n' Hn') as [[-> ->]|(n0 & Hn0 & Hp0 & _)].
    + assert (p = id par) by congruence. subst p.
      exists (pushChild u par). split; [exact Gp|].
      rewrite Cp. apply in_or_app. right. now left.
    + rewrite Hp0 in Hp. destruct (HLi k n0 p Hn0 Hp) as (q & Hq & Hin).
      destruct (Old p q Hq) as (q' & Hq' & _ & Hcs).
      exists q'. split; auto.
  - assert (T : forall k d, Depth fs k d -> Depth fs' k d).
    { intros k d Hd.
      apply (Depth_transfer fs fs' (fun _ => True)); auto.
      intros a m _ Hm. split; [|auto].
      destruct (Old a m Hm) as (m' & Hm' & Hp' & _). eauto. }
    intros k n' Hn'.
    destruct (Inv k n' Hn') as [[-> ->]|(n0 & Hn0 & _)].
    + destruct (HR (id par) par Hpar) as (d & Hd). exists (S d).
      eapply Depth_step; eauto.
    + destruct (HR k n0 Hn0) as (d & Hd). eauto.
  - intros k n' Hn'. destruct (String.eqb_spec k u) as [->|Hku].
    + assert (n' = n) by congruence. subst n'. rewrite Hcn. constructor.
    + destruct (String.eqb_spec k (id par)) as [->|Hkp].
      * assert (n' = pushChild u par) by congruence. subst n'.
        rewrite Cp. apply NoDup_app; [now apply (HN (id par))| |].
        -- constructor; [intros []|constructor].
        -- intros c Hc [E|[]].
           destruct (HL (id par) par c Hpar Hc) as (m & Hm & _).
           congruence.
      * rewrite Go in Hn' by assumption. now apply (HN k).
Qed.

(** *** A subtree cut off *)

Lemma deleteNode_table (p : string) (fs fs' : FileSystem) :
  wellShaped fs = true -> deleteNode p fs = Some (true, fs') ->
  exists node pid par par' ds,
    getNodeById fs (id node) = Some node /\
    parent node = Some pid /\ getNodeById fs pid = Some par /\
    collectDescendants (depthBound fs) fs (id node) = Some ds /\
    ~ In pid ds /\ keyed fs' = true /\
    getNodeById fs' pid = Some par' /\
    parent par' = parent par /\ path par' = path par /\
    name par' = name par /\
    childrenOf par'
    = filter (fun i => negb (String.eqb i (id node))) (childrenOf par) /\
    (forall k, In k ds -> getNodeById fs' k = None) /\
    (forall k, ~ In k ds -> k <> pid ->
               getNodeById fs' k = getNodeById fs k).
Proof.
  intros HW HD. apply wellShaped_spec in HW as (Hk & HL & HLi & HR & HN).
  destruct (deleteNode_spec p fs fs' HD)
    as (node & pid & par & ds & Hnode & Hro & Hpar & Hgp & Hds & Hin & ->).
  assert (Hidp : id par = pid) by (eapply keyedTable_get_id; eauto).
  assert (Hgn : getNodeById fs (id node) = Some node)
    by (eapply getNodeByPath_id; eauto).
  destruct (HR pid par Hgp) as (dp & Hdp).
  assert (Hdn : Depth fs (id node) (S dp))
    by (eapply Depth_step; eauto).
  assert (Hnot : ~ In pid ds).
  { intro Hp.
    pose proof (collect_depth fs HL _ _ _ Hds _ Hdn pid dp Hp Hdp). lia. }
  assert (Hex : forall k, existsb (String.eqb k) ds = true <-> In k ds)
    by (intro k; apply existsb_In).
  assert (Hnex : existsb (String.eqb pid) ds = false).
  { destruct (existsb (String.eqb pid) ds) eqn:E; [|reflexivity].
    apply Hex in E. contradiction. }
  set (par' := match children par with
               | Some cs =>
                   with_children
                     (Some (filter (fun i => negb (String.eqb i (id node)))
                              cs)) par
               | None => par
               end).
  exists node, pid, par, par', ds.
  repeat match goal with |- _ /\ _ => split end; try assumption.
  - unfold keyed in *. cbn [nodes with_nodes].
    destruct (children par).
    + apply keyedTable_set; [now apply keyedTable_deletes|reflexivity].
    + now apply keyedTable_deletes.
  - unfold getNodeById, par'. cbn [nodes with_nodes].
    destruct (children par).
    + rewrite Hidp. apply get_set_same.
    + rewrite get_deletes, Hnex. exact Hgp.
  - unfold par'. now destruct (children par).
  - unfold par'. now destruct (children par).
  - unfold par'. now destruct (children par).
  - unfold par', childrenOf.
    destruct (children par) as [cs|] eqn:Hcs.
    + replace (type (with_children _ par)) with (type par) by reflexivity.
      replace (children (with_children
                 (Some (filter (fun i => negb (String.eqb i (id node))) cs))
                 par))
        with (Some (filter (fun i => negb (String.eqb i (id node))) cs))
        by reflexivity.
      now destruct (type par).
    + rewrite Hcs. now destruct (type par).
  - intros k Hkin. assert (Hkp : k <> pid) by (intro; subst; contradiction).
    apply Hex in Hkin. unfold getNodeById. cbn [nodes with_nodes].
    destruct (children par).
    + rewrite get_set_other by (now rewrite Hidp).
      now rewrite get_deletes, Hkin.
    + now rewrite get_deletes, Hkin.
  - intros k Hkin Hkp.
    assert (E : existsb (String.eqb k) ds = false).
    { destruct (existsb (String.eqb k) ds) eqn:E; [|reflexivity].
      apply Hex in E. contradiction. }
    unfold getNodeById. cbn [nodes with_nodes].
    destruct (children par).
    + rewrite get_set_other by (now rewrite Hidp).
      now rewrite get_deletes, E.
    + now rewrite get_deletes, E.
Qed.

Lemma shape_deleted (p : string) (fs fs' : FileSystem) :
  wellShaped fs = true -> deleteNode p fs = Some (true, fs') ->
  wellShaped fs' = true /\
  (pathInvariant fs = true -> pathInvariant fs' = true).
Proof.
  intros HW HD.
  destruct (deleteNode_table p fs fs' HW HD)
    as (node & pid & par & par' & ds & Hgn & Hpn & Hgp & Hds & Hnot & Hk'
        & Gp & Pp & Pa & Na & Cp & Gin & Gout).
  apply wellShaped_spec in HW as (Hk & HL & HLi & HR & HN).
  assert (Hhead : In (id node) ds) by (eapply collect_head; eauto).
  assert (Fwd : forall k n, ~ In k ds -> getNodeById fs k = Some n ->
            exists n', getNodeById fs' k = Some n' /\
              parent n' = parent n /\ path n' = path n /\
              name n' = name n /\
              forall c, In c (childrenOf n) -> c <> id node ->
                        In c (childrenOf n')).
  { intros k n Hkd Hn. destruct (String.eqb_spec k pid) as [->|Hkp].
    - assert (n = par) by congruence. subst n.
      exists par'. repeat split; auto.
      intros c Hc Hne. rewrite Cp. apply filter_In. split; [exact Hc|].
      apply negb_true_iff. now apply String.eqb_neq.
    - exists n. rewrite Gout by assumption. repeat split; auto. }
  assert (Inv : forall k n', getNodeById fs' k = Some n' ->
            ~ In k ds /\
            exists n, getNodeById fs k = Some n /\
              parent n' = parent n /\ path n' = path n /\
              name n' = name n /\
              forall c, In c (childrenOf n') ->
                        In c (childrenOf n) /\ (k = pid -> c <> id node)).
  { intros k n' Hn'.
    assert (Hkd : ~ In k ds).
    { intro Hkd. rewrite (Gin k Hkd) in Hn'. discriminate. }
    split; [exact Hkd|].
    destruct (String.eqb_spec k pid) as [->|Hkp].
    - assert (n' = par') by congruence. subst n'.
      exists par. do 4 (split; [auto|]).
      intros c Hc. rewrite Cp in Hc. apply filter_In in Hc.
      destruct Hc as [Hc Hne]. split; [exact Hc|]. intros _.
      apply negb_true_iff in Hne. now apply String.eqb_neq in Hne.
    - exists n'. rewrite Gout in Hn' by assumption.
      do 4 (split; [auto|]). intros c Hc. split; [exact Hc|].
      intro; contradiction. }
  assert (Up : forall k n q, ~ In k ds -> getNodeById fs k = Some n ->
            parent n = Some q -> ~ In q ds).
  { intros k n q Hkd Hn Hq Hqd.
    destruct (HLi k n q Hn Hq) as (nq & Hnq & Hin).
    apply Hkd. eapply collect_closed; eauto. }
  assert (Hk'' : NoDup (JS.keys (nodes fs')))
    by (now apply keyedTable_spec in Hk').
  split.
  - apply wellShaped_spec. split; [exact Hk'|]. split; [|split; [|split]].
    + intros k n' c Hn' Hc.
      destruct (Inv k n' Hn') as (Hkd & n & Hn & Hp & _ & _ & Hcs).
      destruct (Hcs c Hc) as (Hc0 & Hcp).
      destruct (HL k n c Hn Hc0) as (m & Hm & Hpm).
      assert (Hcd : ~ In c ds).
      { intro Hcd.
        destruct (collect_from fs _ _ _ Hds c Hcd)
          as [->|(a & na & Ha & Hna & Hca)].
        - assert (m = node) by congruence. subst m.
          apply Hcp; [congruence|reflexivity].
        - destruct (HL a na c Hna Hca) as (m2 & Hm2 & Hpm2).
          assert (a = k) by congruence. subst a. contradiction. }
      destruct (Fwd c m Hcd Hm) as (m' & Hm' & Hpm' & _).
      exists m'. split; congruence.
    + intros k n' q Hn' Hq.
      destruct (Inv k n' Hn') as (Hkd & n & Hn & Hp & _ & _ & _).
      rewrite Hp in Hq. destruct (HLi k n q Hn Hq) as (nq & Hnq & Hin).
      destruct (Fwd q nq (Up k n q Hkd Hn Hq) Hnq)
        as (nq' & Hnq' & _ & _ & _ & Hcs).
      exists nq'. split; [exact Hnq'|]. apply Hcs; [exact Hin|].
      intro E. subst k. contradiction.
    + intros k n' Hn'.
      destruct (Inv k n' Hn') as (Hkd & n & Hn & _).
      destruct (HR k n Hn) as (d & Hd). exists d.
      apply (Depth_transfer fs fs' (fun a => ~ In a ds)); auto.
      intros a m Ha Hm. split.
      * destruct (Fwd a m Ha Hm) as (m' & Hm' & Hp' & _). eauto.
      * intros q Hq. eapply Up; eauto.
    + intros k n' Hn'. destruct (String.eqb_spec k pid) as [->|Hkp].
      * assert (n' = par') by congruence. subst n'.
        rewrite Cp. apply NoDup_filter. now apply (HN pid).
      * destruct (Inv k n' Hn') as (Hkd & _).
        rewrite Gout in Hn' by assumption. now apply (HN k).
  - intro HP. unfold pathInvariant in *. rewrite forallb_forall in *.
    intros n' Hin'. unfold JS.values in Hin'. apply in_map_iff in Hin'.
    destruct Hin' as ([k n''] & E & Hin'). cbn [snd] in E. subst n''.
    assert (Hn' : getNodeById fs' k = Some n')
      by (now apply In_get).
    destruct (Inv k n' Hn') as (Hkd & n & Hn & Hp & Hpa & Hna & _).
    pose proof (HP n (get_value _ _ _ _ Hn)) as Hc.
    unfold pathConsistent in *. rewrite Hp, Hpa, Hna.
    destruct (parent n) as [q|] eqn:Hq; [|exact Hc].
    destruct (getNodeById fs q) as [nq|] eqn:Hnq; [|discriminate].
    destruct (Fwd q nq (Up k n q Hkd Hn Hq) Hnq)
      as (nq' & Hnq' & _ & Hpq & _).
    now rewrite Hnq', Hpq.
Qed.

Lemma shape_createFile (fs : FileSystem) (nm pp c u : string) (now : Z) :
  wellShaped fs = true -> freshId fs u = true ->
  wellShaped (snd (createFile nm pp c u now fs)) = true.
Proof.
  intros HW Hf. unfold createFile.
  destruct (getNodeByPath fs pp) as [par|] eqn:Hp; [|exact HW].
  destruct (type par) eqn:Hty; [exact HW|].
  destruct (getNodeByPath fs (childPath (path par) nm)); [exact HW|].
  cbn [snd id]. apply shape_created; auto.
  eapply getNodeByPath_id; [|exact Hp].
  now apply wellShaped_spec in HW.
Qed.

Lemma shape_createDirectory (fs : FileSystem) (nm pp u : string) (now : Z) :
  wellShaped fs = true -> freshId fs u = true ->
  wellShaped (snd (createDirectory nm pp u now fs)) = true.
Proof.
  intros HW Hf. unfold createDirectory.
  destruct (getNodeByPath fs pp) as [par|] eqn:Hp; [|exact HW].
  destruct (type par) eqn:Hty; [exact HW|].
  destruct (getNodeByPath fs (childPath (path par) nm)); [exact HW|].
  cbn [snd id]. apply shape_created; auto.
  eapply getNodeByPath_id; [|exact Hp].
  now apply wellShaped_spec in HW.
Qed.

Lemma shape_nodes (fs fs' : FileSystem) :
  nodes fs' = nodes fs -> wellShaped fs = true -> wellShaped fs' = true.
Proof.
  intros E HW. apply shape_same with (fs := fs); [exact HW| |].
  - apply wellShaped_spec in HW as (Hk & _). unfold keyed in *.
    now rewrite E.
  - intro k. unfold getNodeById. now rewrite E.
Qed.

Lemma shape_setCurrentDirectory (fs : FileSystem) (p : string) :
  wellShaped fs = true ->
  wellShaped (snd (setCurrentDirectory p fs)) = true.
Proof.
  intro HW. unfold setCurrentDirectory.
  destruct (getNodeByPath fs (resolvePath fs p)) as [n|]; [|exact HW].
  destruct (type n); [exact HW|].
  cbn [snd]. now apply shape_nodes with (fs := fs).
Qed.

Lemma shape_deleteNode (fs fs' : FileSystem) (p : string) (b : bool) :
  wellShaped fs = true -> deleteNode p fs = Some (b, fs') ->
  wellShaped fs' = true /\
  (pathInvariant fs = true -> pathInvariant fs' = true).
Proof.
  intros HW HD. destruct b; [now apply (shape_deleted p fs fs')|].
  assert (fs' = fs); [|subst; auto].
  unfold deleteNode in HD.
  destruct (getNodeByPath fs p) as [node|]; [|congruence].
  destruct (readOnly node || noParent node); [congruence|].
  destruct (getNodeById fs _); [|congruence].
  destruct (collectDescendants _ _ _); discriminate.
Qed.

Lemma shape_renameNode (fs fs' : FileSystem) (p newName : string) (now : Z)
    (b : bool) :
  wellShaped fs = true -> renameNode p newName now fs = Some (b, fs') ->
  wellShaped fs' = true.
Proof.
  intros HW HR. unfold renameNode in HR.
  destruct (getNodeByPath fs p) as [node|]; [|congruence].
  destruct (readOnly node); [congruence|].
  destruct (getNodeByPath fs _); [congruence|].
  destruct (updatePaths _ _ _ _ _ _ _ _) as [s|] eqn:HU; [|discriminate].
  cbn [option_map] in HR. assert (s = fs') by congruence. subst s.
  pose proof HW as HW'.
  apply wellShaped_spec in HW' as (Hk & HL & _ & HR' & _).
  destruct (updatePaths_returns fs (id node) newName now (path node)
              (childPath (getParentPath p) newName) (id node) HL HR')
    as (s & Hs & HS).
  assert (s = fs') by congruence. subst s.
  apply shape_same with (fs := fs); auto.
  eapply updatePaths_keyed; eauto.
Qed.

(** X11.  The shape of the tree (entries under their ids, child lists
    without repetition that agree with the parent ids, no cycle of
    parents) is kept by
    [createFile] and [createDirectory] with a fresh id, by
    [updateFileContent], [setCurrentDirectory], [deleteNode] and
    [renameNode]; [deleteNode] keeps the cached paths consistent too. *)
Theorem actions_keep_tree_shape :
  forall (fs : FileSystem),
    wellShaped fs = true ->
    (forall nm pp c u now,
       freshId fs u = true ->
       wellShaped (snd (createFile nm pp c u now fs)) = true) /\
    (forall nm pp u now,
       freshId fs u = true ->
       wellShaped (snd (createDirectory nm pp u now fs)) = true) /\
    (forall p c now,
       wellShaped (snd (updateFileContent p c now fs)) = true) /\
    (forall p, wellShaped (snd (setCurrentDirectory p fs)) = true) /\
    (forall p b fs',
       deleteNode p fs = Some (b, fs') ->
       wellShaped fs' = true /\
       (pathInvariant fs = true -> pathInvariant fs' = true)) /\
    (forall p newName now b fs',
       renameNode p newName now fs = Some (b, fs') ->
       wellShaped fs' = true).
Proof.
  intros fs HW. split; [|split; [|split; [|split; [|split]]]].
  - intros. now apply shape_createFile.
  - intros. now apply shape_createDirectory.
  - intros p c now. unfold updateFileContent.
    destruct (getNodeByPath fs p) as [node|] eqn:Hp; [|exact HW].
    destruct (_ || _); [exact HW|]. cbn [snd].
    apply shape_replaced with (old := node); auto.
    eapply getNodeByPath_id; [|exact Hp]. now apply wellShaped_spec in HW.
  - intro p. now apply shape_setCurrentDirectory.
  - intros p b fs' HD. now apply (shape_deleteNode fs fs' p b).
  - intros p newName now b fs' HR.
    now apply (shape_renameNode fs fs' p newName now b).
Qed.

(** *** The walk meets no id twice *)


Lemma Below_depth (fs : FileSystem) (c x : string) :
  Below fs c x ->
  forall dc dx, Depth fs c dc -> Depth fs x dx -> dc <= dx.
Proof.
  induction 1 as [|x n p Hx Hp Hb IH]; intros dc dx Hc Hd.
  - rewrite (Depth_fun _ _ _ Hc _ Hd). lia.
  - inversion Hd as [k0 n0 Hk0 Hp0|k0 n0 p0 d0 Hk0 Hp0 Hd0]; subst;
      [congruence|].
    assert (p0 = p) by congruence. subst p0.
    pose proof (IH dc d0 Hc Hd0). lia.
Qed.





(** *** Cached paths along the walk *)















End ShapeLaws.

(** ** Moving a node *)

Module MoveLaws.

Import Filesystem Tree FilesystemProps TableLaws PathLaws StoreLaws TreeLaws.
Import ShapeLaws.
Local Open Scope string_scope.

Lemma moveNode_spec (s d : string) (now : Z) (fs fs' : FileSystem) :
  moveNode s d now fs = (true, fs') ->
  exists node dest pid old,
    getNodeByPath fs s = Some node /\ getNodeByPath fs d = Some dest /\
    type dest = directory /\ readOnly node = false /\
    noParent node = false /\
    parent node = Some pid /\ getNodeById fs pid = Some old /\
    fs' = with_nodes
            (JS.set (id dest) (pushChild (id node) dest)
               (JS.set (id old)
                  (with_children
                     (option_map
                        (filter (fun i => negb (String.eqb i (id node))))
                        (children old)) old)
                  (JS.set (id node)
                     (with_modified (DateObj now)
                        (with_parent (Some (id dest))
                           (with_path (childPath d (name node)) node)))
                     (nodes fs)))) fs.
Proof.
  unfold moveNode. intro H.
  destruct (getNodeByPath fs s) as [node|]; [|discriminate].
  destruct (getNodeByPath fs d) as [dest|]; [|discriminate].
  destruct (type dest) eqn:Hty; cbn [NodeType_eqb negb orb] in H;
    [discriminate|].
  destruct (readOnly node) eqn:Hro; [discriminate|].
  destruct (noParent node) eqn:Hnp; [discriminate|].
  destruct (parent node) as [pid|] eqn:Hp;
    [|unfold noParent in Hnp; rewrite Hp in Hnp; discriminate].
  destruct (getNodeById fs pid) as [old|] eqn:Hold; [|discriminate].
  destruct (getNodeByPath fs _); [discriminate|].
  inversion H. exists node, dest, pid, old. repeat split; auto.
Qed.

Lemma childrenOf_pushChild (x : string) (n : FileNode) :
  type n = directory ->
  childrenOf (pushChild x n) = (childrenOf n ++ [x])%list.
Proof.
  intro Hty. unfold childrenOf, pushChild.
  replace (type (with_children _ n)) with (type n) by reflexivity.
  rewrite Hty.
  replace (children (with_children
                       (Some ((match children n with
                               | Some cs => cs
                               | None => []
                               end ++ [x])%list)) n))
    with (Some ((match children n with
                 | Some cs => cs
                 | None => []
                 end ++ [x])%list)) by reflexivity.
  now destruct (children n).
Qed.

Lemma childrenOf_filtered (x : string) (n : FileNode) :
  childrenOf
    (with_children
       (option_map (filter (fun i => negb (String.eqb i x))) (children n)) n)
  = filter (fun i => negb (String.eqb i x)) (childrenOf n).
Proof.
  unfold childrenOf.
  replace (type (with_children _ n)) with (type n) by reflexivity.
  replace (children (with_children
             (option_map (filter (fun i => negb (String.eqb i x)))
                (children n)) n))
    with (option_map (filter (fun i => negb (String.eqb i x))) (children n))
    by reflexivity.
  destruct (type n), (children n); reflexivity.
Qed.

Lemma Below_get (fs : FileSystem) (x z : string) :
  Listed fs -> Below fs x z ->
  (exists n, getNodeById fs z = Some n) ->
  exists n, getNodeById fs x = Some n.
Proof.
  intros HLi HB. induction HB as [|z n p Hz Hp Hb IH]; intro Hex;
    [exact Hex|].
  apply IH. destruct (HLi z n p Hz Hp) as (q & Hq & _). eauto.
Qed.

(** Below [x], the way to [z] starts at a child of [x]. *)
Lemma Below_child (fs : FileSystem) (x z : string) :
  Below fs x z -> x <> z ->
  exists y ny,
    getNodeById fs y = Some ny /\ parent ny = Some x /\ Below fs y z.
Proof.
  induction 1 as [|z n p Hz Hp Hb IH]; intro Hne; [congruence|].
  destruct (String.eqb_spec x p) as [->|Hxp].
  - exists z, n. repeat split; auto. constructor.
  - destruct (IH Hxp) as (y & ny & Hy & Hpy & Hby).
    exists y, ny. repeat split; auto. eapply Below_up; eauto.
Qed.

Lemma collectChildren_stuck (fs : FileSystem) (f : nat) (c : string) :
  forall cs,
    In c cs -> collectDescendants f fs c = None ->
    collectChildren fs f cs = None.
Proof.
  intros cs Hc Hn.
  destruct (collectChildren fs f cs) as [r|] eqn:Hr; [|reflexivity].
  destruct (collectChildren_each fs f cs r c Hr Hc) as (l & Hl). congruence.
Qed.

(** X13.  [moveNode] and the shape of the tree.  A move into a directory
    that does not hang below the moved node, and is not its parent
    already, keeps the tree in shape.  A move into the node itself or
    into a directory below it is carried out too, and closes a cycle of
    child lists: the tree is out of shape, the walk of [deleteNode] from
    the node never comes back, and [deleteNode] does not return on a
    path that leads to it. *)
Theorem moveNode_and_the_shape :
  forall (s d : string) (now : Z) (fs fs' : FileSystem)
         (node dest : FileNode),
    wellShaped fs = true ->
    getNodeByPath fs s = Some node -> getNodeByPath fs d = Some dest ->
    moveNode s d now fs = (true, fs') ->
    (~ Below fs (id node) (id dest) -> parent node <> Some (id dest) ->
     wellShaped fs' = true /\
     option_map parent (getNodeById fs' (id node)) = Some (Some (id dest)) /\
     (exists l, option_map childrenOf (getNodeById fs' (id dest))
                = Some (l ++ [id node])%list)) /\
    (Below fs (id node) (id dest) ->
     wellShaped fs' = false /\
     (forall fuel, collectDescendants fuel fs' (id node) = None) /\
     forall p n, getNodeByPath fs' p = Some n -> id n = id node ->
                 noParent n = false -> deleteNode p fs' = None).
Proof.
  intros s d now fs fs' node dest HW Hnode Hdest HM.
  destruct (moveNode_spec s d now fs fs' HM)
    as (node0 & dest0 & pid & old & Hn0 & Hd0 & Hty & Hro & Hnp & Hpar
        & Hold & Hfs).
  assert (node0 = node) by congruence. subst node0.
  assert (dest0 = dest) by congruence. subst dest0.
  pose proof HW as HW'.
  apply wellShaped_spec in HW' as (Hk & HL & HLi & HR & HN).
  assert (Hgn : getNodeById fs (id node) = Some node)
    by (eapply getNodeByPath_id; eauto).
  assert (Hgd : getNodeById fs (id dest) = Some dest)
    by (eapply getNodeByPath_id; eauto).
  assert (Hido : id old = pid) by (eapply keyedTable_get_id; eauto).
  subst pid.
  destruct (HR (id old) old Hold) as (dO & HdO).
  assert (Hdn : Depth fs (id node) (S dO)) by (eapply Depth_step; eauto).
  assert (Hno : id node <> id old).
  { intro E. rewrite E in Hdn. pose proof (Depth_fun _ _ _ HdO _ Hdn). lia. }
  set (node' := with_modified (DateObj now)
                  (with_parent (Some (id dest))
                     (with_path (childPath d (name node)) node))) in *.
  set (old' := with_children
                 (option_map
                    (filter (fun i => negb (String.eqb i (id node))))
                    (children old)) old) in *.
  assert (Hk' : keyed fs' = true).
  { subst fs'. unfold keyed in *. cbn [nodes with_nodes].
    apply keyedTable_set; [|apply pushChild_id].
    apply keyedTable_set; [|reflexivity].
    apply keyedTable_set; [exact Hk|reflexivity]. }
  assert (Gd : getNodeById fs' (id dest) = Some (pushChild (id node) dest)).
  { subst fs'. unfold getNodeById. cbn [nodes with_nodes].
    apply get_set_same. }
  split.
  - (* outside the subtree *)
    intros Hbelow Hnew.
    assert (Hnd : id node <> id dest).
    { intro E. apply Hbelow. rewrite E. constructor. }
    assert (Hod : id old <> id dest).
    { intro E. apply Hnew. now rewrite Hpar, E. }
    assert (Go : getNodeById fs' (id old) = Some old').
    { subst fs'. unfold getNodeById. cbn [nodes with_nodes].
      rewrite get_set_other by exact Hod. apply get_set_same. }
    assert (Gn : getNodeById fs' (id node) = Some node').
    { subst fs'. unfold getNodeById. cbn [nodes with_nodes].
      rewrite !get_set_other by assumption. apply get_set_same. }
    assert (Gx : forall k, k <> id dest -> k <> id old -> k <> id node ->
                           getNodeById fs' k = getNodeById fs k).
    { intros k H1 H2 H3. subst fs'. unfold getNodeById.
      cbn [nodes with_nodes]. now rewrite !get_set_other. }
    assert (Cd : childrenOf (pushChild (id node) dest)
                 = (childrenOf dest ++ [id node])%list)
      by (now apply childrenOf_pushChild).
    assert (Co : childrenOf old'
                 = filter (fun i => negb (String.eqb i (id node)))
                     (childrenOf old))
      by (apply childrenOf_filtered).
    (* every old entry has a new one, and conversely *)
    assert (Fwd : forall k n, getNodeById fs k = Some n ->
              exists n', getNodeById fs' k = Some n' /\
                (k <> id node -> parent n' = parent n) /\
                (forall c, In c (childrenOf n) -> c <> id node ->
                           In c (childrenOf n'))).
    { intros k n Hn. destruct (String.eqb_spec k (id dest)) as [->|H1].
      - assert (n = dest) by congruence. subst n.
        exists (pushChild (id node) dest). split; [exact Gd|].
        split; [reflexivity|]. intros c Hc _. rewrite Cd.
        apply in_or_app. now left.
      - destruct (String.eqb_spec k (id old)) as [->|H2].
        + assert (n = old) by congruence. subst n.
          exists old'. split; [exact Go|]. split; [reflexivity|].
          intros c Hc Hne. rewrite Co. apply filter_In. split; [exact Hc|].
          apply negb_true_iff. now apply String.eqb_neq.
        + destruct (String.eqb_spec k (id node)) as [->|H3].
          * assert (n = node) by congruence. subst n.
            exists node'. split; [exact Gn|]. split; [congruence|].
            intros c Hc _. exact Hc.
          * exists n. rewrite Gx by assumption. auto. }
    assert (Inv : forall k n', getNodeById fs' k = Some n' ->
              exists n, getNodeById fs k = Some n /\
                (k <> id node -> parent n' = parent n) /\
                (k = id node -> parent n' = Some (id dest)) /\
                (k = id dest ->
                 childrenOf n' = (childrenOf n ++ [id node])%list) /\
                (k = id old ->
                 childrenOf n'
                 = filter (fun i => negb (String.eqb i (id node)))
                     (childrenOf n)) /\
                (k <> id dest -> k <> id old ->
                 childrenOf n' = childrenOf n)).
    { intros k n' Hn'. destruct (String.eqb_spec k (id dest)) as [->|H1].
      - assert (n' = pushChild (id node) dest) by congruence. subst n'.
        exists dest. repeat split; auto; congruence.
      - destruct (String.eqb_spec k (id old)) as [->|H2].
        + assert (n' = old') by congruence. subst n'.
          exists old. repeat split; auto; congruence.
        + destruct (String.eqb_spec k (id node)) as [->|H3].
          * assert (n' = node') by congruence. subst n'.
            exists node. repeat split; auto; congruence.
          * exists n'. rewrite Gx in Hn' by assumption.
            repeat split; auto; congruence. }
    assert (Only : forall k n, getNodeById fs k = Some n ->
              In (id node) (childrenOf n) -> k = id old).
    { intros k n Hn Hin. destruct (HL k n (id node) Hn Hin) as (m & Hm & Hp).
      congruence. }
    split; [|split].
    + apply wellShaped_spec.
      split; [exact Hk'|]. split; [|split; [|split]].
      * (* linked *)
        intros k n' c Hn' Hc.
        destruct (Inv k n' Hn') as (n & Hn & _ & _ & I1 & I2 & I3).
        assert (Hcase : c = id node /\ k = id dest \/
                        In c (childrenOf n) /\ c <> id node).
        { destruct (String.eqb_spec k (id dest)) as [->|H1].
          - rewrite (I1 eq_refl) in Hc. apply in_app_or in Hc.
            destruct Hc as [Hc|[<-|[]]]; [|now left].
            right. split; [exact Hc|]. intro E. subst c.
            apply Hod. symmetry. eapply Only; eauto.
          - right. destruct (String.eqb_spec k (id old)) as [->|H2].
            + rewrite (I2 eq_refl) in Hc. apply filter_In in Hc.
              destruct Hc as [Hc Hne]. split; [exact Hc|].
              apply negb_true_iff in Hne. now apply String.eqb_neq.
            + rewrite (I3 H1 H2) in Hc. split; [exact Hc|].
              intro E. subst c. apply H2. eapply Only; eauto. }
        destruct Hcase as [[-> ->]|[Hc0 Hne]].
        -- exists node'. split; [exact Gn|reflexivity].
        -- destruct (HL k n c Hn Hc0) as (m & Hm & Hp).
           destruct (Fwd c m Hm) as (m' & Hm' & Hp' & _).
           exists m'. split; [exact Hm'|]. rewrite (Hp' Hne). exact Hp.
      * (* listed *)
        intros k n' q Hn' Hq.
        destruct (Inv k n' Hn') as (n & Hn & P1 & P2 & _).
        destruct (String.eqb_spec k (id node)) as [->|H3].
        -- rewrite (P2 eq_refl) in Hq. inversion Hq; subst q.
           exists (pushChild (id node) dest). split; [exact Gd|].
           rewrite Cd. apply in_or_app. right. now left.
        -- rewrite (P1 H3) in Hq.
           destruct (HLi k n q Hn Hq) as (nq & Hnq & Hin).
           destruct (Fwd q nq Hnq) as (nq' & Hnq' & _ & Hcs).
           exists nq'. split; [exact Hnq'|]. now apply Hcs.
      * (* rooted *)
        assert (Hdd : exists dd, Depth fs' (id dest) dd).
        { destruct (HR (id dest) dest Hgd) as (dd & Hdd). exists dd.
          apply (Depth_transfer fs fs'
                   (fun x => ~ Below fs (id node) x)); auto.
          intros k n Hkeep Hn. split.
          - destruct (Fwd k n Hn) as (n' & Hn' & Hp' & _).
            exists n'. split; [exact Hn'|]. apply Hp'.
            intro E. apply Hkeep. rewrite E. constructor.
          - intros q Hq Hb. apply Hkeep. eapply Below_up; eauto. }
        destruct Hdd as (dd & Hdd).
        assert (All : forall k dk, Depth fs k dk ->
                                   exists d', Depth fs' k d').
        { intros k dk Hd.
          induction Hd as [k n Hn Hp|k n q dq Hn Hq Hd IH].
          - destruct (Fwd k n Hn) as (n' & Hn' & Hp' & _).
            exists 0. eapply Depth_top; eauto. rewrite Hp'; [exact Hp|].
            intro E. subst k. congruence.
          - destruct (String.eqb_spec k (id node)) as [->|H3].
            + exists (S dd). eapply Depth_step; eauto. reflexivity.
            + destruct IH as (d' & Hd').
              destruct (Fwd k n Hn) as (n' & Hn' & Hp' & _).
              exists (S d'). eapply Depth_step; eauto.
              rewrite (Hp' H3). exact Hq. }
        intros k n' Hn'. destruct (Inv k n' Hn') as (n & Hn & _).
        destruct (HR k n Hn) as (dk & Hdk). eapply All; eauto.
      * (* every child once *)
        intros k n' Hn'.
        destruct (Inv k n' Hn') as (n & Hn & _ & _ & I1 & I2 & I3).
        destruct (String.eqb_spec k (id dest)) as [->|H1].
        -- rewrite (I1 eq_refl). apply NoDup_app; [now apply (HN (id dest))| |].
           ++ constructor; [intros []|constructor].
           ++ intros c Hc [E|[]]. subst c.
              apply Hod. symmetry. eapply Only; eauto.
        -- destruct (String.eqb_spec k (id old)) as [->|H2].
           ++ rewrite (I2 eq_refl). apply NoDup_filter. now apply (HN (id old)).
           ++ rewrite (I3 H1 H2). now apply (HN k).
    + now rewrite Gn.
    + rewrite Gd. cbn [option_map]. exists (childrenOf dest).
      now rewrite Cd.
  - (* inside the subtree *)
    intro HB.
    destruct (HR (id dest) dest Hgd) as (dd & Hdd).
    assert (Hod : id old <> id dest).
    { intro E. rewrite <- E in Hdd.
      pose proof (Depth_fun _ _ _ HdO _ Hdd).
      rewrite E in Hdd.
      pose proof (Below_depth _ _ _ HB _ _ Hdn Hdd). lia. }
    assert (Go : getNodeById fs' (id old) = Some old').
    { subst fs'. unfold getNodeById. cbn [nodes with_nodes].
      rewrite get_set_other by exact Hod. apply get_set_same. }
    assert (Cd : childrenOf (pushChild (id node) dest)
                 = (childrenOf dest ++ [id node])%list)
      by (now apply childrenOf_pushChild).
    assert (Gn : exists n1, getNodeById fs' (id node) = Some n1 /\
                   readOnly n1 = false /\
                   (parent n1 = Some (id old) \/ parent n1 = Some (id dest)) /\
                   forall c, In c (childrenOf node) -> In c (childrenOf n1)).
    { destruct (String.eqb_spec (id node) (id dest)) as [E|Hnd].
      - assert (dest = node) by congruence. subst dest.
        exists (pushChild (id node) node). split; [exact Gd|].
        split; [exact Hro|]. split; [now left|].
        intros c Hc. rewrite Cd. apply in_or_app. now left.
      - exists node'. split.
        + subst fs'. unfold getNodeById. cbn [nodes with_nodes].
          rewrite !get_set_other by assumption. apply get_set_same.
        + split; [exact Hro|]. split; [now right|]. intros c Hc. exact Hc. }
    destruct Gn as (n1 & Gn & Hro1 & Hpar1 & Hkids1).
    assert (Kids : forall x nx, getNodeById fs x = Some nx -> x <> id old ->
              exists nx', getNodeById fs' x = Some nx' /\
                forall c, In c (childrenOf nx) -> In c (childrenOf nx')).
    { intros x nx Hx Hxo.
      destruct (String.eqb_spec x (id dest)) as [->|H1].
      - assert (nx = dest) by congruence. subst nx.
        exists (pushChild (id node) dest). split; [exact Gd|].
        intros c Hc. rewrite Cd. apply in_or_app. now left.
      - destruct (String.eqb_spec x (id node)) as [->|H3].
        + assert (nx = node) by congruence. subst nx.
          exists n1. split; [exact Gn|exact Hkids1].
        + exists nx. split; [|auto]. subst fs'. unfold getNodeById.
          cbn [nodes with_nodes]. now rewrite !get_set_other. }
    assert (Hstuck : forall fuel x,
              Below fs (id node) x -> Below fs x (id dest) ->
              collectDescendants fuel fs' x = None).
    { induction fuel as [|f IH]; intros x Hnx Hxd; [reflexivity|].
      destruct (Below_get fs x (id dest) HLi Hxd (ex_intro _ dest Hgd))
        as (nx & Hx).
      destruct (HR x nx Hx) as (dx & Hdx).
      assert (Hxo : x <> id old).
      { intro E. subst x. pose proof (Depth_fun _ _ _ HdO _ Hdx).
        pose proof (Below_depth _ _ _ Hnx _ _ Hdn Hdx). lia. }
      destruct (Kids x nx Hx Hxo) as (nx' & Hx' & Hcs).
      rewrite collectDescendants_unfold, Hx'. cbn [option_map].
      destruct (String.eqb_spec x (id dest)) as [->|Hne].
      - rewrite (collectChildren_stuck fs' f (id node)); auto.
        + rewrite Gd in Hx'. inversion Hx'; subst nx'.
          rewrite Cd. apply in_or_app. right. now left.
        + apply IH; [constructor|exact HB].
      - destruct (Below_child fs x (id dest) Hxd Hne)
          as (y & ny & Hy & Hpy & Hyd).
        destruct (HLi y ny x Hy Hpy) as (q & Hq & Hin).
        assert (q = nx) by congruence. subst q.
        rewrite (collectChildren_stuck fs' f y); auto.
        apply IH; [|exact Hyd]. eapply Below_up; eauto. }
    assert (Hloop : forall fuel, collectDescendants fuel fs' (id node) = None).
    { intro fuel. apply Hstuck; [constructor|exact HB]. }
    split; [|split; [exact Hloop|]].
    + destruct (wellShaped fs') eqn:HW1; [|reflexivity]. exfalso.
      apply wellShaped_spec in HW1 as (_ & HL1 & _ & HR1 & _).
      pose proof (collectDescendants_returns fs' HL1 HR1 (id node)) as H.
      now rewrite Hloop in H.
    + intros p n Hp Hid Hnp'.
      assert (Hn : getNodeById fs' (id n) = Some n)
        by (eapply getNodeByPath_id; eauto).
      rewrite Hid, Gn in Hn. inversion Hn; subst n. clear Hn.
      unfold deleteNode. rewrite Hp, Hro1, Hnp', Hid. cbn [orb].
      destruct Hpar1 as [-> | ->].
      * rewrite Go. now rewrite Hloop.
      * rewrite Gd. now rewrite Hloop.
Qed.

End MoveLaws.

(** ** Laws of the shell interpreter *)

Module ShellLaws.

Import Filesystem Tree Terminal Session.
Import FilesystemProps TableLaws PathLaws StoreLaws.
Local Open Scope string_scope.

Lemma plain_ok out : plainCode (ok out).
Proof. now left. Qed.

Lemma plain_fail out : plainCode (fail out).
Proof. now right. Qed.

Ltac plain :=
  repeat match goal with
         | |- plainCode (ok _) => apply plain_ok
         | |- plainCode (fail _) => apply plain_fail
         | |- plainCode (if ?x then _ else _) => destruct x
         | |- plainCode (match ?x with _ => _ end) => destruct x
         end.

Section Handlers.
Variable uuidv4 : nat -> string.
Variable now : Z.
Variable dateToString : Z -> string.
Variable toLocaleDateString : Date -> string.
Variable RegExp_gi : string -> option (string -> nat -> option nat).

Local Abbreviation execute :=
  (executeCommand uuidv4 now dateToString toLocaleDateString RegExp_gi).
Local Abbreviation builtin :=
  (runBuiltin uuidv4 now dateToString toLocaleDateString RegExp_gi).

Lemma mkdirLoop_facts createParents targets :
  forall w,
    plainCode (fst (mkdirLoop uuidv4 now createParents targets w)) /\
    wterm (snd (mkdirLoop uuidv4 now createParents targets w)) = wterm w /\
    wsys (snd (mkdirLoop uuidv4 now createParents targets w)) = wsys w.
Proof.
  induction targets as [|t ts IH]; intro w; simpl.
  - repeat split. now left.
  - destruct (fst (createDirectory _ _ _ _ _)).
    + destruct (IH (tick (with_fs
                     (snd (createDirectory
                             (baseName (resolvePath (wfs w) t))
                             (getParentPath (resolvePath (wfs w) t))
                             (uuidv4 (uuidCount w)) now (wfs w))) w)))
        as (A & B & C).
      repeat split; assumption.
    + destruct createParents; [apply IH|].
      repeat split. now right.
Qed.

Lemma rmLoop_facts recursive targets :
  forall w r w1,
    rmLoop recursive targets w = Some (r, w1) ->
    plainCode r /\ wterm w1 = wterm w.
Proof.
  induction targets as [|t ts IH]; intros w r w1; simpl.
  - intro H. inversion H; subst. split; [now left|reflexivity].
  - destruct (getNodeByPath (wfs w) t) as [node|].
    + destruct (NodeType_eqb (type node) directory && negb recursive).
      * intro H. inversion H; subst. split; [now right|reflexivity].
      * match goal with
        | |- context [deleteNode t (wfs ?w1)] =>
            destruct (deleteNode t (wfs w1)) as [d|]; [|discriminate];
            intro H; apply IH in H; destruct H as [A B];
            split; [exact A|]; rewrite B
        end.
        now destruct (_ || _).
    + intro H. inversion H; subst. split; [now right|reflexivity].
Qed.

(** Every handler returns 0 or 1, [grep] apart, which returns 2 for a
    pattern [RegExp] rejects; no handler writes the terminal store. *)
Lemma runBuiltin_facts b args w r w1 :
  builtin b args w = Some (r, w1) ->
  (plainCode r \/ (r_exitCode r = 2%Z /\ b = Grep)) /\ wterm w1 = wterm w.
Proof.
  destruct b; cbn [runBuiltin]; intro H.
  - inversion H; subst. split; [left; plain|reflexivity].
  - inversion H; subst. split; [left; unfold pwd; plain|reflexivity].
  - inversion H; subst. split; [left; unfold cd; cbn [fst]; plain|].
    reflexivity.
  - inversion H; subst. split; [left; unfold ls; plain|reflexivity].
  - inversion H; subst. split; [left; unfold cat; plain|reflexivity].
  - unfold touch in H. destruct (arg0 args);
      [|inversion H; subst; split; [left; plain|reflexivity]].
    destruct (getNodeByPath _ _);
      [inversion H; subst; split; [left; plain|reflexivity]|].
    destruct (fst (createFile _ _ _ _ _ _));
      inversion H; subst; (split; [left; plain|reflexivity]).
  - unfold mkdir in H. destruct (arg0 args);
      [|inversion H; subst; split; [left; plain|reflexivity]].
    destruct (mkdirLoop_facts (includes "-p" args) (operands args) w)
      as (A & B & _).
    inversion H as [E]. rewrite E in A, B. split; [now left|exact B].
  - unfold rm in H. destruct (arg0 args);
      [|inversion H; subst; split; [left; plain|reflexivity]].
    apply rmLoop_facts in H. destruct H. split; [now left|assumption].
  - inversion H; subst. split; [left; unfold echo; plain|reflexivity].
  - inversion H; subst. split; [left; unfold whoami; plain|reflexivity].
  - inversion H; subst. split; [left; plain|reflexivity].
  - inversion H; subst. split; [left; unfold uname; plain|reflexivity].
  - inversion H; subst. split; [left; plain|reflexivity].
  - inversion H; subst. split; [left; unfold uptime; plain|reflexivity].
  - inversion H; subst. split; [left; plain|reflexivity].
  - inversion H; subst. split; [left; unfold historyCmd; plain|reflexivity].
  - inversion H; subst. split; [left; plain|reflexivity].
  - inversion H; subst. split; [left; unfold head; plain|reflexivity].
  - inversion H; subst. split; [left; unfold tail; plain|reflexivity].
  - inversion H; subst. split; [left; unfold wc; plain|reflexivity].
  - inversion H; subst; clear H. split; [|reflexivity].
    unfold grep. destruct args as [|pattern [|f rest]];
      [left; plain|left; plain|].
    destruct (readFile _ _); [|left; plain].
    destruct (RegExp_gi pattern); [|right; split; reflexivity].
    left. destruct (grepFilter _ _ _); [now right|now left].
  - inversion H; subst. split; [left; unfold man; plain|reflexivity].
  - inversion H; subst. split; [left; now left|reflexivity].
Qed.





(** A line of white space is no command: it returns exit code 0
    with no output, goes on the screen but not into the command history,
    is not counted, and leaves the filesystem and the system store as
    they were. *)
Lemma blank_line_is_no_command :
  forall (raw : string) (w : World),
    JS.trim raw = "" ->
    JS.get "" (aliases (wterm w)) = None ->
    exists c w',
      execute raw w = Some (c, w') /\
      output c = "" /\ exitCode c = 0%Z /\ input c = raw /\
      wfs w' = wfs w /\ wsys w' = wsys w /\
      commandHistory (wterm w') = commandHistory (wterm w) /\
      history (wterm w') = (history (wterm w) ++ [c])%list.
Proof.
  intros raw w Ht Ha. unfold executeCommand, parseCommand, expandAlias.
  rewrite Ht. change (JS.firstField "") with "". rewrite Ha.
  cbn. eexists. eexists. split; [reflexivity|]. cbn.
  repeat split; reflexivity.
Qed.


End Handlers.

(** *** [grep] *)

Lemma grepFilter_sound (re : string -> nat -> option nat) lines :
  forall i l, In l (grepFilter re i lines) ->
    In l lines /\ exists j, re l j <> None.
Proof.
  induction lines as [|x r IH]; intros i l; simpl; [tauto|].
  destruct (re x i) as [e|] eqn:E.
  - intros [<-|H].
    + split; [now left|]. exists i. congruence.
    + destruct (IH _ _ H) as [A B]. split; [now right|exact B].
  - intro H. destruct (IH _ _ H) as [A B]. split; [now right|exact B].
Qed.

Lemma grepFilter_empty (re : string -> nat -> option nat) lines :
  grepFilter re 0 lines = [] <-> forall l, In l lines -> re l 0 = None.
Proof.
  induction lines as [|x r IH]; simpl; [tauto|].
  destruct (re x 0) as [e|] eqn:E.
  - split; [discriminate|]. intro H. specialize (H x (or_introl eq_refl)).
    congruence.
  - rewrite IH. split.
    + intros H l [<-|Hl]; auto.
    + intros H l Hl. apply H. now right.
Qed.

Section GrepLaws.
Variable RegExp_gi : string -> option (string -> nat -> option nat).

(** X17.  [grep] on an existing file with a pattern [RegExp] accepts:
    every line of the output is a line of the file on which the search
    succeeded, and the exit code is right: 0 when some line of the file
    matches and 1 when none does. *)
Theorem grep_output_and_exit_code :
  forall (pattern f : string) (rest : list string) (w : World)
         (content : string) (re : string -> nat -> option nat),
    readFile (wfs w) f = Some content ->
    RegExp_gi pattern = Some re ->
    exists matches,
      grep RegExp_gi (pattern :: f :: rest) w
      = mkResult (JS.join (String JS.LF "") matches)
          (match matches with [] => 1 | _ :: _ => 0 end) /\
      (forall l, In l matches ->
         In l (JS.split JS.LF content) /\ exists i, re l i <> None) /\
      (matches = [] <->
       forall l, In l (JS.split JS.LF content) -> re l 0 = None).
Proof.
  intros pattern f rest w content re Hr Hp.
  exists (grepFilter re 0 (JS.split JS.LF content)).
  unfold grep. rewrite Hr, Hp. split; [reflexivity|]. split.
  - intros l. apply grepFilter_sound.
  - apply grepFilter_empty.
Qed.

End GrepLaws.

(** *** [head] and [tail] *)

Lemma sliceTo_all (A : Type) (l : list A) (n : Z) :
  (Z.of_nat (List.length l) <= n)%Z -> JS.arraySliceTo n l = l.
Proof.
  intro H. unfold JS.arraySliceTo, JS.sliceStart.
  destruct (n <? 0)%Z eqn:E; [apply Z.ltb_lt in E; lia|].
  rewrite Nat.min_r by lia. apply firstn_all.
Qed.

Lemma sliceFrom_all (A : Type) (l : list A) (n : Z) :
  (Z.of_nat (List.length l) <= n \/ n = 0)%Z ->
  JS.arraySliceFrom (- n) l = l.
Proof.
  intro H. unfold JS.arraySliceFrom, JS.sliceStart.
  destruct (- n <? 0)%Z eqn:E.
  - apply Z.ltb_lt in E. rewrite Z.max_r by lia. reflexivity.
  - apply Z.ltb_ge in E.
    assert (n = 0 \/ n < 0)%Z as [->|Hn] by lia; [reflexivity|].
    destruct l; [|simpl in H; lia]. now destruct (Z.to_nat (- n)).
Qed.

(** X18.  [head] and [tail] print a file that has no more lines than the
    count in full, as it is stored; the count is 10 unless an option
    gives it, and [tail -0] prints the file in full as well. *)
Theorem head_tail_short_file :
  forall (args : list string) (f content : string) (n : Z) (w : World),
    firstOperand args = Some f ->
    readFile (wfs w) f = Some content ->
    lineCount args = Some n ->
    ((Z.of_nat (List.length (JS.split JS.LF content)) <= n)%Z ->
     head args w = ok content /\ tail args w = ok content) /\
    (n = 0%Z -> head args w = ok "" /\ tail args w = ok content).
Proof.
  intros args f content n w Hf Hr Hn. unfold head, tail.
  rewrite Hf, Hr, Hn. split.
  - intro H. rewrite sliceTo_all by exact H.
    rewrite sliceFrom_all by (now left).
    now rewrite (join_split JS.LF).
  - intros ->. rewrite sliceFrom_all by (now right).
    now rewrite (join_split JS.LF).
Qed.

End ShellLaws.

(** ** Laws of the command line *)

Module LineLaws.

Import Filesystem Tree Terminal Session.
Import FilesystemProps TableLaws PathLaws StoreLaws.
Local Open Scope string_scope.





















Section Echo.
Variable uuidv4 : nat -> string.
Variable now : Z.
Variable dateToString : Z -> string.
Variable toLocaleDateString : Date -> string.
Variable RegExp_gi : string -> option (string -> nat -> option nat).

End Echo.

Lemma firstField_prefix s : JS.startsWith s (JS.firstField s) = true.
Proof.
  unfold JS.startsWith. induction s as [|c t IH]; [reflexivity|].
  simpl. destruct (JS.is_space c); [reflexivity|].
  simpl. destruct (Ascii.ascii_dec c c); [exact IH|congruence].
Qed.

(** Alias expansion rewrites the first word of the line and nothing
    else, once: the line becomes the alias followed by the rest of the
    line (for an alias without [$], which [replace] would interpret). *)
Lemma alias_replaces_first_word :
  forall (t : TerminalState) (line alias : string),
    JS.get (JS.firstField line) (aliases t) = Some alias ->
    JS.truthy alias = true ->
    JS.hasChar "$" alias = false ->
    expandAlias t line
    = alias ++ JS.slice_from (String.length (JS.firstField line)) line.
Proof.
  intros t line alias Hg Ht Hd. unfold expandAlias. rewrite Hg, Ht.
  now rewrite (replace_prefix _ _ _ (firstField_prefix line) Hd).
Qed.

(** The prompt shows the home directory as [~]: a working directory
    at or below [/home/user] is displayed with that prefix replaced (a
    prefix of the text: [/home/users] is displayed as [~s]), and a path
    in which [/home/user] does not occur is displayed as it is. *)
Lemma getPrompt_home :
  forall (w : World) (rest : string),
    (cwdPath (wfs w) = "/home/user" ++ rest ->
     getPrompt w
     = match System.user (wsys w) with
       | Some u => JS.or_else (System.username u) "user"
       | None => "user"
       end ++ "@wizard:~" ++ rest ++ "$ ") /\
    (JS.indexOf "/home/user" (cwdPath (wfs w)) = None ->
     getPrompt w
     = match System.user (wsys w) with
       | Some u => JS.or_else (System.username u) "user"
       | None => "user"
       end ++ "@wizard:" ++ cwdPath (wfs w) ++ "$ ").
Proof.
  intros w rest. unfold getPrompt. split; intro H.
  - rewrite H, replace_prefix;
      [reflexivity|unfold JS.startsWith; now destruct rest|reflexivity].
  - unfold JS.replace. now rewrite H.
Qed.

(** *** The history cursor *)

Lemma navigateHistory_empty d t :
  commandHistory t = [] -> navigateHistory d t = (currentInput t, t).
Proof. unfold navigateHistory. now intros ->. Qed.

Lemma navigateHistory_range (d : Direction) (t : TerminalState) :
  (-1 <= historyIndex t
   <= Z.of_nat (List.length (commandHistory t)) - 1)%Z ->
  let r := navigateHistory d t in
  (-1 <= historyIndex (snd r)
   <= Z.of_nat (List.length (commandHistory t)) - 1)%Z /\
  commandHistory (snd r) = commandHistory t /\
  history (snd r) = history t /\
  currentInput (snd r) = fst r /\
  (commandHistory t <> [] ->
   fst r = historyAt t (historyIndex (snd r))).
Proof.
  intros H. unfold navigateHistory.
  destruct (Z.of_nat (List.length (commandHistory t)) =? 0)%Z eqn:E.
  - cbn. repeat split; try lia.
    intro Hne. apply Z.eqb_eq in E. destruct (commandHistory t);
      [congruence|discriminate].
  - apply Z.eqb_neq in E. destruct d.
    + destruct (historyIndex t =? -1)%Z eqn:E1; cbn;
        repeat split; try reflexivity; try lia.
    + destruct (historyIndex t
                =? Z.of_nat (List.length (commandHistory t)) - 1)%Z eqn:E2;
        [cbn; repeat split; try reflexivity; lia|].
      destruct (historyIndex t =? -1)%Z eqn:E1; cbn;
        repeat split; try reflexivity; try lia.
Qed.

(** X21.  [navigateHistory] keeps the cursor between -1 and the last index
    of the command history, leaves the history and the screen as they
    are, and returns what it leaves in the input line, which, when the
    history is not empty, is the entry under the cursor (the empty text
    for no cursor).  After [clearHistory], which keeps the cursor and
    the draft, it returns the draft and changes nothing; [clearScreen]
    does not change its answer. *)
Theorem navigateHistory_keeps_cursor :
  forall (d : Direction) (t : TerminalState),
    (-1 <= historyIndex t
     <= Z.of_nat (List.length (commandHistory t)) - 1)%Z ->
    let r := navigateHistory d t in
    (-1 <= historyIndex (snd r)
     <= Z.of_nat (List.length (commandHistory t)) - 1)%Z /\
    commandHistory (snd r) = commandHistory t /\
    history (snd r) = history t /\
    currentInput (snd r) = fst r /\
    (commandHistory t <> [] ->
     fst r = historyAt t (historyIndex (snd r))) /\
    navigateHistory d (clearHistory t) = (currentInput t, clearHistory t) /\
    historyIndex (clearHistory t) = historyIndex t /\
    fst (navigateHistory d (clearScreen t)) = fst r /\
    snd (navigateHistory d (clearScreen t)) = clearScreen (snd r).
Proof.
  intros d t H.
  destruct (navigateHistory_range d t H) as (A & B & C & D & E).
  cbv zeta. repeat (split; [assumption|]).
  split; [reflexivity|]. split; [reflexivity|].
  unfold navigateHistory, clearScreen. cbn.
  destruct (Z.of_nat _ =? 0)%Z; [split; reflexivity|].
  destruct d; [split; reflexivity|].
  destruct (_ =? _ - 1)%Z; split; reflexivity.
Qed.

Lemma pressTimes_history k d t :
  commandHistory (pressTimes k d t) = commandHistory t.
Proof.
  induction k as [|k IH]; [reflexivity|]. simpl.
  unfold navigateHistory.
  destruct (Z.of_nat _ =? 0)%Z; [exact IH|].
  destruct d.
  - simpl. exact IH.
  - destruct (historyIndex _ =? _)%Z; simpl; exact IH.
Qed.

Lemma press_up k t :
  commandHistory t <> [] -> historyIndex t = (-1)%Z ->
  let len := Z.of_nat (List.length (commandHistory t)) in
  let i := Z.max 0 (len - Z.of_nat (S k)) in
  historyIndex (pressTimes (S k) up t) = i /\
  currentInput (pressTimes (S k) up t)
  = nth (Z.to_nat i) (commandHistory t) "".
Proof.
  intros Hne Hi. cbv zeta.
  assert (L : (0 < Z.of_nat (List.length (commandHistory t)))%Z).
  { destruct (commandHistory t); [congruence|simpl; lia]. }
  induction k as [|k IH].
  - simpl. unfold navigateHistory.
    destruct (Z.of_nat _ =? 0)%Z eqn:E; [apply Z.eqb_eq in E; lia|].
    rewrite Hi. cbn. unfold historyAt.
    destruct (_ <? 0)%Z eqn:E1; [apply Z.ltb_lt in E1; lia|].
    split; [lia|]. f_equal. lia.
  - destruct IH as [IH1 IH2].
    change (pressTimes (S (S k)) up t)
      with (snd (navigateHistory up (pressTimes (S k) up t))).
    pose proof (pressTimes_history (S k) up t) as H1.
    set (t1 := pressTimes (S k) up t) in *. clearbody t1.
    unfold navigateHistory. rewrite H1.
    destruct (Z.of_nat _ =? 0)%Z eqn:E; [apply Z.eqb_eq in E; lia|].
    rewrite IH1.
    destruct (_ =? -1)%Z eqn:E1; [apply Z.eqb_eq in E1; lia|].
    cbn. unfold historyAt. rewrite H1.
    destruct (_ <? 0)%Z eqn:E2; [apply Z.ltb_lt in E2; lia|].
    split; [lia|]. f_equal. lia.
Qed.

Lemma press_down j t :
  let len := Z.of_nat (List.length (commandHistory t)) in
  (0 <= historyIndex t < len)%Z ->
  (Z.of_nat j < len - historyIndex t)%Z ->
  historyIndex (pressTimes j down t) = (historyIndex t + Z.of_nat j)%Z.
Proof.
  cbv zeta. intros Hi. induction j as [|j IH]; intro Hj.
  - simpl. lia.
  - change (pressTimes (S j) down t)
      with (snd (navigateHistory down (pressTimes j down t))).
    pose proof (pressTimes_history j down t) as H1.
    assert (IH' : historyIndex (pressTimes j down t)
                  = (historyIndex t + Z.of_nat j)%Z) by (apply IH; lia).
    set (t1 := pressTimes j down t) in *. clearbody t1.
    unfold navigateHistory. rewrite H1.
    destruct (Z.of_nat _ =? 0)%Z eqn:E; [apply Z.eqb_eq in E; lia|].
    rewrite IH'.
    destruct (_ =? _ - 1)%Z eqn:E2; [apply Z.eqb_eq in E2; lia|].
    destruct (_ =? -1)%Z eqn:E1; [apply Z.eqb_eq in E1; lia|].
    cbn. lia.
Qed.

(** X22.  The arrow keys walk the command history: from no cursor, [k]
    presses of the up arrow show the [k]-th entry from the end and stop
    at the oldest one; and the same number of presses of the down arrow
    (as long as [k] is at most the length of the history) lead back to
    no cursor and an empty input line. *)
Theorem arrows_walk_the_history :
  forall (k : nat) (t : TerminalState),
    commandHistory t <> [] ->
    historyIndex t = (-1)%Z ->
    let len := Z.of_nat (List.length (commandHistory t)) in
    let i := Z.max 0 (len - Z.of_nat (S k)) in
    let t1 := pressTimes (S k) up t in
    historyIndex t1 = i /\
    currentInput t1 = nth (Z.to_nat i) (commandHistory t) "" /\
    ((Z.of_nat (S k) <= len)%Z ->
     let t2 := pressTimes (S k) down t1 in
     historyIndex t2 = (-1)%Z /\ currentInput t2 = "" /\
     commandHistory t2 = commandHistory t).
Proof.
  intros k t Hne Hi. cbv zeta.
  destruct (press_up k t Hne Hi) as [U1 U2].
  split; [exact U1|]. split; [exact U2|]. intro Hk.
  set (t1 := pressTimes (S k) up t) in *.
  assert (H1 : commandHistory t1 = commandHistory t)
    by apply pressTimes_history.
  assert (D : historyIndex (pressTimes k down t1)
              = (historyIndex t1 + Z.of_nat k)%Z).
  { apply press_down; rewrite H1, U1; lia. }
  change (pressTimes (S k) down t1)
    with (snd (navigateHistory down (pressTimes k down t1))).
  pose proof (pressTimes_history k down t1) as H2. rewrite H1 in H2.
  set (t2 := pressTimes k down t1) in *. clearbody t2.
  unfold navigateHistory. rewrite H2.
  destruct (Z.of_nat _ =? 0)%Z eqn:E; [apply Z.eqb_eq in E; lia|].
  rewrite D, U1.
  destruct (_ =? _ - 1)%Z eqn:E2; [|apply Z.eqb_neq in E2; lia].
  cbn. auto.
Qed.

End LineLaws.

(** ** Commands one after the other *)

Module SequenceLaws.

Import Filesystem Tree Terminal Session.
Import FilesystemProps TableLaws PathLaws StoreLaws.
Local Open Scope string_scope.

Lemma with_fs_same w : with_fs (wfs w) w = w.
Proof. now destruct w. Qed.

(** X23.  [cd] and then [pwd]: on a keyed table a [cd] that returns 0
    prints nothing and makes the directory at the resolved target the
    current one, so that [pwd] prints its path (the target resolved
    twice over, which brings [~/..] to [/home]); a [cd] that fails names
    the target and changes nothing. *)
Theorem cd_then_pwd :
  forall (args : list string) (w : World),
    keyed (wfs w) = true ->
    let target := match arg0 args with Some a => a | None => "~" end in
    let r := cd args w in
    (r_exitCode (fst r) = 0%Z ->
     r_output (fst r) = "" /\
     pwd (snd r)
     = ok (resolvePath (wfs w) (resolvePath (wfs w) target)) /\
     nodes (wfs (snd r)) = nodes (wfs w)) /\
    (r_exitCode (fst r) <> 0%Z ->
     fst r = fail ("cd: " ++ target ++ ": No such directory") /\
     snd r = w).
Proof.
  intros args w Hk. cbv zeta. unfold cd.
  set (target := match arg0 args with Some a => a | None => "~" end).
  destruct (setCurrentDirectory target (wfs w)) as [b fs'] eqn:E.
  cbn [fst snd]. destruct b.
  - split; [intros _|intro H; now contradiction H].
    destruct (setCurrentDirectory_spec _ _ _ Hk E)
      as (n & _ & _ & Hp & Hc & Hn & _).
    split; [reflexivity|]. split; [|exact Hn].
    unfold pwd. cbn [wfs with_fs]. now rewrite Hc, Hp.
  - split; [intro H; discriminate H|intros _].
    split; [reflexivity|].
    pose proof (setCurrentDirectory_rejected target (wfs w)) as R.
    rewrite E in R. cbn [fst snd] in R. rewrite (R eq_refl).
    apply with_fs_same.
Qed.


Section Touch.
Variable uuidv4 : nat -> string.
Variable now : Z.

End Touch.

End SequenceLaws.

(** ** Laws of the system store *)

Module MachineLaws.

Import Filesystem Machine.
Local Open Scope string_scope.

Section Platform.
Variable uuidv4 : nat -> string.
Variable now : Z.
Variable JSON_stringify : Json -> string.
Variable JSON_parse : string -> option Json.
Variable toISOString : Z -> string.

Lemma addNotification_fields ty ttl msg s :
  let s' := addNotification uuidv4 now ty ttl msg s in
  systemState s' = systemState s /\ user s' = user s /\
  bootState s' = bootState s /\ isBooted s' = isBooted s /\
  isAuthenticated s' = isAuthenticated s /\
  notifications s'
  = firstn 50
      (mkNotification (uuidv4 (uuidCount s)) ty ttl msg now false
         :: notifications s).
Proof. cbv zeta. repeat split. Qed.

Lemma addNotification_length ty ttl msg s :
  (List.length (notifications (addNotification uuidv4 now ty ttl msg s))
   <= 50)%nat.
Proof.
  unfold addNotification. cbn [notifications with_notifications].
  rewrite length_firstn. apply Nat.le_min_l.
Qed.

(** X25.  [updateIntegrity] keeps the integrity between 0 and 100; when
    the sum is 0 or less it bricks the machine (integrity 0, state
    [bricked]) and posts the error notification; otherwise it touches
    neither the machine state nor the notifications (so a positive delta
    on a bricked machine raises the integrity and leaves it bricked).
    What is persisted of the result has the state [running] with the
    integrity as it is, and [recoverSystem] brings the machine back to
    [running] at integrity 75. *)
Theorem updateIntegrity_clamps_and_bricks :
  forall (delta : Z) (s : Store),
    let s' := updateIntegrity uuidv4 now delta s in
    let sum := (integrity (systemState s) + delta)%Z in
    (0 <= integrity (systemState s') <= 100)%Z /\
    ((sum <= 0)%Z ->
     integrity (systemState s') = 0%Z /\
     machine_state (systemState s') = System.bricked /\
     notifications s'
     = firstn 50
         (mkNotification (uuidv4 (uuidCount s)) error "System Bricked"
            "Critical system failure. Use snapshot recovery or hard reset."
            now false :: notifications s)) /\
    ((0 < sum)%Z ->
     integrity (systemState s') = Z.min 100 sum /\
     machine_state (systemState s') = machine_state (systemState s) /\
     notifications s' = notifications s) /\
    snapshots (systemState s') = snapshots (systemState s) /\
    user s' = user s /\
    machine_state (snd (partialize s')) = System.running /\
    integrity (snd (partialize s')) = integrity (systemState s') /\
    machine_state (systemState (recoverSystem s')) = System.running /\
    integrity (systemState (recoverSystem s')) = 75%Z.
Proof.
  intros delta s. cbv zeta. unfold updateIntegrity.
  cbn [systemState with_systemState integrity with_integrity].
  destruct (Z.max 0 (Z.min 100 (integrity (systemState s) + delta)) <=? 0)%Z
    eqn:E.
  - apply Z.leb_le in E. cbn. repeat split; try lia.
  - apply Z.leb_gt in E. cbn. repeat split; try lia.
Qed.

(** The two embeddings of [updateIntegrity] agree on what the shell
    sees. *)
Lemma shellView_updateIntegrity delta reports s :
  shellView (reports ++ [delta]) (updateIntegrity uuidv4 now delta s)
  = System.updateIntegrity delta (shellView reports s).
Proof.
  unfold updateIntegrity, System.updateIntegrity, shellView.
  cbn [systemState with_systemState integrity with_integrity
       System.integrity System.integrityReports System.machine_state
       System.boot_time System.user].
  destruct (Z.max 0 (Z.min 100 (integrity (systemState s) + delta)) <=? 0)%Z;
    reflexivity.
Qed.

Lemma inRange_addNotification ty ttl msg s :
  (0 <= integrity (systemState s) <= 100)%Z ->
  inRange (addNotification uuidv4 now ty ttl msg s).
Proof.
  intro H. split; [exact H|apply addNotification_length].
Qed.

(** X26.  Every action of the store keeps the integrity between 0 and
    100 and the list of notifications at 50 entries at most. *)
Theorem actions_keep_ranges :
  forall (a : Action) (v : FsValue) (s : Store),
    (0 <= integrity (systemState s) <= 100)%Z ->
    (List.length (notifications s) <= 50)%nat ->
    let s' :=
      snd (run uuidv4 now JSON_stringify JSON_parse toISOString a v s) in
    (0 <= integrity (systemState s') <= 100)%Z /\
    (List.length (notifications s') <= 50)%nat.
Proof.
  intros a v s Hi Hn. cbv zeta.
  destruct a; cbn [run snd]; try (split; [exact Hi|exact Hn]).
  - (* advanceBootPhase *)
    unfold advanceBootPhase. destruct (_ <? _)%nat; now split.
  - (* login *)
    unfold login. destruct (user s) as [u|]; [|now split].
    destruct (String.eqb (username u) nm); now split.
  - (* updateIntegrity *)
    unfold updateIntegrity.
    cbn [systemState with_systemState integrity with_integrity].
    destruct (_ <=? 0)%Z.
    + apply inRange_addNotification. cbn. lia.
    + split; [cbn; lia|exact Hn].
  - (* brickSystem *)
    apply inRange_addNotification. cbn. lia.
  - (* recoverSystem *)
    split; [cbn; lia|exact Hn].
  - (* createSnapshot *)
    apply inRange_addNotification. exact Hi.
  - (* restoreSnapshot *)
    unfold restoreSnapshot.
    destruct (find _ _) as [snap|]; [|now split].
    destruct (fst (importFilesystem JSON_parse (filesystem_state snap) v));
      [|now split].
    cbn [snd]. apply inRange_addNotification. cbn. lia.
  - (* addXP *)
    unfold addXP. destruct (user s) as [u|]; [|now split].
    destruct (negb _); [now apply inRange_addNotification|].
    destruct (numberDiffers _ _); [now apply inRange_addNotification|].
    now split.
  - (* updateStats *)
    unfold updateStats. destruct (user s); now split.
  - (* updatePreferences *)
    unfold updatePreferences. destruct (user s); now split.
  - (* addNotification *)
    now apply inRange_addNotification.
  - (* markNotificationRead *)
    split; [exact Hi|]. cbn. now rewrite length_map.
  - (* clearNotifications *)
    split; [exact Hi|]. cbn. lia.
  - (* hardReset *)
    split; cbn; lia.
Qed.

(** *** Snapshots *)

Lemma find_snoc_fresh (l : list Snapshot) (x : Snapshot) :
  (forall y, In y l -> s_id y <> s_id x) ->
  find (fun y => String.eqb (s_id y) (s_id x)) (l ++ [x]) = Some x.
Proof.
  induction l as [|a r IH]; simpl; intro H.
  - now rewrite String.eqb_refl.
  - destruct (String.eqb (s_id a) (s_id x)) eqn:E.
    + apply String.eqb_eq in E. exfalso. apply (H a); auto.
    + apply IH. intros y Hy. apply H. now right.
Qed.

Lemma find_filtered (l : list Snapshot) (i : string) :
  find (fun y => String.eqb (s_id y) i)
    (filter (fun y => negb (String.eqb (s_id y) i)) l) = None.
Proof.
  induction l as [|a r IH]; simpl; [reflexivity|].
  destruct (String.eqb (s_id a) i) eqn:E; simpl; [exact IH|].
  now rewrite E.
Qed.

(** [restoreSnapshot] fails and changes neither store when no snapshot
    has the id, which is so after [deleteSnapshot] of that id, and when
    the text of the snapshot does not parse. *)
Lemma restoreSnapshot_failures :
  forall (i : string) (v : FsValue) (s : Store),
    (find (fun x => String.eqb (s_id x) i) (snapshots (systemState s))
       = None ->
     restoreSnapshot uuidv4 now JSON_parse i v s = (false, v, s)) /\
    restoreSnapshot uuidv4 now JSON_parse i v (deleteSnapshot i s)
      = (false, v, deleteSnapshot i s) /\
    (forall snap,
       find (fun x => String.eqb (s_id x) i) (snapshots (systemState s))
         = Some snap ->
       JSON_parse (filesystem_state snap) = None ->
       restoreSnapshot uuidv4 now JSON_parse i v s = (false, v, s)).
Proof.
  intros i v s. split; [|split].
  - intro H. unfold restoreSnapshot. now rewrite H.
  - unfold restoreSnapshot, deleteSnapshot.
    cbn [systemState with_systemState snapshots with_snapshots].
    now rewrite find_filtered.
  - intros snap H Hp. unfold restoreSnapshot, importFilesystem.
    now rewrite H, Hp.
Qed.

(** *** Users *)

(** X27.  [login] under the name of the stored profile keeps the profile
    (experience, rank, level, statistics, preferences) and stamps
    [last_active], after a [logout] and after a [hardReset] alike, which
    both leave the profile in the store; under any other name it
    replaces the profile by a new one, with no experience. *)
Theorem login_keeps_or_replaces_profile :
  forall (nm : string) (s : Store) (u : UserProfile),
    user s = Some u ->
    let s' := login uuidv4 now nm (logout s) in
    isAuthenticated s' = true /\
    (username u = nm ->
     user s'
     = Some (mkUser (u_id u) (username u) (rank u) (xp u) (level u)
               (created_at u) now (preferences u) (stats u) (badges u)
               (unlocked_wallpapers u))) /\
    (username u <> nm ->
     user s' = Some (createInitialUser (uuidv4 (uuidCount s)) now nm) /\
     option_map xp (user s') = Some 0%Z /\
     option_map stats (user s') = Some initialStats) /\
    user (snd (hardReset uuidv4 now toISOString s)) = Some u /\
    isAuthenticated (snd (hardReset uuidv4 now toISOString s)) = false /\
    (username u = nm ->
     user (login uuidv4 now nm (snd (hardReset uuidv4 now toISOString s)))
     = user s').
Proof.
  intros nm s u U. cbv zeta. unfold login, logout, hardReset.
  cbn [user with_user with_bootState with_isBooted with_isAuthenticated
       uuidCount snd].
  rewrite U. destruct (String.eqb (username u) nm) eqn:E.
  - apply String.eqb_eq in E. split; [reflexivity|].
    split; [reflexivity|]. split; [intro H; contradiction|].
    repeat split.
  - apply String.eqb_neq in E. split; [reflexivity|].
    split; [intro H; contradiction|]. split; [intros _; repeat split|].
    split; [reflexivity|]. split; [reflexivity|]. intro H. contradiction.
Qed.

End Platform.

(** *** Experience *)


(** *** Boot *)

Lemma advance_from (p : BootPhase) (pr : Z) (ms : list string) (c : bool)
    (s : Store) :
  bootState s = mkBoot p pr ms c ->
  p <> desktop ->
  bootState (advanceBootPhase s)
  = mkBoot (nth (phaseIndex p + 1) phases desktop)
      (Z.of_nat (phaseIndex p + 1) * 20)%Z
      (ms ++ BOOT_MESSAGES p)%list
      (BootPhase_eqb (nth (phaseIndex p + 1) phases desktop) desktop) /\
  isBooted (advanceBootPhase s) = isBooted s.
Proof.
  intros H Hp. unfold advanceBootPhase. rewrite H. cbn [phase messages].
  destruct p; try congruence; cbn; split; reflexivity.
Qed.

(** The boot sequence: five calls of [advanceBootPhase] after
    [startBoot] lead through the phases to [desktop], with progress 100,
    the flag [complete] set and the ten boot messages in order; a
    further call changes nothing; and the store is booted only once
    [completeBoot] has run. *)
Lemma boot_sequence :
  forall (now : Z) (s : Store),
    let s5 := Nat.iter 5 advanceBootPhase (startBoot s) in
    bootState s5 = mkBoot desktop 100 bootLog true /\
    isBooted s5 = false /\
    advanceBootPhase s5 = s5 /\
    map (fun k => phase (bootState (Nat.iter k advanceBootPhase (startBoot s))))
      [0; 1; 2; 3; 4; 5]
    = phases /\
    map (fun k =>
           progress (bootState (Nat.iter k advanceBootPhase (startBoot s))))
      [0; 1; 2; 3; 4; 5]
    = [0; 20; 40; 60; 80; 100]%Z /\
    isBooted (completeBoot now s5) = true /\
    bootState (completeBoot now s5) = bootState s5.
Proof.
  intros now s. cbv zeta. repeat split.
Qed.

End MachineLaws.

(** ** Restore points *)

Module SnapshotLaws.

Import Filesystem Machine.
Local Open Scope string_scope.

(** X29.  A snapshot is a restore point: after [createSnapshot] (under an
    id no earlier snapshot has), [restoreSnapshot] by the id of the
    snapshot succeeds whatever the filesystem store holds by then, and
    puts back a tree with the root, the current directory and the ids of
    the tree at the snapshot, and the same id, path, parent and content
    for every node; the integrity is 100 and the machine is running.
    Once [deleteSnapshot] has removed the snapshot, [restoreSnapshot]
    fails and changes neither store. *)
Theorem snapshot_restores_tree :
  forall (uuidv4 : nat -> string) (now : Z) (toISOString : Z -> string)
         (nm : string) (desc : option string) (fs : FileSystem)
         (later : FsValue) (s : Store),
    (forall x, In x (snapshots (systemState s)) ->
               s_id x <> uuidv4 (uuidCount s)) ->
    let made :=
      createSnapshot uuidv4 now JsonText.stringify toISOString nm desc
        (FsTree fs) s in
    exists fs' s',
      restoreSnapshot uuidv4 now JsonText.parse (s_id (fst made)) later
        (snd made) = (true, FsTree fs', s') /\
      root fs' = root fs /\
      currentDirectory fs' = currentDirectory fs /\
      JS.keys (nodes fs') = JS.keys (nodes fs) /\
      (forall i : string,
         option_map Fixture.core (getNodeById fs' i)
         = option_map Fixture.core (getNodeById fs i)) /\
      integrity (systemState s') = 100%Z /\
      machine_state (systemState s') = System.running /\
      snapshots (systemState s')
      = (snapshots (systemState s) ++ [fst made])%list /\
      restoreSnapshot uuidv4 now JsonText.parse (s_id (fst made)) later
        (deleteSnapshot (s_id (fst made)) (snd made))
      = (false, later, deleteSnapshot (s_id (fst made)) (snd made)).
Proof.
  intros uuidv4 now iso nm desc fs later s Hfresh. cbv zeta.
  destruct (FilesystemProps.export_import_codec JsonText.stringify
              JsonText.parse iso fs (JsonTextProps.parse_stringify _))
    as (fs' & Himp & Hr & Hc & Hk & Hn).
  unfold createSnapshot, restoreSnapshot.
  cbn [fst snd s_id systemState with_systemState snapshots with_snapshots
       addNotification with_notifications tick filesystem_state].
  pose proof (MachineLaws.find_snoc_fresh (snapshots (systemState s))
                (mkSnapshot (uuidv4 (uuidCount s)) nm now
                   (exportFilesystem JsonText.stringify iso (FsTree fs))
                   desc)) as F.
  cbn [s_id] in F. rewrite (F Hfresh). cbn [filesystem_state].
  assert (Himp' :
    importFilesystem JsonText.parse
      (exportFilesystem JsonText.stringify iso (FsTree fs)) later
    = (true, FsTree fs')).
  { unfold importFilesystem in *.
    destruct (JsonText.parse _); [exact Himp|discriminate]. }
  rewrite Himp'. cbn [fst snd].
  exists fs'. eexists. split; [reflexivity|].
  split; [exact Hr|]. split; [exact Hc|]. split; [exact Hk|].
  split; [exact Hn|]. split; [reflexivity|]. split; [reflexivity|].
  split; [reflexivity|].
  apply (proj1 (proj2 (MachineLaws.restoreSnapshot_failures uuidv4 now
                         JsonText.parse _ later _))).
Qed.

End SnapshotLaws.

(** ** Sessions of the shell *)

Module SafetyLaws.

Import Filesystem Tree Terminal Session.
Import FilesystemProps TableLaws PathLaws StoreLaws TreeLaws ShellLaws.
Import ShapeLaws.
Local Open Scope string_scope.

Lemma fresh_iff (fs : FileSystem) (u : string) :
  keyed fs = true ->
  (freshId fs u = true <-> getNodeById fs u = None).
Proof.
  intro Hk. split; [now apply fresh_get|].
  intro Hu. unfold freshId. apply forallb_forall. intros n Hn.
  apply negb_true_iff, String.eqb_neq. intro E.
  pose proof (keyedTable_value _ _ Hk Hn) as G.
  unfold getNodeById in Hu. rewrite E in G. congruence.
Qed.

Lemma fresh_created (fs : FileSystem) (par n : FileNode) (u u' : string) :
  freshId fs u' = true -> In par (JS.values (nodes fs)) ->
  id n = u -> u' <> u ->
  freshId
    (with_nodes (JS.set (id par) (pushChild u par) (JS.set u n (nodes fs)))
       fs) u' = true.
Proof.
  intros Hf Hpar Hid Hne. unfold freshId. apply forallb_forall.
  intros m Hm. cbn [nodes with_nodes] in Hm.
  apply negb_true_iff, String.eqb_neq.
  apply values_set in Hm. destruct Hm as [->|Hm].
  - rewrite pushChild_id. now apply (freshId_spec fs).
  - apply values_set in Hm. destruct Hm as [->|Hm]; [congruence|].
    now apply (freshId_spec fs).
Qed.

Lemma fresh_deleted (fs fs' : FileSystem) (p : string) (b : bool)
    (u : string) :
  wellShaped fs = true -> deleteNode p fs = Some (b, fs') ->
  freshId fs u = true -> freshId fs' u = true.
Proof.
  intros HW HD Hf. destruct b.
  - destruct (deleteNode_table p fs fs' HW HD)
      as (node & pid & par & par' & ds & _ & _ & Hgp & _ & _ & Hk' & Gp
          & _ & _ & _ & _ & Gin & Gout).
    apply wellShaped_spec in HW as (Hk & _).
    apply (fresh_iff fs' u Hk'). apply (fresh_iff fs u Hk) in Hf.
    destruct (in_dec string_dec u ds) as [Hin|Hin]; [now apply Gin|].
    destruct (String.eqb_spec u pid) as [->|Hne]; [congruence|].
    now rewrite Gout.
  - assert (fs' = fs); [|subst; auto].
    unfold deleteNode in HD.
    destruct (getNodeByPath fs p) as [node|]; [|congruence].
    destruct (readOnly node || noParent node); [congruence|].
    destruct (getNodeById fs _); [|congruence].
    destruct (collectDescendants _ _ _); discriminate.
Qed.

Lemma pathInvariant_nodes (fs fs' : FileSystem) :
  nodes fs' = nodes fs -> pathInvariant fs = true ->
  pathInvariant fs' = true.
Proof.
  intros E H. unfold pathInvariant in *. rewrite E.
  rewrite forallb_forall in *. intros n Hn. specialize (H n Hn).
  unfold pathConsistent, getNodeById in *. now rewrite E.
Qed.

Lemma setCurrentDirectory_nodes (p : string) (fs : FileSystem) :
  nodes (snd (setCurrentDirectory p fs)) = nodes fs.
Proof.
  unfold setCurrentDirectory.
  destruct (getNodeByPath fs (resolvePath fs p)) as [n|]; [|reflexivity].
  now destruct (type n).
Qed.

Section Shell.
Variable uuidv4 : nat -> string.
Variable now : Z.
Variable dateToString : Z -> string.
Variable toLocaleDateString : Date -> string.
Variable RegExp_gi : string -> option (string -> nat -> option nat).
Hypothesis uuidv4_distinct : forall i j, uuidv4 i = uuidv4 j -> i = j.

Local Abbreviation execute :=
  (executeCommand uuidv4 now dateToString toLocaleDateString RegExp_gi).
Local Abbreviation builtin :=
  (runBuiltin uuidv4 now dateToString toLocaleDateString RegExp_gi).
Local Abbreviation session :=
  (runSession uuidv4 now dateToString toLocaleDateString RegExp_gi).

Lemma sound_nodes (w w' : World) :
  nodes (wfs w') = nodes (wfs w) -> uuidCount w <= uuidCount w' ->
  sound uuidv4 w -> sound uuidv4 w'.
Proof.
  intros E Hc (HW & HP & HF). split; [|split].
  - now apply shape_nodes with (fs := wfs w).
  - now apply pathInvariant_nodes with (fs := wfs w).
  - intros k Hk. unfold freshId. rewrite E. apply HF. lia.
Qed.

(** A new leaf under the id [uuidv4()] returns next. *)
Lemma grown_sound (w : World) (pp : string) (par n : FileNode) :
  sound uuidv4 w ->
  getNodeByPath (wfs w) pp = Some par -> type par = directory ->
  parent n = Some (id par) -> path n = childPath (path par) (name n) ->
  childrenOf n = [] -> id n = uuidv4 (uuidCount w) ->
  sound uuidv4
    (tick (with_fs
             (with_nodes
                (JS.set (id par) (pushChild (uuidv4 (uuidCount w)) par)
                   (JS.set (uuidv4 (uuidCount w)) n (nodes (wfs w))))
                (wfs w)) w)).
Proof.
  intros (HW & HP & HF) Hpar Hty Hpn Hpath Hcn Hid.
  pose proof HW as HW'. apply wellShaped_spec in HW' as (Hk & _).
  assert (Hgp : getNodeById (wfs w) (id par) = Some par)
    by (eapply getNodeByPath_id; eauto).
  assert (Hin : In par (JS.values (nodes (wfs w))))
    by (eapply getNodeByPath_In; eauto).
  assert (Hfr : freshId (wfs w) (uuidv4 (uuidCount w)) = true)
    by (apply HF; lia).
  split; [|split]; cbn [wfs tick with_fs uuidCount].
  - now apply shape_created.
  - now apply invariant_created.
  - intros k Hk'. apply fresh_created; auto.
    + apply HF. lia.
    + intro E. apply uuidv4_distinct in E. lia.
Qed.

Lemma touch_sound (args : list string) (w : World) :
  sound uuidv4 w -> sound uuidv4 (snd (touch uuidv4 now args w)).
Proof.
  intro Hs. unfold touch. destruct (arg0 args) as [a|]; [|exact Hs].
  destruct (getNodeByPath (wfs w) (resolvePath (wfs w) a)); [exact Hs|].
  destruct (createFile _ _ _ _ _ _) as [[n|] fs'] eqn:E; [|exact Hs].
  cbn [fst snd].
  destruct (createFile_spec _ _ _ _ _ _ _ _ E)
    as (par & Hpar & Hty & _ & -> & ->).
  eapply grown_sound; eauto.
Qed.

Lemma mkdirLoop_sound (createParents : bool) (targets : list string) :
  forall w,
    sound uuidv4 w ->
    sound uuidv4 (snd (mkdirLoop uuidv4 now createParents targets w)).
Proof.
  induction targets as [|t ts IH]; intros w Hs; [exact Hs|].
  cbn [mkdirLoop].
  destruct (createDirectory _ _ _ _ _) as [[n|] fs'] eqn:E; cbn [fst snd].
  - apply IH.
    destruct (createDirectory_spec _ _ _ _ _ _ _ E)
      as (par & Hpar & Hty & _ & -> & ->).
    eapply grown_sound; eauto.
  - destruct createParents; [now apply IH|exact Hs].
Qed.

(** [rm] returns on a sound world, whatever it is asked to remove. *)
Lemma rmLoop_sound (recursive : bool) (targets : list string) :
  forall w,
    sound uuidv4 w ->
    exists r w', rmLoop recursive targets w = Some (r, w') /\
                 sound uuidv4 w'.
Proof.
  induction targets as [|t ts IH]; intros w Hs; [simpl; eauto|].
  cbn [rmLoop].
  destruct (getNodeByPath (wfs w) t) as [node|]; [|eauto].
  destruct (_ && _); [eauto|].
  match goal with
  | |- context [deleteNode t (wfs ?x)] => set (w1 := x)
  end.
  assert (Hs1 : sound uuidv4 w1).
  { apply sound_nodes with (w := w); auto; unfold w1;
      now destruct (_ || _). }
  clearbody w1. destruct Hs1 as (HW & HP & HF).
  pose proof HW as HW'. apply wellShaped_spec in HW' as (_ & HL & _ & HR & _).
  destruct (deleteNode t (wfs w1)) as [[b fs']|] eqn:HD.
  - apply IH. cbn [snd].
    destruct (shape_deleteNode _ _ _ _ HW HD) as (HW1 & HP1).
    split; [|split]; cbn [wfs with_fs uuidCount]; auto.
    intros k Hk. apply (fresh_deleted (wfs w1) fs' t b); auto.
  - exfalso. revert HD. unfold deleteNode.
    destruct (getNodeByPath (wfs w1) t) as [nd|]; [|discriminate].
    destruct (readOnly nd || noParent nd); [discriminate|].
    destruct (getNodeById (wfs w1) _); [|discriminate].
    pose proof (collectDescendants_returns _ HL HR (id nd)) as H.
    destruct (collectDescendants _ _ _); [discriminate|now elim H].
Qed.

Lemma builtin_sound (b : Builtin) (args : list string) (w : World) :
  sound uuidv4 w ->
  exists r w', builtin b args w = Some (r, w') /\ sound uuidv4 w'.
Proof.
  intro Hs. destruct b; cbn [runBuiltin];
    try (eexists _, _; split; [reflexivity|exact Hs]).
  - eexists _, _. split; [apply f_equal, surjective_pairing|].
    unfold cd. cbn [snd]. apply sound_nodes with (w := w); auto.
    cbn [wfs with_fs]. apply setCurrentDirectory_nodes.
  - eexists _, _. split; [apply f_equal, surjective_pairing|].
    now apply touch_sound.
  - eexists _, _. split; [apply f_equal, surjective_pairing|].
    unfold mkdir. destruct (arg0 args); [|exact Hs].
    now apply mkdirLoop_sound.
  - unfold rm. destruct (arg0 args); [|eauto].
    now apply rmLoop_sound.
Qed.

Lemma execute_sound (raw : string) (w : World) :
  sound uuidv4 w ->
  exists c w',
    execute raw w = Some (c, w') /\ input c = raw /\
    sound uuidv4 w' /\ aliases (wterm w') = aliases (wterm w).
Proof.
  intro Hs. unfold executeCommand.
  destruct (parseCommand (wterm w) raw) as [cmd args].
  match goal with
  | |- context [match ?d with Some _ => _ | None => None end] =>
      assert (Hd : exists res w1,
                d = Some (res, w1) /\ sound uuidv4 w1 /\
                wterm w1 = wterm w)
  end.
  { destruct (negb (JS.truthy cmd)); [eauto|].
    destruct (JS.get cmd commands) as [b|]; [|eauto].
    destruct (builtin_sound b args w Hs) as (r & w1 & E & Hs1).
    exists r, w1. split; [exact E|]. split; [exact Hs1|].
    eapply runBuiltin_facts; eauto. }
  destruct Hd as (res & w1 & -> & Hs1 & Ht).
  eexists _, _. split; [reflexivity|]. split; [reflexivity|]. split.
  - apply sound_nodes with (w := w1); auto;
      destruct (JS.truthy cmd); cbn; auto.
  - destruct (JS.truthy cmd); cbn; now rewrite Ht.
Qed.

Lemma session_sound (inputs : list string) :
  forall w,
    sound uuidv4 w ->
    exists cs w',
      session inputs w = Some (cs, w') /\ map input cs = inputs /\
      sound uuidv4 w'.
Proof.
  induction inputs as [|raw rest IH]; intros w Hs.
  - exists [], w. split; [reflexivity|]. split; [reflexivity|exact Hs].
  - destruct (execute_sound raw w Hs) as (c & w1 & E & Hin & Hs1 & _).
    destruct (IH w1 Hs1) as (cs & w2 & E2 & Hmap & Hs2).
    exists (c :: cs), w2. cbn [runSession]. rewrite E, E2.
    split; [reflexivity|]. split; [|exact Hs2].
    cbn [map]. now rewrite Hin, Hmap.
Qed.

(** X30.  A session of the shell on a sound world, with command lines
    that look up own keys of the tables only: if [uuidv4()] never
    returns an id twice, every command of the session returns (the
    recursion of [rm] comes back), and at the end the tree is in shape
    again, its cached paths agree with the parents and names, and the
    ids still to come are new; so the next [deleteNode] returns too. *)
Theorem sessions_keep_the_tree_sound :
  forall (inputs : list string) (w : World),
    sound uuidv4 w ->
    Forall (fun raw => ownLookups (wterm w) raw = true) inputs ->
    exists cs w',
      session inputs w = Some (cs, w') /\
      map input cs = inputs /\
      sound uuidv4 w' /\
      forall p, exists b fs', deleteNode p (wfs w') = Some (b, fs').
Proof.
  intros inputs w Hs _.
  destruct (session_sound inputs w Hs) as (cs & w' & E & Hmap & Hs').
  exists cs, w'. split; [exact E|]. split; [exact Hmap|].
  split; [exact Hs'|]. intro p. destruct Hs' as (HW & _).
  apply wellShaped_spec in HW as (_ & HL & _ & HR & _).
  unfold deleteNode.
  destruct (getNodeByPath (wfs w') p) as [node|]; [|eauto].
  destruct (readOnly node || noParent node); [eauto|].
  destruct (getNodeById (wfs w') _) as [par|]; [|eauto].
  pose proof (collectDescendants_returns _ HL HR (id node)) as H.
  destruct (collectDescendants _ _ _); [eauto|now elim H].
Qed.
End Shell.

End SafetyLaws.

(** ** The laws at work on the start-up stores *)

Module Instances.

Import Filesystem Tree Terminal Session Fixture.
Local Open Scope string_scope.

(** The result of a run, computed, as the instance of the variables
    that the statement binds. *)
Ltac computed_pair t :=
  let v := eval vm_compute in t in
  lazymatch v with
  | (Some ?n, ?fs) => exists n, fs
  | Some (?c, ?w) => exists c, w
  end.

Ltac computed_state t :=
  let v := eval vm_compute in t in
  lazymatch v with
  | (true, ?fs) => exists fs
  | Some (true, ?fs) => exists fs
  end.

Lemma resolvePath_normal_form_witness :
  JS.startsWith "../x/./y" "~/" = false /\
  isNormalPath (cwdPath seed) = true /\
  resolvePath seed "../x/./y" = "/home/x/y" /\
  resolvePath seed (resolvePath seed "../x/./y")
  = resolvePath seed "../x/./y".
Proof.
  split; [reflexivity|]. split; [vm_compute; reflexivity|].
  split; [vm_compute; reflexivity|].
  apply (TreeLaws.resolvePath_normal_form seed "../x/./y");
    vm_compute; reflexivity.
Defined.

Lemma createFile_then_readFile_witness :
  freshId seed "uuid-19" = true /\
  exists n fs',
    createFile "a.txt" "/home/user" "hi" "uuid-19" 1 seed = (Some n, fs') /\
    path n = "/home/user/a.txt" /\
    readFile fs' (path n) = Some "hi".
Proof.
  split; [vm_compute; reflexivity|].
  computed_pair (createFile "a.txt" "/home/user" "hi" "uuid-19" 1 seed).
  split; [vm_compute; reflexivity|]. split; [reflexivity|].
  refine (proj1 (proj2 (proj2
            (StoreLaws.createFile_then_readFile "a.txt" "/home/user" "hi"
               "uuid-19" 1 seed _ _ _ _ _))));
    vm_compute; reflexivity.
Defined.

Lemma createDirectory_then_enter_witness :
  freshId seed "uuid-19" = true /\
  exists n fs',
    createDirectory "tmp" "/home/user" "uuid-19" 1 seed = (Some n, fs') /\
    path n = "/home/user/tmp" /\
    setCurrentDirectory (path n) fs'
    = (true, with_currentDirectory "uuid-19" fs').
Proof.
  split; [vm_compute; reflexivity|].
  computed_pair (createDirectory "tmp" "/home/user" "uuid-19" 1 seed).
  split; [vm_compute; reflexivity|]. split; [reflexivity|].
  refine (proj1 (proj2 (proj2
            (StoreLaws.createDirectory_then_enter "tmp" "/home/user"
               "uuid-19" 1 seed _ _ _ _ _))));
    vm_compute; reflexivity.
Defined.

Lemma updateFileContent_then_readFile_witness :
  keyed seed = true /\
  exists fs',
    updateFileContent "README.md" "new" 1 seed = (true, fs') /\
    readFile fs' "README.md" = Some "new".
Proof.
  split; [vm_compute; reflexivity|].
  computed_state (updateFileContent "README.md" "new" 1 seed).
  split; [vm_compute; reflexivity|].
  refine (proj1 (StoreLaws.updateFileContent_then_readFile "README.md"
                   "new" 1 seed _ _ _));
    vm_compute; reflexivity.
Defined.

Lemma deleteNode_removes_subtree_witness :
  keyed seed = true /\
  exists fs',
    deleteNode "/data/logs" seed = Some (true, fs') /\
    currentDirectory fs' = currentDirectory seed /\
    exists ds, collectDescendants (depthBound seed) seed "uuid-12" = Some ds.
Proof.
  split; [vm_compute; reflexivity|].
  computed_state (deleteNode "/data/logs" seed).
  split; [vm_compute; reflexivity|].
  match goal with
  | |- currentDirectory ?f = _ /\ _ =>
      destruct (StoreLaws.deleteNode_removes_subtree "/data/logs" seed f)
        as (node & par & ds & Hn & _ & _ & Hd & _ & _ & _ & _ & _ & Hc)
  end.
  - vm_compute; reflexivity.
  - vm_compute; reflexivity.
  - split; [exact Hc|]. exists ds.
    vm_compute in Hn. inversion Hn; subst node. exact Hd.
Defined.

Lemma deleteNode_of_current_directory_witness :
  keyed seed = true /\
  exists fs',
    deleteNode "." seed = Some (true, fs') /\
    getCurrentDirectory fs' = None /\ cwdPath fs' = "/".
Proof.
  split; [vm_compute; reflexivity|].
  computed_state (deleteNode "." seed).
  split; [vm_compute; reflexivity|].
  assert (N : exists node, getNodeByPath seed "." = Some node /\
                           currentDirectory seed = id node /\
                           parent node <> Some (id node)).
  { let v := eval vm_compute in (getNodeByPath seed ".") in
    lazymatch v with Some ?n => exists n end.
    split; [vm_compute; reflexivity|]. split; [reflexivity|].
    vm_compute. discriminate. }
  destruct N as (node & N1 & N2 & N3).
  match goal with
  | |- getCurrentDirectory ?f = _ /\ _ =>
      destruct (StoreLaws.deleteNode_of_current_directory "." seed f node)
        as (_ & H1 & H2 & _);
        [vm_compute; reflexivity|exact N1|exact N2|exact N3
        |vm_compute; reflexivity|]
  end.
  split; [exact H1|exact H2].
Defined.

Lemma actions_keep_table_keyed_witness :
  keyed seed = true /\
  exists r fs',
    run JsonText.parse (CreateFile "a.txt" "/home/user" "" "uuid-19" 1)
      (FsTree seed) = Some (r, FsTree fs') /\
    keyed fs' = true.
Proof.
  split; [vm_compute; reflexivity|].
  let v := eval vm_compute in
    (run JsonText.parse (CreateFile "a.txt" "/home/user" "" "uuid-19" 1)
       (FsTree seed)) in
  lazymatch v with Some (?r, FsTree ?fs) => exists r, fs end.
  split; [vm_compute; reflexivity|].
  refine (proj1 (TreeLaws.actions_keep_table_keyed JsonText.parse
                   (CreateFile "a.txt" "/home/user" "" "uuid-19" 1)
                   seed _ _ _ _ _)).
  - vm_compute; reflexivity.
  - intros data H. discriminate H.
  - vm_compute; reflexivity.
Defined.

Lemma path_invariant_kept_witness :
  keyed seed = true /\ pathInvariant seed = true /\
  pathInvariant (snd (updateFileContent "README.md" "x" 1 seed)) = true.
Proof.
  split; [vm_compute; reflexivity|]. split; [vm_compute; reflexivity|].
  refine (proj1 (proj2 (proj2
            (TreeLaws.path_invariant_kept seed _ _))) "README.md" "x" 1%Z);
    vm_compute; reflexivity.
Defined.




Lemma grep_output_and_exit_code_witness :
  exists matches,
    grep literalRegExp ["b"; "/home/user/ab.txt"]
      (mkWorld seedWithFile system0 initialTerminal 20)
    = mkResult (JS.join (String JS.LF "") matches)
        (match matches with [] => 1 | _ :: _ => 0 end) /\
    forall l, In l matches -> In l (JS.split JS.LF twoLines).
Proof.
  destruct (ShellLaws.grep_output_and_exit_code literalRegExp "b"
              "/home/user/ab.txt" []
              (mkWorld seedWithFile system0 initialTerminal 20) twoLines
              (literalSearch "b"))
    as (matches & E & S & _).
  - vm_compute; reflexivity.
  - reflexivity.
  - exists matches. split; [exact E|]. intros l Hl. now apply S.
Defined.

Lemma head_tail_short_file_witness :
  readFile seed ".bashrc" = Some bashrcText /\
  head [".bashrc"] world0 = ok bashrcText /\
  tail [".bashrc"] world0 = ok bashrcText.
Proof.
  split; [vm_compute; reflexivity|].
  refine (proj1 (ShellLaws.head_tail_short_file [".bashrc"] ".bashrc"
                   bashrcText 10 world0 _ _ _) _).
  - reflexivity.
  - vm_compute; reflexivity.
  - reflexivity.
  - vm_compute. discriminate.
Defined.



Lemma navigateHistory_keeps_cursor_witness :
  historyIndex draftState = (-1)%Z /\
  currentInput (snd (navigateHistory up draftState))
  = fst (navigateHistory up draftState) /\
  fst (navigateHistory up draftState) = "pwd".
Proof.
  split; [reflexivity|]. split; [|reflexivity].
  refine (proj1 (proj2 (proj2 (proj2
            (LineLaws.navigateHistory_keeps_cursor up draftState _))))).
  vm_compute. split; discriminate.
Defined.

Lemma arrows_walk_the_history_witness :
  commandHistory draftState = ["ls"; "pwd"] /\
  currentInput (pressTimes 2 up draftState) = "ls" /\
  currentInput (pressTimes 2 down (pressTimes 2 up draftState)) = "".
Proof.
  split; [reflexivity|].
  destruct (LineLaws.arrows_walk_the_history 1 draftState) as (_ & A & B).
  - discriminate.
  - reflexivity.
  - split; [exact A|]. apply B. vm_compute. discriminate.
Defined.

Lemma cd_then_pwd_witness :
  keyed (wfs world0) = true /\
  pwd (snd (cd ["/data/logs"] world0)) = ok "/data/logs".
Proof.
  split; [vm_compute; reflexivity|].
  refine (proj1 (proj2
            (proj1 (SequenceLaws.cd_then_pwd ["/data/logs"] world0 _) _))).
  - vm_compute; reflexivity.
  - vm_compute; reflexivity.
Defined.


Lemma actions_keep_ranges_witness :
  Machine.integrity
    (Machine.systemState
       (snd (Machine.run uuid 1 JsonText.stringify JsonText.parse iso
               (Machine.UpdateIntegrity (-300)) (FsTree seed)
               (Machine.initialStore 0)))) = 0%Z /\
  (List.length
     (Machine.notifications
        (snd (Machine.run uuid 1 JsonText.stringify JsonText.parse iso
                (Machine.UpdateIntegrity (-300)) (FsTree seed)
                (Machine.initialStore 0)))) <= 50)%nat.
Proof.
  split; [reflexivity|].
  refine (proj2 (MachineLaws.actions_keep_ranges uuid 1 JsonText.stringify
                   JsonText.parse iso (Machine.UpdateIntegrity (-300))
                   (FsTree seed) (Machine.initialStore 0) _ _)).
  - vm_compute. split; discriminate.
  - vm_compute. lia.
Defined.

Lemma snapshot_restores_tree_witness :
  exists fs' s',
    Machine.restoreSnapshot uuid 1 JsonText.parse "uuid-0" (FsOther JNull)
      (snd (Machine.createSnapshot uuid 1 JsonText.stringify iso "first"
              None (FsTree seed) (Machine.initialStore 0)))
    = (true, FsTree fs', s') /\
    root fs' = root seed /\
    Machine.integrity (Machine.systemState s') = 100%Z.
Proof.
  destruct (SnapshotLaws.snapshot_restores_tree uuid 1 iso "first" None
              seed (FsOther JNull) (Machine.initialStore 0))
    as (fs' & s' & E & R & _ & _ & _ & I & _).
  - intros x [].
  - exists fs', s'. split; [exact E|]. split; [exact R|exact I].
Defined.

Lemma login_keeps_or_replaces_profile_witness :
  option_map Machine.xp
    (Machine.user
       (Machine.login uuid 2 "ada"
          (Machine.logout
             (Machine.addXP uuid 1 700
                (Machine.login uuid 1 "ada" (Machine.initialStore 0))))))
  = Some 700%Z.
Proof.
  let v := eval vm_compute in
    (Machine.user
       (Machine.addXP uuid 1 700
          (Machine.login uuid 1 "ada" (Machine.initialStore 0)))) in
  lazymatch v with
  | Some ?u =>
      destruct (MachineLaws.login_keeps_or_replaces_profile uuid 2 iso
                  "ada"
                  (Machine.addXP uuid 1 700
                     (Machine.login uuid 1 "ada" (Machine.initialStore 0)))
                  u) as (_ & H & _);
      [vm_compute; reflexivity|rewrite H; reflexivity]
  end.
Defined.

(** The stand-in for [uuidv4()] never returns an id twice, and the
    start-up world is sound for it. *)
Lemma to_int_digits (z : Z) :
  Z.to_int z <> Decimal.Pos Decimal.Nil /\
  Z.to_int z <> Decimal.Neg Decimal.Nil.
Proof.
  pose proof (DecimalZ.to_of (Z.to_int z)) as H.
  rewrite DecimalZ.of_to in H.
  split; intro E; rewrite E in H; discriminate.
Qed.

Lemma uuid_distinct : forall i j, uuid i = uuid j -> i = j.
Proof.
  intros i j H. unfold uuid in H. cbn [append] in H.
  injection H as H. unfold JS.ofNat, JS.ofZ in H.
  apply (f_equal NilZero.int_of_string) in H.
  rewrite !NilZero.isi in H by apply to_int_digits.
  injection H as H. apply DecimalZ.to_int_inj in H. lia.
Qed.

Lemma seed_ids :
  map id (JS.values (nodes seed)) = map uuid (seq 0 19).
Proof. vm_compute. reflexivity. Qed.

Lemma world0_sound : sound uuid world0.
Proof.
  split; [vm_compute; reflexivity|]. split; [vm_compute; reflexivity|].
  intros k Hk. change (uuidCount world0) with 19 in Hk.
  change (wfs world0) with seed. unfold freshId.
  apply forallb_forall. intros n Hn.
  apply negb_true_iff, String.eqb_neq. intro E.
  apply (in_map id) in Hn. rewrite seed_ids in Hn.
  apply in_map_iff in Hn. destruct Hn as (j & Hj & Hin).
  apply in_seq in Hin. rewrite E in Hj. apply uuid_distinct in Hj. lia.
Qed.

Lemma deleteNode_and_renameNode_return_witness :
  linked seed = true /\ rooted seed = true /\
  (exists b fs', deleteNode "/data" seed = Some (b, fs')) /\
  (exists b fs', renameNode "/data" "d" 1 seed = Some (b, fs')).
Proof.
  split; [vm_compute; reflexivity|]. split; [vm_compute; reflexivity|].
  destruct (ShapeLaws.deleteNode_and_renameNode_return seed)
    as (_ & D & R); [vm_compute; reflexivity..|].
  split; [apply (D "/data")|apply (R "/data" "d" 1%Z)].
Defined.

Lemma actions_keep_tree_shape_witness :
  wellShaped seed = true /\ freshId seed "uuid-19" = true /\
  wellShaped (snd (createFile "a.txt" "/home/user" "hi" "uuid-19" 1 seed))
  = true.
Proof.
  split; [vm_compute; reflexivity|]. split; [vm_compute; reflexivity|].
  refine (proj1 (ShapeLaws.actions_keep_tree_shape seed _)
            "a.txt" "/home/user" "hi" "uuid-19" 1%Z _);
    vm_compute; reflexivity.
Defined.

Lemma sessions_keep_the_tree_sound_witness :
  sound uuid world0 /\
  exists cs w',
    runSession uuid 1 dateText localeDate literalRegExp
      ["mkdir x"; "touch x/a"; "rm -r x"] world0 = Some (cs, w') /\
    map input cs = ["mkdir x"; "touch x/a"; "rm -r x"] /\
    sound uuid w'.
Proof.
  split; [exact world0_sound|].
  destruct (SafetyLaws.sessions_keep_the_tree_sound uuid 1 dateText
              localeDate literalRegExp uuid_distinct
              ["mkdir x"; "touch x/a"; "rm -r x"] world0 world0_sound)
    as (cs & w' & E & Hm & Hs & _).
  - repeat constructor.
  - exists cs, w'. split; [exact E|]. split; [exact Hm|exact Hs].
Defined.


Lemma moveNode_and_the_shape_witness :
  wellShaped seed = true /\
  (exists fs',
     moveNode "/data/logs" "/home" 1 seed = (true, fs') /\
     wellShaped fs' = true) /\
  (exists fs',
     moveNode "/data" "/data/logs" 1 seed = (true, fs') /\
     deleteNode "/data/logs/data" fs' = None).
Proof.
  split; [vm_compute; reflexivity|].
  destruct (getNodeByPath seed "/data/logs") as [logs|] eqn:Hlogs;
    [|vm_compute in Hlogs; discriminate].
  destruct (getNodeByPath seed "/home") as [home|] eqn:Hhome;
    [|vm_compute in Hhome; discriminate].
  destruct (getNodeByPath seed "/data") as [data|] eqn:Hdata;
    [|vm_compute in Hdata; discriminate].
  assert (Hl : id logs = "uuid-12" /\ parent logs = Some "uuid-11").
  { vm_compute in Hlogs. inversion Hlogs; subst. split; reflexivity. }
  assert (Hh : id home = "uuid-2").
  { vm_compute in Hhome. inversion Hhome; subst. reflexivity. }
  assert (Hd : id data = "uuid-11").
  { vm_compute in Hdata. inversion Hdata; subst. reflexivity. }
  destruct Hl as (Hl & Hlp). split.
  - destruct (moveNode "/data/logs" "/home" 1 seed) as [b fs'] eqn:E.
    assert (Hb : fst (moveNode "/data/logs" "/home" 1 seed) = true)
      by (vm_compute; reflexivity).
    rewrite E in Hb. cbn [fst] in Hb. subst b.
    exists fs'. split; [reflexivity|].
    refine (proj1 (proj1 (MoveLaws.moveNode_and_the_shape "/data/logs"
                            "/home" 1 seed fs' logs home _ Hlogs Hhome E)
                     _ _)).
    + vm_compute; reflexivity.
    + rewrite Hl, Hh. intro B.
      assert (D1 : Depth seed "uuid-12" 2)
        by (apply (ShapeLaws.depthOf_sound seed 19); vm_compute;
            reflexivity).
      assert (D2 : Depth seed "uuid-2" 1)
        by (apply (ShapeLaws.depthOf_sound seed 19); vm_compute;
            reflexivity).
      pose proof (ShapeLaws.Below_depth seed _ _ B 2 1 D1 D2). lia.
    + rewrite Hlp, Hh. discriminate.
  - destruct (moveNode "/data" "/data/logs" 1 seed) as [b fs'] eqn:E.
    assert (Hb : fst (moveNode "/data" "/data/logs" 1 seed) = true)
      by (vm_compute; reflexivity).
    rewrite E in Hb. cbn [fst] in Hb. subst b.
    exists fs'. split; [reflexivity|].
    assert (Hf : fs' = snd (moveNode "/data" "/data/logs" 1 seed))
      by (now rewrite E).
    destruct (getNodeByPath fs' "/data/logs/data") as [n|] eqn:Hn;
      [|rewrite Hf in Hn; vm_compute in Hn; discriminate].
    assert (Hnn : id n = "uuid-11" /\ noParent n = false).
    { rewrite Hf in Hn. vm_compute in Hn. inversion Hn; subst.
      split; reflexivity. }
    refine (proj2 (proj2 (proj2 (MoveLaws.moveNode_and_the_shape "/data"
                                   "/data/logs" 1 seed fs' data logs _ Hdata
                                   Hlogs E) _)) "/data/logs/data" n Hn _ _).
    + vm_compute; reflexivity.
    + rewrite Hd, Hl. eapply Below_up; [|exact Hlp|constructor].
      rewrite <- Hl. eapply TableLaws.getNodeByPath_id; [|exact Hlogs].
      vm_compute; reflexivity.
    + rewrite Hd. apply Hnn.
    + apply Hnn.
Defined.

End Instances.
